(** * file_sync: one-way directory synchronisation (Exercise_1/file_sync.c)

    A shallow embedding of [file_sync.c] and of the operating-system
    services it calls, followed by the properties of the program.

    Layout of the development:
    - [CStr]     C strings: [strcmp], [snprintf] of two joined paths,
                 splitting a path at its slashes;
    - [Fs]       the file-system state: a directory-ordered table from
                 canonical paths to regular files and directories;
    - [Os]       the system calls and utilities the program relies on
                 ([stat], [realpath], [getcwd], [mkdir], [opendir]/[readdir],
                 [diff -q], [cp], [fork]/[execl]/[wait]) as functions on the
                 world;
    - [FileSync] the functions of file_sync.c, one definition per C function;
    - [Spec]     the vocabulary of the specification, [Aux] the vocabulary
                 of the proofs, [Examples] concrete worlds;
    - the lemmas and theorems.

    Scope of the world model.
    - The world holds regular files and directories.  Symbolic links, hard
      links, special files and permission bits are absent: every file is
      accessible to the process.
    - A time stamp is a number of nanoseconds, as the file system keeps it
      in [st_mtim]; [st_mtime], the field the program reads, is its whole
      seconds, and [difftime] is exact on those.
    - A directory carries the stamp it was created with.  That creating an
      entry also stamps the directory it is created in is not modelled, so
      the theorems say nothing of the stamp of a directory: they compare
      entries up to it.
    - [diff] and [cp] behave as POSIX describes them, including their
      treatment of a directory operand; [cp] writes in place and a write
      fails past the largest file size the file system stores.
    - [fork] succeeds, and a child ends by exiting, never by a signal.
      The output of a run is the sequence of lines its parent process
      prints with [printf]; standard error, and what a child that failed
      to [execl] flushes from the buffer it inherited, are not recorded.
    - Every [char] buffer of the program is [MAX_PATH] bytes.  The cut
      [snprintf] makes is modelled; the inputs that would overrun a buffer
      written by [realpath] or [strncpy] are the ones [within_buffers]
      rejects. *)

From Stdlib Require Import String Ascii List ZArith Lia Bool Arith.
From Stdlib Require Import Sorting.Sorted Sorting.Permutation.
Import ListNotations.
Open Scope string_scope.
Open Scope list_scope.

(* ================================================================== *)
(** ** Constants of file_sync.c *)

Definition MAX_FILES : nat := 100.
Definition MAX_FILENAME : nat := 256.
Definition MAX_PATH : nat := 1024.

(* ================================================================== *)
(** ** C strings *)

Module CStr.

Definition byte_val (c : ascii) : Z := Z.of_nat (nat_of_ascii c).

(** [strcmp]: the difference of the first two bytes that differ, read as
    [unsigned char]; only its sign is specified by C. *)
Fixpoint strcmp (a b : string) : Z :=
  match a, b with
  | EmptyString, EmptyString => 0
  | EmptyString, String d _ => 0 - byte_val d
  | String c _, EmptyString => byte_val c - 0
  | String c a', String d b' =>
      if Ascii.eqb c d then strcmp a' b' else byte_val c - byte_val d
  end.

(** [snprintf(buf, size, "%s/%s", a, b)]: the joined string, cut to the
    [size - 1] bytes that fit before the terminator. *)
Definition snprintf_path (size : nat) (a b : string) : string :=
  substring 0 (size - 1) (a ++ "/" ++ b)%string.

Definition is_slash (c : ascii) : bool := Ascii.eqb c "/".

(** The pieces of a path between its slashes: [n] slashes give [n + 1]
    pieces, empty ones included. *)
Fixpoint split_slash (s : string) : list string :=
  match s with
  | EmptyString => [EmptyString]
  | String c s' =>
      if is_slash c then EmptyString :: split_slash s'
      else match split_slash s' with
           | h :: t => String c h :: t
           | [] => [String c EmptyString]
           end
  end.

Fixpoint has_slash (s : string) : bool :=
  match s with
  | EmptyString => false
  | String c s' => is_slash c || has_slash s'
  end.

(** A C string ends at its first NUL byte, so none occurs inside it. *)
Fixpoint has_nul (s : string) : bool :=
  match s with
  | EmptyString => false
  | String c s' => Ascii.eqb c zero || has_nul s'
  end.

(** The last byte of a string, if any. *)
Fixpoint last_char (s : string) : option ascii :=
  match s with
  | EmptyString => None
  | String c EmptyString => Some c
  | String _ s' => last_char s'
  end.

(** The string without its last byte. *)
Fixpoint drop_last (s : string) : string :=
  match s with
  | EmptyString => EmptyString
  | String _ EmptyString => EmptyString
  | String c s' => String c (drop_last s')
  end.

End CStr.

(* ================================================================== *)
(** ** File-system state *)

Module Fs.

(** A canonical absolute path: the names from the root down. *)
Definition path := list string.

Definition path_eq_dec : forall a b : path, {a = b} + {a <> b} :=
  list_eq_dec string_dec.

(** A regular file with its bytes, or a directory; [mtime] is the time of
    the last modification, in nanoseconds. *)
Inductive node :=
| Reg (data : string) (mtime : Z)
| Dir (mtime : Z).

Definition is_dir (n : node) : bool :=
  match n with Dir _ => true | Reg _ _ => false end.

Definition is_reg (n : node) : bool :=
  match n with Reg _ _ => true | Dir _ => false end.

Definition node_mtime (n : node) : Z :=
  match n with Reg _ t => t | Dir t => t end.

(** The table lists the entries in directory order (the order [readdir]
    reports them in); the root directory is always there. *)
Definition fs := list (path * node).

Fixpoint find (f : fs) (k : path) : option node :=
  match f with
  | [] => None
  | (k', n) :: f' => if path_eq_dec k k' then Some n else find f' k
  end.

Definition lookup (f : fs) (k : path) : option node :=
  match k with
  | [] => Some (Dir 0)
  | _ :: _ => find f k
  end.

(** Overwrite the entry in place, or append a new one. *)
Fixpoint put (f : fs) (k : path) (n : node) : fs :=
  match f with
  | [] => [(k, n)]
  | (k', n') :: f' =>
      if path_eq_dec k k' then (k, n) :: f' else (k', n') :: put f' k n
  end.

Definition dir_at (f : fs) (k : path) : bool :=
  match lookup f k with Some (Dir _) => true | _ => false end.

(** Splits a non-empty list into its front and its last element. *)
Fixpoint split_last {A} (l : list A) : option (list A * A) :=
  match l with
  | [] => None
  | [x] => Some ([], x)
  | x :: l' =>
      match split_last l' with
      | Some (front, y) => Some (x :: front, y)
      | None => None
      end
  end.

(** Names of the entries directly inside directory [d], in table order. *)
Fixpoint children (f : fs) (d : path) : list string :=
  match f with
  | [] => []
  | (k, _) :: f' =>
      match split_last k with
      | Some (front, name) =>
          if path_eq_dec front d then name :: children f' d else children f' d
      | None => children f' d
      end
  end.

(** Path lookup as the kernel does it: from [cur], one component at a time.
    Every step needs the current object to be a directory; an empty
    component and [.] stay, [..] goes up (the root is its own parent). *)
Fixpoint walk (f : fs) (cur : path) (cs : list string) : option path :=
  match cs with
  | [] => Some cur
  | c :: cs' =>
      if dir_at f cur then
        if String.eqb c "" || String.eqb c "." then walk f cur cs'
        else if String.eqb c ".." then walk f (removelast cur) cs'
        else walk f (cur ++ [c]) cs'
      else None
  end.

(** A proper entry name: not empty, not [.] or [..], without a slash or a
    NUL byte. *)
Definition valid_name (n : string) : bool :=
  negb (String.eqb n "") && negb (String.eqb n ".") &&
  negb (String.eqb n "..") && negb (CStr.has_slash n) &&
  negb (CStr.has_nul n).

(** Every entry of the table is reached through proper names. *)
Definition wf_fs (f : fs) : bool :=
  forallb (fun kn => forallb valid_name (fst kn)) f.

End Fs.

(* ================================================================== *)
(** ** The operating system: world state, system calls, utilities *)

Module Os.
Import CStr Fs.

(** A terminated child process as [wait] reports it: the program it was
    to run, its arguments, whether [execl] succeeded, its exit status. *)
Record child := mkChild {
  c_prog : string;
  c_args : list string;
  c_exec_ok : bool;
  c_status : Z
}.

Record world := mkWorld {
  w_fs : fs;                (* files and directories *)
  w_cwd : path;             (* working directory of the process *)
  w_now : Z;                (* clock, in nanoseconds *)
  w_maxbytes : nat;         (* largest file the file system stores; a write
                               past it fails once that many bytes are written *)
  w_execs : list string;    (* paths at which [execl] finds a program *)
  w_indet : Z;              (* a value the model leaves undetermined: what is
                               read from a [struct stat] that [stat] did not
                               fill, the verdict of [diff] on two directories *)
  w_children : list child   (* children reaped so far, oldest first *)
}.

Definition set_fs (w : world) (f : fs) : world :=
  mkWorld f (w_cwd w) (w_now w) (w_maxbytes w) (w_execs w) (w_indet w)
          (w_children w).

Definition add_child (w : world) (c : child) : world :=
  mkWorld (w_fs w) (w_cwd w) (w_now w) (w_maxbytes w) (w_execs w) (w_indet w)
          (w_children w ++ [c]).

Definition set_now (w : world) (t : Z) : world :=
  mkWorld (w_fs w) (w_cwd w) t (w_maxbytes w) (w_execs w) (w_indet w)
          (w_children w).

(** *** Path resolution *)

Definition start_dir (w : world) (p : string) : path :=
  match p with
  | String c _ => if is_slash c then [] else w_cwd w
  | EmptyString => w_cwd w
  end.

(** The canonical path a path text leads to; the empty text leads
    nowhere.  The last step is not checked for existence. *)
Definition resolve (w : world) (p : string) : option path :=
  match p with
  | EmptyString => None
  | String _ _ => walk (w_fs w) (start_dir w p) (split_slash p)
  end.

(** The object a path names, with its canonical path. *)
Definition namei (w : world) (p : string) : option (path * node) :=
  match resolve w p with
  | Some k =>
      match lookup (w_fs w) k with
      | Some n => Some (k, n)
      | None => None
      end
  | None => None
  end.

Inductive file_type := S_IFREG | S_IFDIR.

Definition NSEC_PER_SEC : Z := 1000000000.

(** The whole seconds of a time stamp: [st_mtim.tv_sec]. *)
Definition tv_sec (t : Z) : Z := (t / NSEC_PER_SEC)%Z.

Record stat_t := mkStat {
  st_ino : path;            (* identity of the file *)
  st_mode : file_type;
  st_mtime : Z              (* [st_mtim.tv_sec], a [time_t] *)
}.

Definition S_ISREG (m : file_type) : bool :=
  match m with S_IFREG => true | S_IFDIR => false end.

Definition mode_of (n : node) : file_type :=
  match n with Reg _ _ => S_IFREG | Dir _ => S_IFDIR end.

(** [stat(path, &st)]: [Some st] when it returns 0, [None] when it fails. *)
Definition stat (w : world) (p : string) : option stat_t :=
  match namei w p with
  | Some (k, n) => Some (mkStat k (mode_of n) (tv_sec (node_mtime n)))
  | None => None
  end.

(** The text of a canonical path. *)
Definition path_str (k : path) : string :=
  match k with
  | [] => "/"
  | _ :: _ => fold_right (fun c acc => ("/" ++ c ++ acc)%string) "" k
  end.

(** [realpath(path, buf)]: [None] stands for [NULL]. *)
Definition realpath (w : world) (p : string) : option string :=
  match namei w p with
  | Some (k, _) => Some (path_str k)
  | None => None
  end.

(** [getcwd(buf, size)]: fails when the working directory is gone or its
    path and terminator do not fit in [size] bytes. *)
Definition getcwd (w : world) (size : nat) : option string :=
  if dir_at (w_fs w) (w_cwd w) then
    if (String.length (path_str (w_cwd w)) <? size)%nat
    then Some (path_str (w_cwd w)) else None
  else None.

(** *** Creating entries *)

Fixpoint strip_trailing_empty (cs : list string) : list string :=
  match cs with
  | [] => []
  | c :: cs' =>
      match strip_trailing_empty cs' with
      | [] => if String.eqb c "" then [] else [c]
      | r => c :: r
      end
  end.

(** Where a new entry named by the components [cs] would go: its parent
    must resolve to a directory, its name must be proper and still free. *)
Definition creat_at (w : world) (start : path) (cs : list string)
  : option path :=
  match split_last cs with
  | Some (front, name) =>
      match walk (w_fs w) start front with
      | Some d =>
          if dir_at (w_fs w) d && valid_name name then
            match lookup (w_fs w) (d ++ [name]) with
            | None => Some (d ++ [name])
            | Some _ => None
            end
          else None
      | None => None
      end
  | None => None
  end.

(** [mkdir(path, 0755)]: returns 0 and creates the directory, or returns -1
    and changes nothing (the path exists, or its parent is missing or not a
    directory).  Trailing slashes are ignored. *)
Definition mkdir (w : world) (p : string) : world * Z :=
  match p with
  | EmptyString => (w, -1)%Z
  | String _ _ =>
      match creat_at w (start_dir w p) (strip_trailing_empty (split_slash p)) with
      | Some k => (set_fs w (put (w_fs w) k (Dir (w_now w))), 0%Z)
      | None => (w, -1)%Z
      end
  end.

(** *** Reading a directory *)

(** [opendir] followed by [readdir] until it returns [NULL]: the [d_name]
    of every entry, the two pseudo-entries first. *)
Definition opendir (w : world) (p : string) : option (list string) :=
  match namei w p with
  | Some (k, Dir _) => Some ("." :: ".." :: children (w_fs w) k)
  | _ => None
  end.

(** *** The utilities [diff] and [cp] *)

Definition basename (p : string) : string := last (split_slash p) "".

(** What [open(O_WRONLY|O_CREAT|O_TRUNC)] and the writes of [data] leave in
    entry [k]: the bytes that fit, stamped with the current time; the status
    is 0 when all of [data] was written. *)
Definition write_file (w : world) (k : path) (data : string) : world * Z :=
  let stored := substring 0 (w_maxbytes w) data in
  (set_fs w (put (w_fs w) k (Reg stored (w_now w))),
   if (String.length data <=? w_maxbytes w)%nat then 0%Z else 1%Z).

(** Exit status of [diff -q a b]: 0 same, 1 different, 2 trouble.  When
    one operand is a directory the other is compared with the file of the
    same name inside it. *)
Definition diff_status (w : world) (a b : string) : Z :=
  match namei w a, namei w b with
  | Some (_, Reg da _), Some (_, Reg db _) =>
      if String.eqb da db then 0%Z else 1%Z
  | Some (_, Reg da _), Some (kb, Dir _) =>
      match lookup (w_fs w) (kb ++ [basename a]) with
      | Some (Reg db _) => if String.eqb da db then 0%Z else 1%Z
      | Some (Dir _) => 1%Z
      | None => 2%Z
      end
  | Some (ka, Dir _), Some (_, Reg db _) =>
      match lookup (w_fs w) (ka ++ [basename b]) with
      | Some (Reg da _) => if String.eqb da db then 0%Z else 1%Z
      | Some (Dir _) => 1%Z
      | None => 2%Z
      end
  | Some (_, Dir _), Some (_, Dir _) => w_indet w
  | _, _ => 2%Z
  end.

(** Copying the bytes [data] of source [ks] onto entry [k], which is free
    or holds a regular file: refused when both are the same file. *)
Definition cp_onto (w : world) (ks : path) (data : string) (k : path)
  : world * Z :=
  if path_eq_dec ks k then (w, 1%Z) else write_file w k data.

(** [cp src dst]: the world it leaves and its exit status.  A directory is
    not copied; an existing directory [dst] receives the copy under the
    source's name; otherwise [dst] is overwritten or created. *)
Definition cp (w : world) (src dst : string) : world * Z :=
  match namei w src with
  | Some (ks, Reg data _) =>
      match namei w dst with
      | Some (kd, Reg _ _) => cp_onto w ks data kd
      | Some (kd, Dir _) =>
          let t := kd ++ [basename src] in
          match lookup (w_fs w) t with
          | Some (Dir _) => (w, 1%Z)
          | _ => if valid_name (basename src) then cp_onto w ks data t
                 else (w, 1%Z)
          end
      | None =>
          match dst with
          | EmptyString => (w, 1%Z)
          | String _ _ =>
              match creat_at w (start_dir w dst) (split_slash dst) with
              | Some k => write_file w k data
              | None => (w, 1%Z)
              end
          end
      end
  | _ => (w, 1%Z)
  end.

(** [fork], [execl prog] in the child, [wait] in the parent: the child runs
    [body] when the program is found and exits with status 1 otherwise. *)
Definition spawn (w : world) (prog : string) (args : list string)
    (body : world -> world * Z) : world * Z :=
  if existsb (String.eqb prog) (w_execs w) then
    let (w', st) := body w in
    (add_child w' (mkChild prog args true st), st)
  else (add_child w (mkChild prog args false 1%Z), 1%Z).

End Os.

(* ================================================================== *)
(** ** file_sync.c *)

Module FileSync.
Import CStr Fs Os.

(** The lines the program prints on standard output. *)
Inductive line :=
| Usage
| SourceMissing (arg : string)
| CreatedDestination (dir : string)
| WorkingDirectory (cwd : string)
| Synchronizing (src dst : string)
| NewFileFound (name : string)
| Copied (src dst : string)
| Identical (name : string)
| NewerInSource (name : string)
| NewerInDestination (name : string)
| Complete.

(** The text of each line, as the [printf] calls format it. *)
Definition render (l : line) : string :=
  match l with
  | Usage => "Usage: file_sync <source_directory> <destination_directory>"
  | SourceMissing a =>
      "Error: Source directory '" ++ a ++ "' does not exist."
  | CreatedDestination d => "Created destination directory '" ++ d ++ "'."
  | WorkingDirectory c => "Current working directory: " ++ c
  | Synchronizing s d => "Synchronizing from " ++ s ++ " to " ++ d
  | NewFileFound n => "New file found: " ++ n
  | Copied s d => "Copied: " ++ s ++ " -> " ++ d
  | Identical n => "File " ++ n ++ " is identical. Skipping..."
  | NewerInSource n => "File " ++ n ++ " is newer in source. Updating..."
  | NewerInDestination n =>
      "File " ++ n ++ " is newer in destination. Skipping..."
  | Complete => "Synchronization complete."
  end%string.

(** [int compare(const void *a, const void *b)] *)
Definition compare (a b : string) : Z := strcmp a b.

(** [int file_exists(const char *path)] *)
Definition file_exists (w : world) (path : string) : bool :=
  match stat w path with Some _ => true | None => false end.

(** [int is_regular_file(const char *path)] *)
Definition is_regular_file (w : world) (path : string) : bool :=
  match stat w path with
  | Some st => S_ISREG (st_mode st)
  | None => false
  end.

(** [difftime] on whole seconds. *)
Definition difftime (t1 t0 : Z) : Z := (t1 - t0)%Z.

(** The [st_mtime] found in a [struct stat] after a call of [stat] whose
    result is not checked: undetermined when the call failed. *)
Definition mtime_after_stat (w : world) (path : string) : Z :=
  match stat w path with
  | Some st => st_mtime st
  | None => w_indet w
  end.

(** [int source_is_newer(const char *src, const char *dst)] *)
Definition source_is_newer (w : world) (src dst : string) : bool :=
  (difftime (mtime_after_stat w src) (mtime_after_stat w dst) >? 0)%Z.

(** [int files_are_different(const char *src, const char *dst)]: the exit
    status of the child that runs [diff -q src dst]. *)
Definition files_are_different (w : world) (src dst : string) : world * Z :=
  spawn w "/usr/bin/diff" ["diff"; "-q"; src; dst]
        (fun w0 => (w0, diff_status w0 src dst)).

(** [void copy_file(const char *src, const char *dst)]: the status of the
    child that runs [cp src dst] is dropped by [wait(NULL)]. *)
Definition copy_file (w : world) (src dst : string) : world * list line :=
  let (w', _) := spawn w "/bin/cp" ["cp"; src; dst]
                       (fun w0 => cp w0 src dst) in
  (w', [Copied src dst]).

(** The [for] loop of [mkdir_p]: [done] is the text before the cursor [p],
    [rest] the text from [p] on. *)
Fixpoint mkdir_p_loop (w : world) (done rest : string) : world :=
  match rest with
  | EmptyString => w
  | String c rest' =>
      let w' := if is_slash c then fst (mkdir w done) else w in
      mkdir_p_loop w' (done ++ String c EmptyString)%string rest'
  end.

(** [void mkdir_p(const char *path)] *)
Definition mkdir_p (w : world) (path : string) : world :=
  let tmp := match last_char path with
             | Some c => if is_slash c then drop_last path else path
             | None => path
             end in
  match tmp with
  | EmptyString => fst (mkdir w tmp)
  | String c0 rest =>
      fst (mkdir (mkdir_p_loop w (String c0 EmptyString) rest) tmp)
  end.

(** The [while] loop of [main] that collects the regular files; [count]
    is the number collected before [entries]. *)
Fixpoint collect (w : world) (abs_src : string) (entries : list string)
    (count : nat) : list string :=
  match entries with
  | [] => []
  | d_name :: rest =>
      if (compare d_name "." =? 0)%Z || (compare d_name ".." =? 0)%Z
      then collect w abs_src rest count
      else
        let full := snprintf_path MAX_PATH abs_src d_name in
        if is_regular_file w full then
          d_name :: (if (MAX_FILES <=? S count)%nat then []
                     else collect w abs_src rest (S count))
        else collect w abs_src rest count
  end.

(** The call of [qsort] on [files] with [compare].  The C library leaves
    the algorithm open; [compare] is a total order on names, so every
    sorting algorithm yields the same array.  Insertion sort stands for it. *)
Fixpoint insert (x : string) (l : list string) : list string :=
  match l with
  | [] => [x]
  | y :: l' => if (compare x y <=? 0)%Z then x :: l else y :: insert x l'
  end.

Definition qsort (l : list string) : list string := fold_right insert [] l.

(** The body of the [for] loop of [main], for [files[i] = name]. *)
Definition sync_file (w : world) (abs_src abs_dst name : string)
  : world * list line :=
  let src_file := snprintf_path MAX_PATH abs_src name in
  let dst_file := snprintf_path MAX_PATH abs_dst name in
  if negb (file_exists w dst_file) then
    let (w', out) := copy_file w src_file dst_file in
    (w', NewFileFound name :: out)
  else
    let (w1, different) := files_are_different w src_file dst_file in
    if (different =? 0)%Z then (w1, [Identical name])
    else if source_is_newer w1 src_file dst_file then
      let (w2, out) := copy_file w1 src_file dst_file in
      (w2, NewerInSource name :: out)
    else (w1, [NewerInDestination name]).

(** The [for] loop of [main]. *)
Fixpoint sync_loop (w : world) (abs_src abs_dst : string)
    (files : list string) : world * list line :=
  match files with
  | [] => (w, [])
  | name :: rest =>
      let (w1, out1) := sync_file w abs_src abs_dst name in
      let (w2, out2) := sync_loop w1 abs_src abs_dst rest in
      (w2, out1 ++ out2)
  end.

(** Lines 102-107 of [main]: the destination root, the world after it was
    looked up or created, and what was printed. *)
Definition resolve_destination (w : world) (arg : string)
  : world * string * list line :=
  match realpath w arg with
  | Some abs_dst => (w, abs_dst, [])
  | None => (mkdir_p w arg, arg, [CreatedDestination arg])
  end.

(** The regular files of the source root, as [main] collects them. *)
Definition list_regular_files (w : world) (abs_src : string)
  : option (list string) :=
  match opendir w abs_src with
  | Some entries => Some (collect w abs_src entries 0)
  | None => None
  end.

(** Lines 118-165 of [main], the engine proper: list the regular files of
    the source root, sort them, run the loop.  [None] when the source root
    cannot be opened. *)
Definition engine (w : world) (abs_src abs_dst : string)
  : option (world * list line) :=
  match list_regular_files w abs_src with
  | Some files => Some (sync_loop w abs_src abs_dst (qsort files))
  | None => None
  end.

(** A finished run: the world it leaves, its standard output, its exit
    code. *)
Record run := mkRun {
  r_world : world;
  r_out : list line;
  r_exit : Z
}.

(** [int main(int argc, char *argv[])], with [argc = length argv]. *)
Definition main (w : world) (argv : list string) : run :=
  match argv with
  | [_; arg1; arg2] =>
      match realpath w arg1 with
      | None => mkRun w [SourceMissing arg1] 1
      | Some abs_src =>
          let '(w1, abs_dst, out1) := resolve_destination w arg2 in
          match getcwd w1 MAX_PATH with
          | None => mkRun w1 out1 1
          | Some cwd =>
              let out2 := out1 ++ [WorkingDirectory cwd;
                                   Synchronizing abs_src abs_dst] in
              match engine w1 abs_src abs_dst with
              | None => mkRun w1 out2 1
              | Some (w2, out3) => mkRun w2 (out2 ++ out3 ++ [Complete]) 0
              end
          end
      end
  | _ => mkRun w [Usage] 1
  end.

(** The inputs on which no buffer of [main] is overrun: both [realpath]
    results fit in [MAX_PATH] bytes, and an unresolved destination argument
    is not empty and fits as well. *)
Definition within_buffers (w : world) (argv : list string) : bool :=
  match argv with
  | [_; arg1; arg2] =>
      match realpath w arg1 with
      | None => true
      | Some abs_src =>
          (String.length abs_src <? MAX_PATH)%nat &&
          match realpath w arg2 with
          | Some abs_dst => (String.length abs_dst <? MAX_PATH)%nat
          | None => negb (String.eqb arg2 "") &&
                    (String.length arg2 <? MAX_PATH)%nat
          end
      end
  | _ => true
  end.

End FileSync.

(* ================================================================== *)
(** ** Vocabulary of the specification *)

Module Spec.
Import CStr Fs Os FileSync.

(** The four outcomes for a pair of source and destination path. *)
Inductive SyncDecision :=
| CopyNew
| CopyUpdate
| SkipIdentical
| SkipDestinationNewer.

(** The regular file a path names: its bytes and modification time. *)
Definition file_at (w : world) (p : string) : option (string * Z) :=
  match namei w p with
  | Some (_, Reg data t) => Some (data, t)
  | _ => None
  end.

(** The modification time of whatever a path names. *)
Definition mtime_at (w : world) (p : string) : option Z :=
  match namei w p with
  | Some (_, n) => Some (node_mtime n)
  | None => None
  end.

(** The decision algorithm in the words of the specification: no
    destination, equal bytes, strictly newer source, otherwise. *)
Definition decide (src : string * Z) (dst : option (string * Z))
  : SyncDecision :=
  match dst with
  | None => CopyNew
  | Some (dst_data, dst_time) =>
      if String.eqb (fst src) dst_data then SkipIdentical
      else if (dst_time <? snd src)%Z then CopyUpdate
      else SkipDestinationNewer
  end.

(** The decision the loop body takes: as [decide], with the two time
    stamps compared in whole seconds, as [st_mtime] gives them. *)
Definition decide_seconds (src : string * Z) (dst : option (string * Z))
  : SyncDecision :=
  match dst with
  | None => CopyNew
  | Some (dst_data, dst_time) =>
      if String.eqb (fst src) dst_data then SkipIdentical
      else if (tv_sec dst_time <? tv_sec (snd src))%Z then CopyUpdate
      else SkipDestinationNewer
  end.

Definition transfers (d : SyncDecision) : bool :=
  match d with
  | CopyNew | CopyUpdate => true
  | SkipIdentical | SkipDestinationNewer => false
  end.

(** The line that announces a decision. *)
Definition decision_line (name : string) (d : SyncDecision) : line :=
  match d with
  | CopyNew => NewFileFound name
  | CopyUpdate => NewerInSource name
  | SkipIdentical => Identical name
  | SkipDestinationNewer => NewerInDestination name
  end.

Definition decision_of_line (l : line) : option (string * SyncDecision) :=
  match l with
  | NewFileFound n => Some (n, CopyNew)
  | NewerInSource n => Some (n, CopyUpdate)
  | Identical n => Some (n, SkipIdentical)
  | NewerInDestination n => Some (n, SkipDestinationNewer)
  | _ => None
  end.

(** The decisions a run announced, in the order of its output. *)
Fixpoint decisions (out : list line) : list (string * SyncDecision) :=
  match out with
  | [] => []
  | l :: out' =>
      match decision_of_line l with
      | Some d => d :: decisions out'
      | None => decisions out'
      end
  end.

(** The names a run processed, in order. *)
Definition processed (out : list line) : list string :=
  map fst (decisions out).

(** Byte-wise lexicographic order on names. *)
Inductive lex_le : string -> string -> Prop :=
| lex_nil b : lex_le EmptyString b
| lex_lt c a d b : (byte_val c < byte_val d)%Z ->
                   lex_le (String c a) (String d b)
| lex_eq c a b : lex_le a b -> lex_le (String c a) (String c b).

(** The entries the directory lister keeps: neither pseudo-entry, and a
    regular file according to [stat]. *)
Definition keeps (w : world) (abs_src d_name : string) : bool :=
  negb (compare d_name "." =? 0)%Z && negb (compare d_name ".." =? 0)%Z &&
  is_regular_file w (snprintf_path MAX_PATH abs_src d_name).

(** The candidate files of a run: the names [main] collects, before it
    sorts them; none when the run stops earlier. *)
Definition candidates (w : world) (argv : list string) : list string :=
  match argv with
  | [_; arg1; arg2] =>
      match realpath w arg1 with
      | Some abs_src =>
          let w1 := fst (fst (resolve_destination w arg2)) in
          match getcwd w1 MAX_PATH, list_regular_files w1 abs_src with
          | Some _, Some files => files
          | _, _ => []
          end
      | None => []
      end
  | _ => []
  end.

(** A child that ran [cp src dst]. *)
Definition is_cp (c : child) : bool := String.eqb (c_prog c) "/bin/cp".

Definition is_diff (c : child) : bool := String.eqb (c_prog c) "/usr/bin/diff".

(** A child failed: its program was not found, [cp] did not exit with 0,
    or [diff] reported trouble. *)
Definition child_failed (c : child) : bool :=
  negb (c_exec_ok c) ||
  (if is_cp c then negb (c_status c =? 0)%Z
   else negb ((c_status c =? 0)%Z || (c_status c =? 1)%Z)).

(** *** Exit code *)

(** The causes for exit code 1 that the specification lists: a wrong
    argument count, an unresolvable source, a destination that neither
    resolves nor can be created, a source that cannot be opened. *)
Definition listed_exit_cause (w : world) (argv : list string) : bool :=
  match argv with
  | [_; arg1; arg2] =>
      match realpath w arg1 with
      | None => true
      | Some abs_src =>
          let w1 := fst (fst (resolve_destination w arg2)) in
          match realpath w arg2, realpath w1 arg2 with
          | None, None => true
          | _, _ =>
              match opendir w1 abs_src with
              | None => true
              | Some _ => false
              end
          end
      end
  | _ => true
  end.

(** The causes for exit code 1 in [main]: a wrong argument count, or a
    failure of [realpath] on the source, of [getcwd], or of [opendir]. *)
Definition exit_cause (w : world) (argv : list string) : bool :=
  match argv with
  | [_; arg1; arg2] =>
      match realpath w arg1 with
      | None => true
      | Some abs_src =>
          let w1 := fst (fst (resolve_destination w arg2)) in
          match getcwd w1 MAX_PATH, opendir w1 abs_src with
          | Some _, Some _ => false
          | _, _ => true
          end
      end
  | _ => true
  end.

(** *** File transfer *)

Definition content_at (w : world) (p : string) : option string :=
  match file_at w p with
  | Some (data, _) => Some data
  | None => None
  end.

(** The exit status of the [cp] child of [copy_file], as [wait] gets it. *)
Definition transfer_status (w : world) (src dst : string) : Z :=
  snd (spawn w "/bin/cp" ["cp"; src; dst] (fun w0 => cp w0 src dst)).

(** The contract of the transfer in the specification's words: on success
    the destination holds the source's bytes; on failure it is fully updated
    or as it was. *)
Definition transfer_contract (w : world) (src dst : string) : Prop :=
  let w' := fst (copy_file w src dst) in
  (transfer_status w src dst = 0%Z -> content_at w' dst = content_at w src) /\
  (transfer_status w src dst <> 0%Z ->
   content_at w' dst = content_at w dst \/
   content_at w' dst = content_at w src).

(** *** Failures in the loop *)

Definition args_eqb (a b : list string) : bool :=
  if list_eq_dec string_dec a b then true else false.

(** The output holds the [Copied] line of child [c]. *)
Definition copy_reported (out : list line) (c : child) : bool :=
  existsb (fun l => match l with
                    | Copied s d => args_eqb (c_args c) ["cp"; s; d]
                    | _ => false
                    end) out.

(** No failed copy is reported like a successful one. *)
Definition failures_surfaced (r : run) : bool :=
  forallb (fun c => negb (is_cp c && child_failed c && copy_reported (r_out r) c))
          (w_children (r_world r)).

(** *** Roots and frame *)

(** The directory a root names, if it names one. *)
Definition dir_of (w : world) (root : string) : option path :=
  match resolve w root with
  | Some k => if dir_at (w_fs w) k then Some k else None
  | None => None
  end.

(** The world and the two roots with which [main] enters its loop. *)
Definition loop_entry (w : world) (argv : list string)
  : option (world * string * string) :=
  match argv with
  | [_; arg1; arg2] =>
      match realpath w arg1 with
      | Some abs_src =>
          let '(w1, abs_dst, _) := resolve_destination w arg2 in
          match getcwd w1 MAX_PATH, list_regular_files w1 abs_src with
          | Some _, Some _ => Some (w1, abs_src, abs_dst)
          | _, _ => None
          end
      | None => None
      end
  | _ => None
  end.

(** Both joined paths of candidate [n] fit their buffers. *)
Definition fits (abs_src abs_dst n : string) : bool :=
  (String.length abs_src + 1 + String.length n <? MAX_PATH)%nat &&
  (String.length abs_dst + 1 + String.length n <? MAX_PATH)%nat.

Definition paths_fit (w : world) (argv : list string) : bool :=
  match loop_entry w argv with
  | Some (_, abs_src, abs_dst) =>
      forallb (fits abs_src abs_dst) (candidates w argv)
  | None => true
  end.

(** [k] lies below [root]. *)
Definition below (root k : path) : bool :=
  (length root <? length k)%nat &&
  (if path_eq_dec (firstn (length root) k) root then true else false).

(** The frame as the specification words it, for the entries that differ
    between the world at loop entry and the world the run leaves: each is
    the destination root joined with a candidate name, and none lies below
    the source root. *)
Definition frame_contract (w : world) (argv : list string) : Prop :=
  forall w1 abs_src abs_dst ks kd,
    loop_entry w argv = Some (w1, abs_src, abs_dst) ->
    dir_of w1 abs_src = Some ks ->
    dir_of w1 abs_dst = Some kd ->
    forall k,
      lookup (w_fs (r_world (main w argv))) k <> lookup (w_fs w1) k ->
      (exists n, In n (candidates w argv) /\ k = kd ++ [n]) /\
      below ks k = false.

(** *** Two runs of the engine *)

(** The children a run reaped: those of [w'] that [w] did not have yet. *)
Definition new_children (w w' : world) : list child :=
  skipn (length (w_children w)) (w_children w').

Definition no_failures (w w' : world) : bool :=
  forallb (fun c => negb (child_failed c)) (new_children w w').

(** Both utilities are where [execl] looks for them. *)
Definition installed (w : world) : bool :=
  existsb (String.eqb "/usr/bin/diff") (w_execs w) &&
  existsb (String.eqb "/bin/cp") (w_execs w).

(** The joined paths of every entry of the source root fit the buffers. *)
Definition entries_fit (w : world) (abs_src abs_dst : string) : bool :=
  match dir_of w abs_src with
  | Some ks => forallb (fits abs_src abs_dst) (children (w_fs w) ks)
  | None => true
  end.

(** Idempotence as the specification words it: after a first run without
    failures, a second run on the same roots decides Skip-Identical for
    every candidate. *)
Definition idempotence_contract (w : world) (abs_src abs_dst : string)
  : Prop :=
  forall w1 out1 w2 out2,
    engine w abs_src abs_dst = Some (w1, out1) ->
    no_failures w w1 = true ->
    engine w1 abs_src abs_dst = Some (w2, out2) ->
    Forall (fun nd => snd nd = SkipIdentical) (decisions out2).

(** What the second run decides for a file, given the first run's
    decision: a file found newer in the destination stays so, every other
    file is identical. *)
Definition settle (nd : string * SyncDecision) : string * SyncDecision :=
  (fst nd,
   match snd nd with
   | SkipDestinationNewer => SkipDestinationNewer
   | _ => SkipIdentical
   end).

(** *** The claims of the specification that the code does not meet *)

(** The recency comparator in the specification's words: true exactly when
    the first file's time stamp is strictly later than the second's. *)
Definition recency_contract (w : world) (a b : string) : Prop :=
  forall ta tb,
    mtime_at w a = Some ta -> mtime_at w b = Some tb ->
    (source_is_newer w a b = true <-> (tb < ta)%Z).

(** The four-way algorithm in the specification's words, for one candidate:
    the decision is [decide] on the bytes and the time stamps, and after a
    copy decision the destination holds the source's bytes. *)
Definition four_way_contract (w : world) (abs_src abs_dst name : string)
  : Prop :=
  forall src_data src_time,
    file_at w (snprintf_path MAX_PATH abs_src name)
      = Some (src_data, src_time) ->
    let d := decide (src_data, src_time)
                    (file_at w (snprintf_path MAX_PATH abs_dst name)) in
    let r := sync_file w abs_src abs_dst name in
    decisions (snd r) = [(name, d)] /\
    (transfers d = true ->
     content_at (fst r) (snprintf_path MAX_PATH abs_dst name)
       = Some src_data).

(** The lister in the specification's words: every name it returns is a
    regular file of the source directory. *)
Definition lister_contract (w : world) (abs_src : string) : Prop :=
  forall files k t,
    list_regular_files w abs_src = Some files ->
    namei w abs_src = Some (k, Dir t) ->
    forall n, In n files ->
      exists d tn, lookup (w_fs w) (k ++ [n]) = Some (Reg d tn).

(** The destination resolver in the specification's words: called twice on
    a path that does not exist, it creates the directory with the first
    call, and the second call finds it, creating and reporting nothing. *)
Definition resolver_contract (w : world) (arg : string) : Prop :=
  realpath w arg = None ->
  let r1 := resolve_destination w arg in
  let r2 := resolve_destination (fst (fst r1)) arg in
  dir_of (fst (fst r1)) arg <> None /\
  fst (fst r2) = fst (fst r1) /\ snd r2 = [].

(** Two entries are the same up to the time stamp of a directory. *)
Definition same_entry (a b : option node) : Prop :=
  match a, b with
  | Some (Dir _), Some (Dir _) => True
  | _, _ => a = b
  end.

End Spec.

(* ================================================================== *)
(** ** Vocabulary of the proofs *)

Module Aux.
Import CStr Fs Os FileSync Spec.

(** The order [qsort] sorts by. *)
Definition cmp_le (a b : string) : Prop := (compare a b <= 0)%Z.

(** Two tables with the same directories resolve paths alike. *)
Definition same_dirs (f f' : fs) : Prop := forall k, dir_at f' k = dir_at f k.

(** A name both of whose joined paths fit the buffers. *)
Definition name_ok (abs_src abs_dst n : string) : Prop :=
  valid_name n = true /\
  String.length abs_src + 1 + String.length n < MAX_PATH /\
  String.length abs_dst + 1 + String.length n < MAX_PATH.

(** What [diff -q] answers for the bytes [ds] against the destination
    entry [dn], given the entry [inner] of the source's name inside it. *)
Definition diff_verdict (ds : string) (dn : node) (inner : option node) : Z :=
  match dn with
  | Reg dd _ => if String.eqb ds dd then 0%Z else 1%Z
  | Dir _ =>
      match inner with
      | Some (Reg d2 _) => if String.eqb ds d2 then 0%Z else 1%Z
      | Some (Dir _) => 1%Z
      | None => 2%Z
      end
  end.

(** The entry [cp] writes, given source entry [S], destination entry [D]
    holding [dn] and the entry [D2] of the source's name inside it holding
    [inner]; [None] when [cp] refuses. *)
Definition cp_target (S D D2 : path) (dn inner : option node) : option path :=
  match dn with
  | None => Some D
  | Some (Reg _ _) => if path_eq_dec S D then None else Some D
  | Some (Dir _) =>
      match inner with
      | Some (Dir _) => None
      | _ => if path_eq_dec S D2 then None else Some D2
      end
  end.

(** Everything of the world but its files and its reaped children. *)
Definition env_eq (w w' : world) : Prop :=
  w_cwd w' = w_cwd w /\ w_now w' = w_now w /\
  w_maxbytes w' = w_maxbytes w /\ w_execs w' = w_execs w /\
  w_indet w' = w_indet w.

(** One write: a regular file stored at [k], where no directory was. *)
Definition wrote (w w' : world) (k : path) : Prop :=
  dir_at (w_fs w) k = false /\ k <> [] /\
  exists data, w_fs w' = put (w_fs w) k (Reg data (w_now w)).

(** The entries a pass for [n] may write: the destination entry of that
    name, or the entry of that name inside it. *)
Definition target_of (abs_dst : string) (w : world) (n : string) (k : path)
  : Prop :=
  exists kd, dir_of w abs_dst = Some kd /\
             (k = kd ++ [n] \/ k = kd ++ [n; n]).

(** [w'] is [w] with more directories, created at the time of [w]. *)
Definition grows (w w' : world) : Prop :=
  env_eq w w' /\
  forall k, lookup (w_fs w') k = lookup (w_fs w) k \/
            (lookup (w_fs w) k = None /\
             lookup (w_fs w') k = Some (Dir (w_now w))).

(** What the two comparators answer for name [n], when its source is a
    regular file and its destination entry exists. *)
Definition verdict_in (abs_src abs_dst : string) (u : world) (n : string)
  : option (Z * bool) :=
  match dir_of u abs_src, dir_of u abs_dst with
  | Some ks, Some kd =>
      match lookup (w_fs u) (ks ++ [n]), lookup (w_fs u) (kd ++ [n]) with
      | Some (Reg ds ts), Some dn =>
          Some (diff_verdict ds dn (lookup (w_fs u) (kd ++ [n; n])),
                (tv_sec (node_mtime dn) <? tv_sec ts)%Z)
      | _, _ => None
      end
  | _, _ => None
  end.

(** The state a decision leaves for its file: after Skip-DestinationNewer
    the files differ and the source is not newer; after any other decision
    the comparison reports them equal. *)
Definition settled (abs_src abs_dst : string) (u : world)
    (nd : string * SyncDecision) : Prop :=
  match snd nd with
  | SkipDestinationNewer =>
      exists v, verdict_in abs_src abs_dst u (fst nd) = Some (v, false) /\
                v <> 0%Z
  | _ => exists b, verdict_in abs_src abs_dst u (fst nd) = Some (0%Z, b)
  end.

(** The children the loop body reaps for name [n]. *)
Definition diff_child (abs_src abs_dst n : string) (st : Z) : child :=
  mkChild "/usr/bin/diff"
          ["diff"; "-q"; snprintf_path MAX_PATH abs_src n;
           snprintf_path MAX_PATH abs_dst n] true st.

Definition cp_child (abs_src abs_dst n : string) (st : Z) : child :=
  mkChild "/bin/cp"
          ["cp"; snprintf_path MAX_PATH abs_src n;
           snprintf_path MAX_PATH abs_dst n] true st.

(** The invariants of the loop, kept by every pass. *)
Definition loop_inv (abs_src : string) (ks : path) (names : list string)
    (u : world) : Prop :=
  installed u = true /\
  dir_of u abs_src = Some ks /\
  forall n, In n names ->
    exists ds ts, lookup (w_fs u) (ks ++ [n]) = Some (Reg ds ts).

(** [mkdir] for a path that starts at [start] and has the components [cs]
    once its trailing slashes are dropped. *)
Definition mk (start : path) (w : world) (cs : list string) : world :=
  match creat_at w start cs with
  | Some k => set_fs w (put (w_fs w) k (Dir (w_now w)))
  | None => w
  end.

(** The path with components [cs] cannot be created, now or after more
    directories were added: its parent is a directory and its name is
    improper or taken. *)
Definition present (start : path) (w : world) (cs : list string) : Prop :=
  exists front name d,
    cs = front ++ [name] /\
    walk (w_fs w) start front = Some d /\ dir_at (w_fs w) d = true /\
    (valid_name name = false \/ lookup (w_fs w) (d ++ [name]) <> None).

Definition prefix_of (a b : list string) : Prop := exists ext, b = a ++ ext.

(** A run of [mkdir] calls, on components. *)
Definition mks (start : path) (w : world) (l : list (list string)) : world :=
  fold_left (mk start) l w.

(** Every path is a prefix of the ones after it. *)
Fixpoint chain (l : list (list string)) : Prop :=
  match l with
  | [] => True
  | cs :: l' => (forall cs', In cs' l' -> prefix_of cs cs') /\ chain l'
  end.

(** The arguments of the [mkdir] calls in the loop of [mkdir_p]. *)
Fixpoint prefixes (done rest : string) : list string :=
  match rest with
  | EmptyString => []
  | String c rest' =>
      (if is_slash c then [done] else []) ++
      prefixes (done ++ String c EmptyString)%string rest'
  end.

Definition mkdir_all (w : world) (l : list string) : world :=
  fold_left (fun w0 p => fst (mkdir w0 p)) l w.

(** The components of a path once its trailing slashes are dropped. *)
Definition comps (p : string) : list string :=
  strip_trailing_empty (split_slash p).

End Aux.

(* ================================================================== *)
(** ** Vocabulary of the further properties *)

Module More.
Import CStr Fs Os FileSync Spec Aux.

(** A C string: no NUL byte inside. *)
Definition no_nul (s : string) : Prop := has_nul s = false.

(** The text of the names that follow the first one in a path, each
    after a slash. *)
Fixpoint tail_text (names : list string) : string :=
  match names with
  | [] => EmptyString
  | n :: rest => ("/" ++ n ++ tail_text rest)%string
  end.

(** The text of the path with the names [n1 :: rest], from the root when
    [absolute], from the working directory otherwise. *)
Definition path_text (absolute : bool) (n1 : string) (rest : list string)
  : string :=
  ((if absolute then "/" else "") ++ n1 ++ tail_text rest)%string.

(** Where such a path starts. *)
Definition start_of (w : world) (absolute : bool) : path :=
  if absolute then [] else w_cwd w.

(** During [mkdir_p], the text [done] before the cursor names the entry
    [k]: a proper name in a directory that exists. *)
Definition names_entry (start : path) (w : world) (done : string) (k : path)
  : Prop :=
  done <> "" /\ start_dir w done = start /\
  exists front name d,
    split_slash done = front ++ [name] /\ valid_name name = true /\
    walk (w_fs w) start front = Some d /\ dir_at (w_fs w) d = true /\
    k = d ++ [name].

(** No regular file lies on the way from [k] down the names [rest]. *)
Definition way_free (w : world) (k : path) (rest : list string) : Prop :=
  forall l d t, Aux.prefix_of l rest -> lookup (w_fs w) (k ++ l) <> Some (Reg d t).

(** The last byte of the text is not a slash. *)
Definition ends_ok (p : string) : Prop :=
  exists c, last_char p = Some c /\ is_slash c = false.

(** The command line a child was started with: the program and its
    argument vector. *)
Definition command_of (c : child) : string * list string :=
  (c_prog c, c_args c).

(** The command lines that belong to a decision for a name: [diff -q] when
    the destination existed, [cp] when the file is transferred. *)
Definition commands (abs_src abs_dst : string) (nd : string * SyncDecision)
  : list (string * list string) :=
  let src := snprintf_path MAX_PATH abs_src (fst nd) in
  let dst := snprintf_path MAX_PATH abs_dst (fst nd) in
  let diff := ("/usr/bin/diff", ["diff"; "-q"; src; dst]) in
  let cp := ("/bin/cp", ["cp"; src; dst]) in
  match snd nd with
  | CopyNew => [cp]
  | CopyUpdate => [diff; cp]
  | SkipIdentical => [diff]
  | SkipDestinationNewer => [diff]
  end.

(** The two lines of a pass that finds no destination entry. *)
Definition new_file_lines (abs_src abs_dst n : string) : list line :=
  [NewFileFound n;
   Copied (snprintf_path MAX_PATH abs_src n) (snprintf_path MAX_PATH abs_dst n)].

End More.

(* ================================================================== *)
(** ** Concrete worlds *)

Module Examples.
Import CStr Fs Os FileSync Spec.

Definition utilities : list string := ["/usr/bin/diff"; "/bin/cp"].

(** The stamp of the [s]-th second. *)
Definition sec (s : Z) : Z := (s * NSEC_PER_SEC)%Z.

(** A source directory that lists b.txt, a.txt, c.txt in this order, and an
    empty destination. *)
Definition w_bac : world :=
  mkWorld [ (["src"], Dir (sec 10));
            (["src"; "b.txt"], Reg "bravo" (sec 20));
            (["src"; "a.txt"], Reg "alpha" (sec 20));
            (["src"; "c.txt"], Reg "charlie" (sec 20));
            (["dst"], Dir (sec 10)) ]
          [] (sec 100) 4096 utilities 0 [].

Definition argv_bac : list string := ["file_sync"; "/src"; "/dst"].

(** The destination argument lies below a regular file: it neither
    resolves nor can be created. *)
Definition w_nodst : world :=
  mkWorld [ (["src"], Dir (sec 10));
            (["src"; "a.txt"], Reg "alpha" (sec 20));
            (["f"], Reg "plain" (sec 10)) ]
          [] (sec 100) 4096 utilities 0 [].

Definition argv_nodst : list string := ["file_sync"; "/src"; "/f/x"].

(** A file system that stores at most two bytes per file. *)
Definition w_small : world :=
  mkWorld [ (["src"], Dir (sec 10));
            (["src"; "a.txt"], Reg "alpha" (sec 20));
            (["src"; "b.txt"], Reg "bravo" (sec 20));
            (["dst"], Dir (sec 10));
            (["dst"; "a.txt"], Reg "old" (sec 5)) ]
          [] (sec 100) 2 utilities 0 [].

(** The destination root lies inside the source root. *)
Definition w_nested : world :=
  mkWorld [ (["src"], Dir (sec 10));
            (["src"; "a.txt"], Reg "alpha" (sec 20));
            (["src"; "backup"], Dir (sec 10)) ]
          [] (sec 100) 4096 utilities 0 [].

Definition argv_nested : list string := ["file_sync"; "/src"; "/src/backup"].

(** The destination copy was edited after the source. *)
Definition w_edited : world :=
  mkWorld [ (["src"], Dir (sec 10));
            (["src"; "a.txt"], Reg "alpha" (sec 20));
            (["src"; "b.txt"], Reg "bravo" (sec 20));
            (["dst"], Dir (sec 10));
            (["dst"; "a.txt"], Reg "edited" (sec 30)) ]
          [] (sec 100) 4096 utilities 0 [].

(** The source was modified eight tenths of a second after the
    destination copy, within the same second. *)
Definition w_subsecond : world :=
  mkWorld [ (["src"], Dir (sec 10));
            (["src"; "a.txt"], Reg "alpha" (sec 20 + 900000000));
            (["dst"], Dir (sec 10));
            (["dst"; "a.txt"], Reg "old" (sec 20 + 100000000)) ]
          [] (sec 100) 4096 utilities 0 [].

(** The destination copy is fifteen seconds older than the source. *)
Definition w_stale : world :=
  mkWorld [ (["src"], Dir (sec 10));
            (["src"; "a.txt"], Reg "alpha" (sec 20));
            (["dst"], Dir (sec 10));
            (["dst"; "a.txt"], Reg "old" (sec 5)) ]
          [] (sec 100) 4096 utilities 0 [].

(** What the engine leaves after one run, and after a second run, on
    [w_edited]. *)
Definition edited_first : world * list line :=
  Eval vm_compute in
    match engine w_edited "/src" "/dst" with
    | Some r => r
    | None => (w_edited, [])
    end.

Definition edited_second : world * list line :=
  Eval vm_compute in
    match engine (fst edited_first) "/src" "/dst" with
    | Some r => r
    | None => (w_edited, [])
    end.

(** A source directory with 101 regular files, named f, fx, fxx, ... *)
Fixpoint xs (n : nat) : string :=
  match n with
  | O => EmptyString
  | S n' => String "x" (xs n')
  end.

Definition many_names : list string :=
  map (fun i => String "f" (xs i)) (seq 0 101).

(** A source directory four levels down whose path is 1020 bytes long:
    the joined path of its entry abc is cut to the one of its entry ab. *)
Definition long_root : path := [xs 254; xs 254; xs 254; xs 254].

Definition long_src : string := Eval vm_compute in path_str long_root.

Definition w_long : world :=
  mkWorld [ ([xs 254], Dir (sec 10));
            ([xs 254; xs 254], Dir (sec 10));
            ([xs 254; xs 254; xs 254], Dir (sec 10));
            (long_root, Dir (sec 10));
            (long_root ++ ["ab"], Reg "data" (sec 20));
            (long_root ++ ["abc"], Dir (sec 20)) ]
          [] (sec 100) 4096 utilities 0 [].

Definition w_many : world :=
  mkWorld ((["big"], Dir (sec 10)) ::
           map (fun n => (["big"; n], Reg "" (sec 20))) many_names)
          [] (sec 100) 4096 utilities 0 [].

End Examples.


(* ================================================================== *)
(** ** More concrete worlds *)

Module MoreExamples.
Import CStr Fs Os FileSync Spec Examples.

(** The files of [w_edited] on a system where neither utility is
    installed. *)
Definition w_bare : world :=
  mkWorld (w_fs w_edited) [] (sec 100) 4096 [] 0 [].

(** A run whose source argument names a regular file and whose destination
    is still to be created. *)
Definition argv_file_source : list string :=
  ["file_sync"; "/src/a.txt"; "/dst/new"].

End MoreExamples.
(* ================================================================== *)
(** * Properties *)

(** ** Facts about C strings *)

Module CStrFacts.
Import CStr.

Lemma byte_val_inj c d : byte_val c = byte_val d -> c = d.
Proof.
  unfold byte_val. intros H. apply Nat2Z.inj in H.
  rewrite <- (ascii_nat_embedding c), <- (ascii_nat_embedding d).
  now rewrite H.
Qed.

Lemma byte_val_nonneg c : (0 <= byte_val c)%Z.
Proof. unfold byte_val. lia. Qed.

Lemma byte_val_zero c : byte_val c = 0%Z -> c = zero.
Proof. intros H. apply byte_val_inj. rewrite H. reflexivity. Qed.

Lemma strcmp_refl a : strcmp a a = 0%Z.
Proof.
  induction a as [|c a IH]; simpl; [reflexivity|].
  now rewrite Ascii.eqb_refl.
Qed.

(** Swapping the operands flips the sign. *)
Lemma strcmp_swap a : forall b, strcmp b a = (- strcmp a b)%Z.
Proof.
  induction a as [|c a IH]; intros [|d b]; simpl; try lia.
  rewrite (Ascii.eqb_sym d c).
  destruct (Ascii.eqb c d); [apply IH | lia].
Qed.

Lemma substring_all n : forall s,
  String.length s <= n -> substring 0 n s = s.
Proof.
  induction n as [|n IH]; intros [|c s] H; simpl in *; try reflexivity.
  - lia.
  - f_equal. apply IH. lia.
Qed.

Lemma length_append (a b : string) :
  String.length (a ++ b) = String.length a + String.length b.
Proof. induction a as [|c a IH]; simpl; [reflexivity | now rewrite IH]. Qed.

(** A join that fits the buffer is not cut. *)
Lemma snprintf_path_fits size a b :
  String.length a + 1 + String.length b < size ->
  snprintf_path size a b = (a ++ "/" ++ b)%string.
Proof.
  intros H. unfold snprintf_path. apply substring_all.
  rewrite length_append. simpl. lia.
Qed.

Lemma split_slash_nonempty s : split_slash s <> [].
Proof.
  destruct s as [|c s]; simpl; [discriminate|].
  destruct (is_slash c); [discriminate|].
  destruct (split_slash s); discriminate.
Qed.

Lemma split_slash_plain n : has_slash n = false -> split_slash n = [n].
Proof.
  induction n as [|c n IH]; simpl; intros H; [reflexivity|].
  apply orb_false_iff in H as [Hc Hn].
  rewrite Hc, (IH Hn). reflexivity.
Qed.

(** Joining a slash-free name adds one piece. *)
Lemma split_slash_join a n :
  has_slash n = false ->
  split_slash (a ++ "/" ++ n) = split_slash a ++ [n].
Proof.
  intros Hn. change ("/" ++ n)%string with (String "/" n).
  induction a as [|c a IH]; simpl.
  - now rewrite (split_slash_plain n Hn).
  - destruct (is_slash c).
    + now rewrite IH.
    + rewrite IH. destruct (split_slash a) eqn:E; [|reflexivity].
      now apply split_slash_nonempty in E.
Qed.

Lemma last_split_slash_join a n :
  has_slash n = false -> last (split_slash (a ++ "/" ++ n)) "" = n.
Proof. intros H. rewrite (split_slash_join a n H). apply last_last. Qed.

(** On C strings [strcmp] answers 0 only for equal strings. *)
Lemma strcmp_zero_eq a :
  forall b, has_nul a = false -> has_nul b = false ->
            strcmp a b = 0%Z -> a = b.
Proof.
  induction a as [|c a IH]; intros [|d b] Ha Hb H; simpl in *.
  - reflexivity.
  - apply orb_false_iff in Hb as [Hd _].
    assert (d = zero) by (apply byte_val_zero; lia).
    subst d. discriminate.
  - apply orb_false_iff in Ha as [Hc _].
    assert (c = zero) by (apply byte_val_zero; lia).
    subst c. discriminate.
  - apply orb_false_iff in Ha as [_ Ha].
    apply orb_false_iff in Hb as [_ Hb].
    destruct (Ascii.eqb c d) eqn:E.
    + apply Ascii.eqb_eq in E. subst d. f_equal. now apply IH.
    + apply Ascii.eqb_neq in E. exfalso. apply E. apply byte_val_inj. lia.
Qed.

End CStrFacts.

(** ** Facts about the file-system table *)

Module FsFacts.
Import CStr Fs Os Aux.

Lemma find_put_same f k n : find (put f k n) k = Some n.
Proof.
  induction f as [|[k' n'] f IH]; simpl.
  - now destruct (path_eq_dec k k).
  - destruct (path_eq_dec k k') as [E|E]; simpl.
    + now destruct (path_eq_dec k k).
    + now destruct (path_eq_dec k k').
Qed.

Lemma find_put_other f k n k' : k' <> k -> find (put f k n) k' = find f k'.
Proof.
  intros Hne. induction f as [|[k0 n0] f IH]; simpl.
  - now destruct (path_eq_dec k' k).
  - destruct (path_eq_dec k k0) as [E|E]; simpl.
    + subst k0. now destruct (path_eq_dec k' k).
    + destruct (path_eq_dec k' k0); [reflexivity | exact IH].
Qed.

Lemma lookup_put_same f k n : k <> [] -> lookup (put f k n) k = Some n.
Proof. destruct k; [congruence|]. intros _. apply find_put_same. Qed.

Lemma lookup_put_other f k n k' :
  k' <> k -> lookup (put f k n) k' = lookup f k'.
Proof. intros H. destruct k'; [reflexivity|]. now apply find_put_other. Qed.

Lemma find_in f k n : find f k = Some n -> In (k, n) f.
Proof.
  induction f as [|[k' n'] f IH]; simpl; [discriminate|].
  destruct (path_eq_dec k k') as [->|E].
  - intros [= ->]. now left.
  - intros H. right. now apply IH.
Qed.

Lemma wf_lookup f k n :
  wf_fs f = true -> lookup f k = Some n -> forallb valid_name k = true.
Proof.
  intros Hwf H. destruct k as [|c k]; [reflexivity|].
  apply find_in in H. unfold wf_fs in Hwf.
  rewrite forallb_forall in Hwf. exact (Hwf _ H).
Qed.

Lemma wf_dir_at f k :
  wf_fs f = true -> dir_at f k = true -> forallb valid_name k = true.
Proof.
  unfold dir_at. intros Hwf H.
  destruct (lookup f k) as [n|] eqn:E; [|discriminate].
  exact (wf_lookup f k n Hwf E).
Qed.

Lemma wf_put f k n :
  wf_fs f = true -> forallb valid_name k = true -> wf_fs (put f k n) = true.
Proof.
  intros Hwf Hk. induction f as [|[k' n'] f IH]; simpl in *.
  - now rewrite Hk.
  - apply andb_true_iff in Hwf as [H1 H2].
    destruct (path_eq_dec k k'); simpl.
    + now rewrite Hk, H2.
    + now rewrite H1, IH.
Qed.

Lemma split_last_app {A} (l : list A) x : split_last (l ++ [x]) = Some (l, x).
Proof.
  induction l as [|y l IH]; simpl; [reflexivity|].
  rewrite IH. destruct (l ++ [x]) eqn:E; [|reflexivity].
  now destruct l.
Qed.

Lemma split_last_some {A} (l front : list A) x :
  split_last l = Some (front, x) -> l = front ++ [x].
Proof.
  revert front. induction l as [|y l IH]; intros front; simpl; [discriminate|].
  destruct l as [|z l].
  - now intros [= <- <-].
  - destruct (split_last (z :: l)) as [[fr y']|] eqn:E; [|discriminate].
    intros [= <- <-]. simpl. f_equal. now apply IH.
Qed.

(** The entries of a directory carry proper names. *)
Lemma children_valid f d n :
  wf_fs f = true -> In n (children f d) -> valid_name n = true.
Proof.
  intros Hwf. induction f as [|[k nd] f IH]; simpl; [contradiction|].
  simpl in Hwf. apply andb_true_iff in Hwf as [Hk Hf].
  destruct (split_last k) as [[front name]|] eqn:E; [|now apply IH].
  destruct (path_eq_dec front d); [|now apply IH].
  intros [<-|H]; [|now apply IH].
  apply split_last_some in E. subst k.
  rewrite forallb_app in Hk. apply andb_true_iff in Hk as [_ Hk].
  simpl in Hk. now rewrite andb_true_r in Hk.
Qed.

Lemma creat_at_valid w start cs k :
  wf_fs (w_fs w) = true -> creat_at w start cs = Some k ->
  forallb valid_name k = true.
Proof.
  unfold creat_at. intros Hwf.
  destruct (split_last cs) as [[front name]|]; [|discriminate].
  destruct (walk (w_fs w) start front) as [d|]; [|discriminate].
  destruct (dir_at (w_fs w) d) eqn:Ed; [|discriminate].
  destruct (valid_name name) eqn:En; [|discriminate]. simpl.
  destruct (lookup (w_fs w) (d ++ [name])); [discriminate|].
  intros [= <-]. rewrite forallb_app, (wf_dir_at _ _ Hwf Ed). simpl.
  now rewrite En.
Qed.

Lemma mkdir_wf w p :
  wf_fs (w_fs w) = true -> wf_fs (w_fs (fst (mkdir w p))) = true.
Proof.
  intros Hwf. unfold mkdir. destruct p as [|c p]; [exact Hwf|].
  destruct (creat_at w _ _) as [k|] eqn:E; [|exact Hwf].
  simpl. apply wf_put; [exact Hwf|]. exact (creat_at_valid _ _ _ _ Hwf E).
Qed.

(** *** Path resolution *)

Lemma lookup_reg_nonroot f k d t : lookup f k = Some (Reg d t) -> k <> [].
Proof. destruct k; [discriminate | discriminate]. Qed.

Lemma walk_same_dirs f f' cs :
  same_dirs f f' -> forall cur, walk f' cur cs = walk f cur cs.
Proof.
  intros H. induction cs as [|c cs IH]; intros cur; simpl; [reflexivity|].
  rewrite H. destruct (dir_at f cur); [|reflexivity].
  now rewrite !IH.
Qed.

(** Storing a regular file where no directory is keeps the directories. *)
Lemma same_dirs_put_reg f k d t :
  dir_at f k = false -> same_dirs f (put f k (Reg d t)).
Proof.
  intros Hk k'. unfold dir_at in *.
  destruct (path_eq_dec k' k) as [->|Hne].
  - destruct k as [|c k]; [discriminate|].
    rewrite lookup_put_same by discriminate.
    destruct (lookup f (c :: k)) as [[|]|]; congruence.
  - now rewrite lookup_put_other.
Qed.

Lemma walk_app f cs1 cs2 :
  forall cur,
    walk f cur (cs1 ++ cs2) =
    match walk f cur cs1 with
    | Some k => walk f k cs2
    | None => None
    end.
Proof.
  induction cs1 as [|c cs1 IH]; intros cur; simpl; [reflexivity|].
  destruct (dir_at f cur); [|reflexivity].
  destruct (_ || _); [apply IH|].
  destruct (String.eqb c ".."); apply IH.
Qed.

Lemma valid_name_step n :
  valid_name n = true ->
  (String.eqb n "" || String.eqb n ".")%bool = false /\
  String.eqb n ".." = false /\ has_slash n = false.
Proof.
  unfold valid_name. intros H.
  apply andb_true_iff in H as [H _].
  apply andb_true_iff in H as [H H4].
  apply andb_true_iff in H as [H H3].
  apply andb_true_iff in H as [H1 H2].
  apply negb_true_iff in H1, H2, H3, H4. now rewrite H1, H2, H3, H4.
Qed.

Lemma walk_name f cur n :
  valid_name n = true ->
  walk f cur [n] = if dir_at f cur then Some (cur ++ [n]) else None.
Proof.
  intros H. apply valid_name_step in H as (H1 & H2 & _). simpl.
  now rewrite H1, H2.
Qed.

Lemma start_dir_join w a n :
  a <> "" -> start_dir w (a ++ "/" ++ n) = start_dir w a.
Proof. destruct a; [congruence | reflexivity]. Qed.

Lemma join_nonempty a n : (a ++ "/" ++ n)%string <> "".
Proof. destruct a; discriminate. Qed.

(** Where a root joined with a proper name leads: into the directory the
    root names, one step down. *)
Lemma walk_join w a n :
  a <> "" -> valid_name n = true ->
  walk (w_fs w) (start_dir w (a ++ "/" ++ n)) (split_slash (a ++ "/" ++ n)) =
  match walk (w_fs w) (start_dir w a) (split_slash a) with
  | Some kd => if dir_at (w_fs w) kd then Some (kd ++ [n]) else None
  | None => None
  end.
Proof.
  intros Ha Hn. pose proof (valid_name_step n Hn) as (_ & _ & Hs).
  rewrite (CStrFacts.split_slash_join a n Hs), start_dir_join, walk_app by exact Ha.
  destruct (walk _ _ (split_slash a)) as [kd|]; [|reflexivity].
  now apply walk_name.
Qed.

Lemma resolve_join w a n :
  a <> "" -> valid_name n = true ->
  resolve w (a ++ "/" ++ n) =
  match resolve w a with
  | Some kd => if dir_at (w_fs w) kd then Some (kd ++ [n]) else None
  | None => None
  end.
Proof.
  intros Ha Hn. unfold resolve.
  destruct (a ++ "/" ++ n)%string eqn:E; [now apply join_nonempty in E|].
  rewrite <- E, (walk_join w a n Ha Hn).
  destruct a; [congruence | reflexivity].
Qed.

Lemma namei_join w a n :
  a <> "" -> valid_name n = true ->
  namei w (a ++ "/" ++ n) =
  match resolve w a with
  | Some kd =>
      if dir_at (w_fs w) kd then
        match lookup (w_fs w) (kd ++ [n]) with
        | Some nd => Some (kd ++ [n], nd)
        | None => None
        end
      else None
  | None => None
  end.
Proof.
  intros Ha Hn. unfold namei. rewrite (resolve_join w a n Ha Hn).
  destruct (resolve w a) as [kd|]; [|reflexivity].
  now destruct (dir_at (w_fs w) kd).
Qed.

Lemma creat_at_join w a n :
  a <> "" -> valid_name n = true ->
  creat_at w (start_dir w (a ++ "/" ++ n)) (split_slash (a ++ "/" ++ n)) =
  match resolve w a with
  | Some kd =>
      if dir_at (w_fs w) kd then
        match lookup (w_fs w) (kd ++ [n]) with
        | Some _ => None
        | None => Some (kd ++ [n])
        end
      else None
  | None => None
  end.
Proof.
  intros Ha Hn. pose proof (valid_name_step n Hn) as (_ & _ & Hs).
  unfold creat_at, resolve.
  rewrite (CStrFacts.split_slash_join a n Hs), split_last_app, start_dir_join
    by exact Ha.
  destruct a as [|c a]; [congruence|].
  destruct (walk _ _ (split_slash (String c a))) as [kd|]; [|reflexivity].
  rewrite Hn, andb_true_r.
  now destruct (dir_at (w_fs w) kd).
Qed.

(** *** Writing a file *)

Lemma resolve_same_dirs w f' p :
  same_dirs (w_fs w) f' -> resolve (set_fs w f') p = resolve w p.
Proof.
  intros H. unfold resolve. destruct p; [reflexivity|].
  apply (walk_same_dirs _ _ _ H).
Qed.

Lemma lookup_none_not_dir f k : lookup f k = None -> dir_at f k = false.
Proof. unfold dir_at. now intros ->. Qed.

Lemma lookup_reg_not_dir f k d t : lookup f k = Some (Reg d t) -> dir_at f k = false.
Proof. unfold dir_at. now intros ->. Qed.

(** A path that [creat_at] accepts leads to the entry it names. *)
Lemma creat_at_resolve w p k :
  p <> "" -> creat_at w (start_dir w p) (split_slash p) = Some k ->
  resolve w p = Some k /\ lookup (w_fs w) k = None /\ k <> [].
Proof.
  intros Hp. unfold creat_at, resolve.
  destruct p as [|c p]; [congruence|].
  destruct (split_last _) as [[front name]|] eqn:E; [|discriminate].
  apply split_last_some in E. rewrite E, walk_app.
  destruct (walk _ _ front) as [d|]; [|discriminate].
  destruct (dir_at (w_fs w) d) eqn:Ed; [|discriminate].
  destruct (valid_name name) eqn:En; [|discriminate]. simpl andb. cbv iota.
  destruct (lookup (w_fs w) (d ++ [name])) eqn:El; [discriminate|].
  intros [= <-]. rewrite (walk_name _ _ _ En), Ed.
  repeat split; try assumption. now destruct d.
Qed.

Lemma basename_join a n : valid_name n = true -> basename (a ++ "/" ++ n) = n.
Proof.
  intros Hn. pose proof (valid_name_step n Hn) as (_ & _ & Hs).
  now apply CStrFacts.last_split_slash_join.
Qed.

(** Storing an entry that is not directly inside [d] leaves the listing
    of [d] as it was. *)
Lemma children_put f k n d :
  (forall m, k <> d ++ [m]) -> children (put f k n) d = children f d.
Proof.
  intros Hk. induction f as [|[k' n'] f IH]; simpl.
  - destruct (split_last k) as [[front name]|] eqn:E; [|reflexivity].
    apply split_last_some in E.
    destruct (path_eq_dec front d) as [->|]; [|reflexivity].
    now elim (Hk name).
  - destruct (path_eq_dec k k') as [->|Hne]; simpl; [reflexivity|].
    now rewrite IH.
Qed.

Lemma namei_add_child_eq w c p : namei (add_child w c) p = namei w p.
Proof. reflexivity. Qed.

End FsFacts.

(** ** The comparators and the directory lister *)

Module Basic.
Import CStr Fs Os FileSync Spec CStrFacts FsFacts.

Lemma stat_mtime_at w p t :
  mtime_at w p = Some t -> mtime_after_stat w p = tv_sec t.
Proof.
  unfold mtime_at, mtime_after_stat, stat.
  destruct (namei w p) as [[k n]|]; [|discriminate].
  simpl. now intros [= <-].
Qed.

Lemma tv_sec_mono a b : (a <= b)%Z -> (tv_sec a <= tv_sec b)%Z.
Proof. intros H. apply Z.div_le_mono; [reflexivity | exact H]. Qed.

Lemma tv_sec_next a : tv_sec (a + NSEC_PER_SEC) = (tv_sec a + 1)%Z.
Proof.
  unfold tv_sec. rewrite <- (Z.mul_1_l NSEC_PER_SEC) at 1.
  apply Z.div_add. discriminate.
Qed.

(** C3, as stated, fails: a file modified eight tenths of a second after
    another, within the same second, has the strictly later time stamp, and
    the comparator answers false. *)
Lemma recency_counterexample :
  ~ recency_contract Examples.w_subsecond "/src/a.txt" "/dst/a.txt".
Proof.
  intros H.
  destruct (H _ _ eq_refl eq_refl) as [_ H2].
  assert (E : source_is_newer Examples.w_subsecond "/src/a.txt" "/dst/a.txt"
              = true) by (apply H2; reflexivity).
  vm_compute in E. discriminate E.
Qed.

(** C3, amended: the recency comparator compares the whole seconds of the
    two time stamps.  It answers true exactly when the first file's second
    is later than the second file's; so it answers true whenever the first
    file is at least one second later, only when it is strictly later, and
    false on equal stamps. *)
Theorem source_is_newer_seconds (w : world) (a b : string) (ta tb : Z) :
  mtime_at w a = Some ta ->
  mtime_at w b = Some tb ->
  (source_is_newer w a b = true <-> (tv_sec tb < tv_sec ta)%Z) /\
  ((tb + NSEC_PER_SEC <= ta)%Z -> source_is_newer w a b = true) /\
  (source_is_newer w a b = true -> (tb < ta)%Z) /\
  (ta = tb -> source_is_newer w a b = false).
Proof.
  intros Ha Hb.
  assert (Hiff : source_is_newer w a b = true <-> (tv_sec tb < tv_sec ta)%Z).
  { unfold source_is_newer, difftime.
    rewrite (stat_mtime_at w a ta Ha), (stat_mtime_at w b tb Hb).
    rewrite Z.gtb_ltb, Z.ltb_lt. lia. }
  split; [exact Hiff|]. split; [|split].
  - intros H. apply Hiff.
    pose proof (tv_sec_mono _ _ H) as Hm. rewrite tv_sec_next in Hm. lia.
  - intros H. apply Hiff in H.
    destruct (Z.lt_ge_cases tb ta) as [Hlt|Hge]; [exact Hlt|].
    pose proof (tv_sec_mono _ _ Hge). lia.
  - intros ->. apply not_true_is_false. intros E. apply Hiff in E. lia.
Qed.

Lemma in_firstn {A} (x : A) n : forall l, In x (firstn n l) -> In x l.
Proof.
  induction n as [|n IH]; intros [|y l] H; simpl in *; try contradiction.
  destruct H as [->|H]; [now left | right; now apply IH].
Qed.

Lemma max_files_pos : 0 < MAX_FILES.
Proof. unfold MAX_FILES. lia. Qed.

Local Opaque MAX_FILES MAX_PATH.

Lemma collect_keeps w abs_src entries :
  forall count,
    count < MAX_FILES ->
    collect w abs_src entries count =
    firstn (MAX_FILES - count) (filter (keeps w abs_src) entries).
Proof.
  induction entries as [|d rest IH]; intros count Hc; simpl.
  - now rewrite firstn_nil.
  - unfold keeps at 1.
    destruct ((compare d "." =? 0)%Z) eqn:E1; simpl; [now apply IH|].
    destruct ((compare d ".." =? 0)%Z) eqn:E2; simpl; [now apply IH|].
    destruct (is_regular_file w (snprintf_path MAX_PATH abs_src d)) eqn:E3;
      [|now apply IH].
    replace (MAX_FILES - count) with (S (MAX_FILES - S count)) by lia.
    simpl. f_equal.
    destruct (MAX_FILES <=? S count)%nat eqn:E4.
    + apply Nat.leb_le in E4.
      replace (MAX_FILES - S count) with 0 by lia. reflexivity.
    + apply Nat.leb_gt in E4. now apply IH.
Qed.

Lemma keeps_not_pseudo w abs_src n :
  keeps w abs_src n = true -> n <> "." /\ n <> "..".
Proof.
  unfold keeps, compare. intros H.
  apply andb_true_iff in H as [H _].
  apply andb_true_iff in H as [H1 H2].
  split; intros ->; rewrite strcmp_refl in *; discriminate.
Qed.

(** What the lister returns, in one equation. *)
Lemma list_regular_files_eq w abs_src files :
  list_regular_files w abs_src = Some files ->
  exists k t,
    namei w abs_src = Some (k, Dir t) /\
    files = firstn MAX_FILES
              (filter (keeps w abs_src) ("." :: ".." :: children (w_fs w) k)).
Proof.
  unfold list_regular_files, opendir.
  destruct (namei w abs_src) as [[k [d t|t]]|] eqn:E; try discriminate.
  intros [= <-]. exists k, t. split; [reflexivity|].
  rewrite collect_keeps by apply max_files_pos.
  now rewrite Nat.sub_0_r.
Qed.

Lemma in_kept w abs_src k n :
  In n (firstn MAX_FILES
          (filter (keeps w abs_src) ("." :: ".." :: children (w_fs w) k))) ->
  In n (children (w_fs w) k) /\ keeps w abs_src n = true.
Proof.
  intros H. apply in_firstn, filter_In in H as [H Hk]. split; [|exact Hk].
  pose proof (keeps_not_pseudo w abs_src n Hk) as [N1 N2].
  destruct H as [<-|[<-|H]]; [now elim N1|now elim N2|exact H].
Qed.

Lemma keeps_fits w abs_src k t n :
  namei w abs_src = Some (k, Dir t) ->
  valid_name n = true ->
  String.length abs_src + 1 + String.length n < MAX_PATH ->
  (keeps w abs_src n = true <->
   exists d tn, lookup (w_fs w) (k ++ [n]) = Some (Reg d tn)).
Proof.
  intros Hk Hn Hfit.
  assert (Hne : abs_src <> "").
  { intros ->. discriminate Hk. }
  assert (Hnul : has_nul n = false).
  { unfold valid_name in Hn. rewrite !andb_true_iff in Hn.
    now apply negb_true_iff. }
  assert (Hp : (compare n "." =? 0)%Z = false /\
               (compare n ".." =? 0)%Z = false).
  { unfold compare. split; apply Z.eqb_neq; intros E;
      apply strcmp_zero_eq in E; try reflexivity; try exact Hnul;
      subst n; discriminate Hn. }
  destruct Hp as [H1 H2].
  unfold keeps. rewrite H1, H2. cbn [negb andb].
  rewrite (snprintf_path_fits _ _ _ Hfit).
  unfold is_regular_file, stat.
  rewrite (namei_join w abs_src n Hne Hn).
  unfold namei in Hk.
  destruct (resolve w abs_src) as [kd|]; [|discriminate].
  destruct (lookup (w_fs w) kd) as [nd|] eqn:El; [|discriminate].
  injection Hk as -> ->. unfold dir_at. rewrite El.
  destruct (lookup (w_fs w) (k ++ [n])) as [[d tn|tn]|]; cbn.
  - split; [intros _; now exists d, tn | reflexivity].
  - split; [discriminate | intros (d & t' & E); discriminate E].
  - split; [discriminate | intros (d & t' & E); discriminate E].
Qed.



End Basic.

(** ** The decision for one candidate *)

Module Decision.
Import CStr Fs Os FileSync Spec CStrFacts.

Lemma stat_add_child w c p : stat (add_child w c) p = stat w p.
Proof. reflexivity. Qed.

Lemma file_exists_namei w p :
  file_exists w p = match namei w p with Some _ => true | None => false end.
Proof.
  unfold file_exists, stat. now destruct (namei w p) as [[k n]|].
Qed.

Lemma files_are_different_found w src dst :
  existsb (String.eqb "/usr/bin/diff") (w_execs w) = true ->
  files_are_different w src dst =
  (add_child w (mkChild "/usr/bin/diff" ["diff"; "-q"; src; dst] true
                        (diff_status w src dst)),
   diff_status w src dst).
Proof. unfold files_are_different, spawn. now intros ->. Qed.

Lemma copy_file_out w src dst : snd (copy_file w src dst) = [Copied src dst].
Proof.
  unfold copy_file. now destruct (spawn _ _ _ _).
Qed.

Lemma copy_file_eta w src dst :
  copy_file w src dst = (fst (copy_file w src dst), [Copied src dst]).
Proof.
  rewrite <- (copy_file_out w src dst). now destruct (copy_file w src dst).
Qed.

End Decision.

(** ** Processing order *)

Module Order.
Import CStr Fs Os FileSync Spec CStrFacts FsFacts Aux.

Lemma insert_perm x l : Permutation (x :: l) (insert x l).
Proof.
  induction l as [|y l IH]; simpl; [reflexivity|].
  destruct (compare x y <=? 0)%Z; [reflexivity|].
  rewrite perm_swap. now constructor.
Qed.

Lemma qsort_perm l : Permutation l (qsort l).
Proof.
  induction l as [|x l IH]; simpl; [constructor|].
  rewrite <- insert_perm. now constructor.
Qed.

Lemma insert_hd x y l :
  cmp_le y x -> HdRel cmp_le y l -> HdRel cmp_le y (insert x l).
Proof.
  intros Hyx H. destruct l as [|z l]; simpl.
  - now constructor.
  - destruct (compare x z <=? 0)%Z; constructor; [exact Hyx|].
    now inversion H.
Qed.

Lemma insert_sorted x l : Sorted cmp_le l -> Sorted cmp_le (insert x l).
Proof.
  induction 1 as [|y l Hs IH Hhd]; simpl.
  - repeat constructor.
  - destruct (compare x y <=? 0)%Z eqn:E.
    + apply Z.leb_le in E. constructor; [now constructor|]. now constructor.
    + apply Z.leb_gt in E. constructor; [exact IH|].
      apply insert_hd; [|exact Hhd].
      unfold cmp_le, compare in *. rewrite strcmp_swap. lia.
Qed.

Lemma qsort_sorted l : Sorted cmp_le (qsort l).
Proof.
  induction l as [|x l IH]; simpl; [constructor | now apply insert_sorted].
Qed.

(** On C strings, [strcmp <= 0] is the byte-wise lexicographic order. *)
Lemma strcmp_lex a :
  forall b, has_nul a = false -> has_nul b = false ->
            (strcmp a b <= 0)%Z -> lex_le a b.
Proof.
  induction a as [|c a IH]; intros [|d b] Ha Hb H; simpl in *.
  - apply lex_nil.
  - apply lex_nil.
  - apply orb_false_iff in Ha as [Hc _].
    pose proof (byte_val_nonneg c).
    assert (c = zero) by (apply byte_val_zero; lia). subst c. discriminate.
  - apply orb_false_iff in Ha as [_ Ha].
    apply orb_false_iff in Hb as [_ Hb].
    destruct (Ascii.eqb c d) eqn:E.
    + apply Ascii.eqb_eq in E. subst d. apply lex_eq. now apply IH.
    + apply Ascii.eqb_neq in E. apply lex_lt.
      assert (byte_val c <> byte_val d) by (intros X; now apply byte_val_inj in X).
      lia.
Qed.

Lemma lex_strcmp a b : lex_le a b -> (strcmp a b <= 0)%Z.
Proof.
  induction 1 as [b|c a d b H|c a b H IH]; simpl.
  - destruct b; [lia|]. pose proof (byte_val_nonneg a). lia.
  - destruct (Ascii.eqb c d) eqn:E; [|lia].
    apply Ascii.eqb_eq in E. subst. lia.
  - now rewrite Ascii.eqb_refl.
Qed.

Lemma sorted_lex l :
  Forall (fun n => has_nul n = false) l -> Sorted cmp_le l -> Sorted lex_le l.
Proof.
  intros Hall Hs. induction Hs as [|x l Hs IH Hhd]; [constructor|].
  inversion Hall as [|? ? Hx Hl]; subst.
  constructor; [now apply IH|].
  destruct Hhd as [|y l Hxy]; constructor.
  inversion Hl; subst. now apply strcmp_lex.
Qed.

(** *** What the loop prints *)

Lemma processed_app a b : processed (a ++ b) = processed a ++ processed b.
Proof.
  unfold processed. rewrite <- map_app. f_equal.
  induction a as [|l a IH]; simpl; [reflexivity|].
  destruct (decision_of_line l); simpl; now rewrite IH.
Qed.

(** Every pass through the loop body announces one decision for its file,
    followed by the [Copied] line when it called [copy_file]. *)
Lemma sync_file_out w abs_src abs_dst name :
  exists d,
    snd (sync_file w abs_src abs_dst name) =
    decision_line name d ::
    (if transfers d
     then [Copied (snprintf_path MAX_PATH abs_src name)
                  (snprintf_path MAX_PATH abs_dst name)]
     else []).
Proof.
  unfold sync_file.
  destruct (negb (file_exists w _)).
  - exists CopyNew. rewrite Decision.copy_file_eta. reflexivity.
  - destruct (files_are_different w _ _) as [w1 different].
    destruct (different =? 0)%Z.
    + now exists SkipIdentical.
    + destruct (source_is_newer w1 _ _).
      * exists CopyUpdate. rewrite Decision.copy_file_eta. reflexivity.
      * now exists SkipDestinationNewer.
Qed.

Lemma sync_file_processed w abs_src abs_dst name :
  processed (snd (sync_file w abs_src abs_dst name)) = [name].
Proof.
  destruct (sync_file_out w abs_src abs_dst name) as [d ->].
  now destruct d.
Qed.

Lemma sync_loop_processed abs_src abs_dst files :
  forall w, processed (snd (sync_loop w abs_src abs_dst files)) = files.
Proof.
  induction files as [|name rest IH]; intros w; simpl; [reflexivity|].
  pose proof (sync_file_processed w abs_src abs_dst name) as H1.
  destruct (sync_file w abs_src abs_dst name) as [w1 out1].
  specialize (IH w1).
  destruct (sync_loop w1 abs_src abs_dst rest) as [w2 out2].
  simpl in *. now rewrite processed_app, H1, IH.
Qed.

Lemma resolve_destination_out w arg :
  processed (snd (resolve_destination w arg)) = [].
Proof.
  unfold resolve_destination. now destruct (realpath w arg).
Qed.

(** A run processes the sorted candidates, one after the other. *)
Lemma main_processed w argv :
  processed (r_out (main w argv)) = qsort (candidates w argv).
Proof.
  unfold main, candidates.
  destruct argv as [|a0 [|a1 [|a2 [|a3 rest]]]]; try reflexivity.
  destruct (realpath w a1) as [abs_src|]; [|reflexivity].
  pose proof (resolve_destination_out w a2) as Hr.
  destruct (resolve_destination w a2) as [[w1 abs_dst] out1].
  cbn [fst snd] in *.
  destruct (getcwd w1 MAX_PATH) as [cwd|]; [|exact Hr].
  unfold engine.
  destruct (list_regular_files w1 abs_src) as [files|].
  - pose proof (sync_loop_processed abs_src abs_dst (qsort files) w1) as Hl.
    destruct (sync_loop w1 abs_src abs_dst (qsort files)) as [w2 out3].
    cbn [fst snd r_out] in *. rewrite !processed_app, Hr, Hl.
    cbn. now rewrite app_nil_r.
  - cbn [r_out]. now rewrite processed_app, Hr.
Qed.

Lemma mkdir_p_loop_wf rest :
  forall w done,
    wf_fs (w_fs w) = true -> wf_fs (w_fs (mkdir_p_loop w done rest)) = true.
Proof.
  induction rest as [|c rest IH]; intros w done Hwf; simpl; [exact Hwf|].
  apply IH. destruct (is_slash c); [now apply mkdir_wf | exact Hwf].
Qed.

Lemma mkdir_p_wf w p :
  wf_fs (w_fs w) = true -> wf_fs (w_fs (mkdir_p w p)) = true.
Proof.
  intros Hwf. unfold mkdir_p.
  destruct (match last_char p with
            | Some c => if is_slash c then drop_last p else p
            | None => p
            end) as [|c0 rest].
  - now apply mkdir_wf.
  - now apply mkdir_wf, mkdir_p_loop_wf.
Qed.

Lemma resolve_destination_wf w arg :
  wf_fs (w_fs w) = true ->
  wf_fs (w_fs (fst (fst (resolve_destination w arg)))) = true.
Proof.
  intros Hwf. unfold resolve_destination.
  destruct (realpath w arg); simpl; [exact Hwf | now apply mkdir_p_wf].
Qed.

Lemma valid_name_no_nul n : valid_name n = true -> has_nul n = false.
Proof.
  unfold valid_name. intros H. apply andb_true_iff in H as [_ H].
  now apply negb_true_iff in H.
Qed.

(** The candidates of a run are proper file names. *)
Lemma candidates_valid w argv :
  wf_fs (w_fs w) = true ->
  Forall (fun n => valid_name n = true) (candidates w argv).
Proof.
  intros Hwf. unfold candidates.
  destruct argv as [|a0 [|a1 [|a2 [|a3 rest]]]]; try constructor.
  destruct (realpath w a1) as [abs_src|]; [|constructor].
  pose proof (resolve_destination_wf w a2 Hwf) as Hwf1.
  set (w1 := fst (fst (resolve_destination w a2))) in *.
  destruct (getcwd w1 MAX_PATH); [|constructor].
  destruct (list_regular_files w1 abs_src) as [files|] eqn:E; [|constructor].
  apply Basic.list_regular_files_eq in E as (k & t & _ & ->).
  apply Forall_forall. intros n Hn. apply Basic.in_kept in Hn as [Hn _].
  exact (children_valid _ _ _ Hwf1 Hn).
Qed.

(** C2: a run processes its candidates in byte-wise lexicographic order of
    their names: the names it processes are the candidates, rearranged into
    that order; with b.txt, a.txt, c.txt in the source it processes a.txt,
    b.txt, c.txt. *)
Theorem processing_order (w : world) (argv : list string) :
  wf_fs (w_fs w) = true ->
  within_buffers w argv = true ->
  Sorted lex_le (processed (r_out (main w argv))) /\
  Permutation (candidates w argv) (processed (r_out (main w argv))) /\
  (candidates Examples.w_bac Examples.argv_bac = ["b.txt"; "a.txt"; "c.txt"] /\
   processed (r_out (main Examples.w_bac Examples.argv_bac)) =
   ["a.txt"; "b.txt"; "c.txt"]).
Proof.
  intros Hwf _. rewrite main_processed. split; [|split].
  - apply sorted_lex; [|apply qsort_sorted].
    pose proof (candidates_valid w argv Hwf) as Hv.
    rewrite Forall_forall in *. intros n Hn.
    apply valid_name_no_nul, Hv.
    now apply (Permutation_in _ (Permutation_sym (qsort_perm _))).
  - apply qsort_perm.
  - split; vm_compute; reflexivity.
Qed.

End Order.

(** ** Exit code, failures in the loop *)

Module Errors.
Import CStr Fs Os FileSync Spec CStrFacts FsFacts.

(** C6, as stated, fails: with a destination below a regular file the
    listed cause "destination unresolvable and uncreatable" holds, yet the
    run finishes with exit code 0. *)
Lemma exit_code_counterexample :
  ~ (r_exit (main Examples.w_nodst Examples.argv_nodst) = 1%Z <->
     listed_exit_cause Examples.w_nodst Examples.argv_nodst = true).
Proof.
  intros [_ H].
  assert (E : r_exit (main Examples.w_nodst Examples.argv_nodst) = 0%Z)
    by (vm_compute; reflexivity).
  rewrite E in H. discriminate H. vm_compute. reflexivity.
Qed.

(** C6, amended: the exit code is 1 exactly when the argument count is
    not 3, or [realpath] fails on the source, or [getcwd] fails, or [opendir]
    fails on the source; it is 0 in every other case, also when the
    destination could not be created. *)
Theorem exit_code_cases (w : world) (argv : list string) :
  within_buffers w argv = true ->
  (r_exit (main w argv) = 1%Z <-> exit_cause w argv = true) /\
  (r_exit (main w argv) = 0%Z <-> exit_cause w argv = false).
Proof.
  intros _. unfold main, exit_cause.
  destruct argv as [|a0 [|a1 [|a2 [|a3 rest]]]];
    try (split; split; (reflexivity || discriminate)).
  destruct (realpath w a1) as [abs_src|];
    [|split; split; (reflexivity || discriminate)].
  destruct (resolve_destination w a2) as [[w1 abs_dst] out1].
  cbn [fst].
  destruct (getcwd w1 MAX_PATH) as [cwd|];
    [|split; split; (reflexivity || discriminate)].
  unfold engine, list_regular_files.
  destruct (opendir w1 abs_src) as [entries|];
    [|split; split; (reflexivity || discriminate)].
  destruct (sync_loop w1 abs_src abs_dst _) as [w2 out3].
  split; split; (reflexivity || discriminate).
Qed.

(** C9, as stated, fails: with a destination below a regular file, [cp]
    cannot create a.txt and exits with status 1, and the run still prints
    the [Copied] line for it, as for a copy that succeeded. *)
Lemma failure_counterexample :
  ~ (processed (r_out (main Examples.w_nodst Examples.argv_nodst)) =
       qsort (candidates Examples.w_nodst Examples.argv_nodst) /\
     failures_surfaced (main Examples.w_nodst Examples.argv_nodst) = true).
Proof.
  intros [_ H]. vm_compute in H. discriminate H.
Qed.

(** A comparison that did not report "same" never leads to the decision
    "identical". *)
Lemma sync_file_not_identical w abs_src abs_dst name :
  snd (files_are_different w (snprintf_path MAX_PATH abs_src name)
                             (snprintf_path MAX_PATH abs_dst name)) <> 0%Z ->
  ~ In (Identical name) (snd (sync_file w abs_src abs_dst name)).
Proof.
  intros Hd. unfold sync_file.
  destruct (negb (file_exists w _)).
  - rewrite Decision.copy_file_eta. simpl. intros [H|[H|[]]]; discriminate.
  - destruct (files_are_different w _ _) as [w1 different]. simpl in Hd.
    apply Z.eqb_neq in Hd. rewrite Hd.
    destruct (source_is_newer w1 _ _).
    + rewrite Decision.copy_file_eta. simpl. intros [H|[H|[]]]; discriminate.
    + simpl. intros [H|[]]; discriminate.
Qed.

(** C9, amended: for a run that overruns no buffer, whatever fails in the
    loop, the run goes on and announces a decision for every candidate, in
    sorted order; a comparison that returns a status other than 0 (the
    [diff] child exited with 1 or 2, or could not be executed) is never
    taken for "identical"; and the one line [copy_file] prints is its
    "Copied" line, whether or not [cp] succeeded. *)
Theorem failures_do_not_stop (w : world) (argv : list string) :
  within_buffers w argv = true ->
  processed (r_out (main w argv)) = qsort (candidates w argv) /\
  (forall w' abs_src abs_dst name,
     snd (files_are_different w' (snprintf_path MAX_PATH abs_src name)
                                 (snprintf_path MAX_PATH abs_dst name)) <> 0%Z ->
     ~ In (Identical name) (snd (sync_file w' abs_src abs_dst name))) /\
  (forall w' src dst, snd (copy_file w' src dst) = [Copied src dst]).
Proof.
  intros _. split; [apply Order.main_processed|]. split.
  - apply sync_file_not_identical.
  - apply Decision.copy_file_out.
Qed.

End Errors.

(** ** The file transfer *)

Module Transfer.
Import CStr Fs Os FileSync Spec CStrFacts FsFacts.


(** What a path names after a regular file was stored at [k], where no
    directory was. *)
Lemma namei_write w k d t p :
  dir_at (w_fs w) k = false -> k <> [] ->
  namei (set_fs w (put (w_fs w) k (Reg d t))) p =
  match resolve w p with
  | Some k' => if path_eq_dec k' k then Some (k, Reg d t) else
                 match lookup (w_fs w) k' with
                 | Some n => Some (k', n)
                 | None => None
                 end
  | None => None
  end.
Proof.
  intros Hk Hne. unfold namei.
  rewrite (resolve_same_dirs w _ p (same_dirs_put_reg _ _ d t Hk)).
  destruct (resolve w p) as [k'|]; [|reflexivity]. simpl.
  destruct (path_eq_dec k' k) as [->|Hd].
  - now rewrite lookup_put_same.
  - now rewrite lookup_put_other.
Qed.

Lemma write_file_content w k data p :
  dir_at (w_fs w) k = false -> k <> [] -> resolve w p = Some k ->
  content_at (fst (write_file w k data)) p =
  Some (substring 0 (w_maxbytes w) data).
Proof.
  intros Hk Hne Hp. unfold write_file, content_at, file_at. simpl fst.
  rewrite (namei_write w k _ _ p Hk Hne), Hp.
  now destruct (path_eq_dec k k).
Qed.

Lemma write_file_status w k data :
  snd (write_file w k data) = 0%Z <-> String.length data <= w_maxbytes w.
Proof.
  unfold write_file. simpl.
  destruct (Nat.leb_spec (String.length data) (w_maxbytes w)).
  - split; [now intros _ | reflexivity].
  - split; [discriminate | lia].
Qed.

(** What [cp] does when the destination path is not a directory. *)
Lemma cp_cases w src dst :
  (forall k t, namei w dst <> Some (k, Dir t)) ->
  cp w src dst = (w, 1%Z) \/
  exists ks data ts k,
    namei w src = Some (ks, Reg data ts) /\
    dir_at (w_fs w) k = false /\ k <> [] /\ k <> ks /\
    resolve w dst = Some k /\
    cp w src dst = write_file w k data.
Proof.
  intros Hnd. unfold cp.
  destruct (namei w src) as [[ks [data ts|ts]]|] eqn:Es; try now left.
  destruct (namei w dst) as [[kd [dd td|td]]|] eqn:Ed.
  - unfold cp_onto. destruct (path_eq_dec ks kd) as [->|Hne]; [now left|].
    right. exists ks, data, ts, kd.
    unfold namei in Ed.
    destruct (resolve w dst) as [k'|]; [|discriminate].
    destruct (lookup (w_fs w) k') as [n|] eqn:El; [|discriminate].
    injection Ed as -> ->.
    repeat split; try reflexivity.
    + exact (lookup_reg_not_dir _ _ _ _ El).
    + exact (lookup_reg_nonroot _ _ _ _ El).
    + congruence.
  - exfalso. exact (Hnd kd td eq_refl).
  - destruct dst as [|c dst]; [now left|].
    destruct (creat_at w _ _) as [k|] eqn:Ek; [|now left].
    apply creat_at_resolve in Ek as (Hr & Hl & Hk); [|discriminate].
    right. exists ks, data, ts, k.
    repeat split; try assumption; try reflexivity.
    + now apply lookup_none_not_dir.
    + intros ->. unfold namei in Es.
      destruct (resolve w src); [|discriminate]. 
      destruct (lookup (w_fs w) p) eqn:E; [|discriminate].
      injection Es as -> ->. congruence.
Qed.


End Transfer.

(** ** The decision for one file *)

Module FourWay.
Import CStr Fs Os FileSync Spec CStrFacts FsFacts Aux More.


Lemma new_children_snoc w w' cs :
  w_children w' = w_children w ++ cs -> new_children w w' = cs.
Proof.
  intros H. unfold new_children. rewrite H.
  rewrite skipn_app, Nat.sub_diag, skipn_all. reflexivity.
Qed.

(** The child of [copy_file], and what it leaves when it exits with 0 and
    the destination path is not a directory. *)
Lemma copy_file_child w src dst data ts :
  (forall k t, namei w dst <> Some (k, Dir t)) ->
  file_at w src = Some (data, ts) ->
  exists c,
    w_children (fst (copy_file w src dst)) = w_children w ++ [c] /\
    command_of c = ("/bin/cp", ["cp"; src; dst]) /\
    (c_status c = 0%Z ->
     file_at (fst (copy_file w src dst)) dst = Some (data, w_now w) /\
     file_at (fst (copy_file w src dst)) src = Some (data, ts)).
Proof.
  intros Hnd Hsrc. unfold copy_file, spawn.
  destruct (existsb _ (w_execs w)).
  - destruct (Transfer.cp_cases w src dst Hnd)
      as [E|(ks & d & t & k & Es & Hk & Hne & Hks & Hr & E)]; rewrite E.
    + eexists. cbn [fst snd w_children add_child].
      split; [reflexivity|]. split; [reflexivity|]. discriminate.
    + pose proof (Transfer.write_file_status w k d) as Hs.
      assert (Hd : d = data /\ t = ts).
      { unfold file_at in Hsrc. rewrite Es in Hsrc. now injection Hsrc. }
      destruct Hd as [-> ->].
      assert (Hrs : resolve w src = Some ks /\
                    lookup (w_fs w) ks = Some (Reg data ts)).
      { unfold namei in Es. destruct (resolve w src) as [k'|]; [|discriminate].
        destruct (lookup (w_fs w) k') eqn:El; [|discriminate].
        injection Es as -> ->. now split. }
      destruct Hrs as [Hrs Hls].
      unfold write_file in *. cbn [fst snd] in *.
      eexists. cbn [w_children add_child set_fs].
      split; [reflexivity|]. split; [reflexivity|].
      cbn [c_status]. intros H0. apply Hs in H0.
      unfold file_at. rewrite !namei_add_child_eq.
      rewrite !(Transfer.namei_write w k _ _ _ Hk Hne), Hr, Hrs.
      destruct (path_eq_dec k k) as [_|N]; [|congruence].
      destruct (path_eq_dec ks k) as [Eq|_]; [congruence|].
      rewrite Hls, (substring_all _ _ H0). now split.
  - eexists. cbn [fst snd w_children add_child].
    split; [reflexivity|]. split; [reflexivity|]. discriminate.
Qed.


End FourWay.

(** ** The loop, entry by entry *)

Module Engine.
Import CStr Fs Os FileSync Spec CStrFacts FsFacts Aux.

Lemma option_eq_dec_node (a b : option node) : {a = b} + {a <> b}.
Proof. repeat decide equality. Qed.

Section Roots.

Variables abs_src abs_dst : string.
Hypothesis src_nonempty : abs_src <> "".
Hypothesis dst_nonempty : abs_dst <> "".

Local Abbreviation name_ok := (Aux.name_ok abs_src abs_dst).
Local Abbreviation target_of := (Aux.target_of abs_dst).

Lemma src_file_eq n :
  name_ok n -> snprintf_path MAX_PATH abs_src n = (abs_src ++ "/" ++ n)%string.
Proof. intros (_ & H & _). now apply snprintf_path_fits. Qed.

Lemma dst_file_eq n :
  name_ok n -> snprintf_path MAX_PATH abs_dst n = (abs_dst ++ "/" ++ n)%string.
Proof. intros (_ & _ & H). now apply snprintf_path_fits. Qed.

Lemma namei_under w root n :
  root <> "" -> valid_name n = true ->
  namei w (root ++ "/" ++ n) =
  match dir_of w root with
  | Some k =>
      match lookup (w_fs w) (k ++ [n]) with
      | Some nd => Some (k ++ [n], nd)
      | None => None
      end
  | None => None
  end.
Proof.
  intros Hr Hn. rewrite (namei_join w root n Hr Hn). unfold dir_of.
  destruct (resolve w root) as [k|]; [|reflexivity].
  now destruct (dir_at (w_fs w) k).
Qed.

Lemma file_exists_dst w n :
  name_ok n ->
  file_exists w (snprintf_path MAX_PATH abs_dst n) =
  match dir_of w abs_dst with
  | Some kd =>
      match lookup (w_fs w) (kd ++ [n]) with Some _ => true | None => false end
  | None => false
  end.
Proof.
  intros Hn. rewrite (dst_file_eq n Hn), Decision.file_exists_namei.
  rewrite (namei_under w abs_dst n dst_nonempty (proj1 Hn)).
  destruct (dir_of w abs_dst) as [kd|]; [|reflexivity].
  now destruct (lookup (w_fs w) (kd ++ [n])).
Qed.

Lemma diff_status_sem w n ks kd ds ts dn :
  name_ok n ->
  dir_of w abs_src = Some ks ->
  lookup (w_fs w) (ks ++ [n]) = Some (Reg ds ts) ->
  dir_of w abs_dst = Some kd ->
  lookup (w_fs w) (kd ++ [n]) = Some dn ->
  diff_status w (snprintf_path MAX_PATH abs_src n)
                (snprintf_path MAX_PATH abs_dst n) =
  diff_verdict ds dn (lookup (w_fs w) (kd ++ [n; n])).
Proof.
  intros Hn Hs Hls Hd Hld. unfold diff_status.
  rewrite (src_file_eq n Hn), (dst_file_eq n Hn).
  rewrite (namei_under w abs_src n src_nonempty (proj1 Hn)), Hs, Hls.
  rewrite (namei_under w abs_dst n dst_nonempty (proj1 Hn)), Hd, Hld.
  rewrite (basename_join abs_src n (proj1 Hn)).
  destruct dn as [dd td|td]; [reflexivity|]. cbn [diff_verdict].
  now rewrite <- app_assoc.
Qed.

Lemma source_is_newer_sem w n ks kd ds ts dn :
  name_ok n ->
  dir_of w abs_src = Some ks ->
  lookup (w_fs w) (ks ++ [n]) = Some (Reg ds ts) ->
  dir_of w abs_dst = Some kd ->
  lookup (w_fs w) (kd ++ [n]) = Some dn ->
  source_is_newer w (snprintf_path MAX_PATH abs_src n)
                    (snprintf_path MAX_PATH abs_dst n) =
  (tv_sec (node_mtime dn) <? tv_sec ts)%Z.
Proof.
  intros Hn Hs Hls Hd Hld.
  unfold source_is_newer, mtime_after_stat, difftime, stat.
  rewrite (src_file_eq n Hn), (dst_file_eq n Hn).
  rewrite (namei_under w abs_src n src_nonempty (proj1 Hn)), Hs, Hls.
  rewrite (namei_under w abs_dst n dst_nonempty (proj1 Hn)), Hd, Hld.
  cbn [st_mtime node_mtime]. rewrite Z.gtb_ltb.
  destruct (Z.ltb_spec 0 (tv_sec ts - tv_sec (node_mtime dn))),
           (Z.ltb_spec (tv_sec (node_mtime dn)) (tv_sec ts));
    try reflexivity; lia.
Qed.

Lemma cp_sem w n ks ds ts :
  name_ok n ->
  dir_of w abs_src = Some ks ->
  lookup (w_fs w) (ks ++ [n]) = Some (Reg ds ts) ->
  cp w (snprintf_path MAX_PATH abs_src n) (snprintf_path MAX_PATH abs_dst n) =
  match dir_of w abs_dst with
  | Some kd =>
      match cp_target (ks ++ [n]) (kd ++ [n]) (kd ++ [n; n])
                      (lookup (w_fs w) (kd ++ [n]))
                      (lookup (w_fs w) (kd ++ [n; n])) with
      | Some k => write_file w k ds
      | None => (w, 1%Z)
      end
  | None => (w, 1%Z)
  end.
Proof.
  intros Hn Hs Hls. unfold cp.
  rewrite (src_file_eq n Hn), (dst_file_eq n Hn).
  rewrite (namei_under w abs_src n src_nonempty (proj1 Hn)), Hs, Hls.
  rewrite (namei_under w abs_dst n dst_nonempty (proj1 Hn)).
  rewrite (basename_join abs_src n (proj1 Hn)).
  destruct (abs_dst ++ "/" ++ n)%string eqn:E; [now apply join_nonempty in E|].
  rewrite <- E. clear E.
  rewrite (creat_at_join w abs_dst n dst_nonempty (proj1 Hn)).
  unfold dir_of.
  destruct (resolve w abs_dst) as [kd|]; [|reflexivity].
  destruct (dir_at (w_fs w) kd); [|reflexivity].
  unfold cp_target.
  destruct (lookup (w_fs w) (kd ++ [n])) as [[dd td|td]|] eqn:El.
  - unfold cp_onto. now destruct (path_eq_dec _ _).
  - rewrite <- app_assoc. simpl app.
    destruct (lookup (w_fs w) (kd ++ [n; n])) as [[d2 t2|t2]|];
      try reflexivity; rewrite (proj1 Hn); unfold cp_onto;
      now destruct (path_eq_dec _ _).
  - reflexivity.
Qed.

(** *** What one pass through the loop body changes *)

Lemma env_eq_refl w : env_eq w w.
Proof. now repeat split. Qed.

Lemma env_eq_trans w1 w2 w3 : env_eq w1 w2 -> env_eq w2 w3 -> env_eq w1 w3.
Proof.
  unfold env_eq. intros (A1 & A2 & A3 & A4 & A5) (B1 & B2 & B3 & B4 & B5).
  repeat split; congruence.
Qed.

Lemma dir_of_stable w w' root :
  same_dirs (w_fs w) (w_fs w') -> w_cwd w' = w_cwd w ->
  dir_of w' root = dir_of w root.
Proof.
  intros Hd Hc. unfold dir_of, resolve, start_dir. rewrite Hc.
  destruct root as [|c root]; [reflexivity|].
  rewrite (walk_same_dirs _ _ _ Hd).
  destruct (walk _ _ _) as [k|]; [|reflexivity].
  now rewrite Hd.
Qed.

Lemma cp_target_props S D D2 dn inner k :
  cp_target S D D2 dn inner = Some k ->
  k = D /\ dn = None \/
  k = D /\ k <> S /\ (exists d t, dn = Some (Reg d t)) \/
  k = D2 /\ k <> S /\ (exists t, dn = Some (Dir t)) /\
    (inner = None \/ exists d t, inner = Some (Reg d t)).
Proof.
  unfold cp_target.
  destruct dn as [[dd td|td]|].
  - destruct (path_eq_dec S D); [discriminate|]. intros [= <-].
    right. left. split; [reflexivity|]. split; [congruence|]. now exists dd, td.
  - destruct inner as [[d2 t2|t2]|]; try discriminate;
      (destruct (path_eq_dec S D2); [discriminate|]); intros [= <-];
      right; right; (split; [reflexivity|]); (split; [congruence|]);
      (split; [now exists td|]).
    + right. now exists d2, t2.
    + now left.
  - intros [= <-]. now left.
Qed.

Lemma cp_effect w n ks ds ts :
  name_ok n ->
  dir_of w abs_src = Some ks ->
  lookup (w_fs w) (ks ++ [n]) = Some (Reg ds ts) ->
  let w' := fst (cp w (snprintf_path MAX_PATH abs_src n)
                      (snprintf_path MAX_PATH abs_dst n)) in
  env_eq w w' /\ w_children w' = w_children w /\
  (w_fs w' = w_fs w \/
   exists k, target_of w n k /\ k <> ks ++ [n] /\ wrote w w' k).
Proof.
  intros Hn Hs Hls. rewrite (cp_sem w n ks ds ts Hn Hs Hls).
  destruct (dir_of w abs_dst) as [kd|] eqn:Hd;
    [|simpl; split; [apply env_eq_refl | split; [reflexivity | now left]]].
  destruct (cp_target _ _ _ _ _) as [k|] eqn:Ht;
    [|simpl; split; [apply env_eq_refl | split; [reflexivity | now left]]].
  apply cp_target_props in Ht.
  unfold write_file. simpl.
  split; [now repeat split|]. split; [reflexivity|].
  right. exists k. split; [|split].
  - exists kd. split; [exact Hd|].
    destruct Ht as [[-> _]|[[-> _]|[-> _]]]; auto.
  - destruct Ht as [[-> Hl]|[[_ [H _]]|[_ [H _]]]]; try exact H.
    intros H. rewrite H in Hl. congruence.
  - split; [|split].
    + unfold dir_at.
      destruct Ht as [[-> Hl]|[[-> [_ (d & t & Hl)]]|[-> [_ [_ [Hl|(d & t & Hl)]]]]]];
        now rewrite Hl.
    + destruct Ht as [[-> _]|[[-> _]|[-> _]]]; now destruct kd.
    + now eexists.
Qed.

Lemma files_are_different_world w src dst :
  exists c, fst (files_are_different w src dst) = add_child w c.
Proof.
  unfold files_are_different, spawn.
  destruct (existsb _ _); eexists; reflexivity.
Qed.

Lemma copy_file_effect w n ks ds ts :
  name_ok n ->
  dir_of w abs_src = Some ks ->
  lookup (w_fs w) (ks ++ [n]) = Some (Reg ds ts) ->
  let w' := fst (copy_file w (snprintf_path MAX_PATH abs_src n)
                             (snprintf_path MAX_PATH abs_dst n)) in
  env_eq w w' /\
  (w_fs w' = w_fs w \/
   exists k, target_of w n k /\ k <> ks ++ [n] /\ wrote w w' k).
Proof.
  intros Hn Hs Hls. unfold copy_file, spawn.
  destruct (existsb _ _); [|split; [now repeat split | now left]].
  pose proof (cp_effect w n ks ds ts Hn Hs Hls) as (He & _ & Hw).
  destruct (cp w _ _) as [w1 st]. simpl in *.
  split; [exact He | exact Hw].
Qed.

Lemma sync_file_effect w n ks ds ts :
  name_ok n ->
  dir_of w abs_src = Some ks ->
  lookup (w_fs w) (ks ++ [n]) = Some (Reg ds ts) ->
  let w' := fst (sync_file w abs_src abs_dst n) in
  env_eq w w' /\
  (w_fs w' = w_fs w \/
   exists k, target_of w n k /\ k <> ks ++ [n] /\ wrote w w' k).
Proof.
  intros Hn Hs Hls. unfold sync_file.
  destruct (negb (file_exists w _)).
  - rewrite Decision.copy_file_eta. simpl.
    exact (copy_file_effect w n ks ds ts Hn Hs Hls).
  - destruct (files_are_different_world w
                (snprintf_path MAX_PATH abs_src n)
                (snprintf_path MAX_PATH abs_dst n)) as [c Hc].
    destruct (files_are_different w _ _) as [w1 different].
    simpl in Hc. subst w1.
    destruct (different =? 0)%Z; [split; [now repeat split | now left]|].
    destruct (source_is_newer _ _ _); [|split; [now repeat split | now left]].
    rewrite Decision.copy_file_eta. simpl.
    exact (copy_file_effect (add_child w c) n ks ds ts Hn Hs Hls).
Qed.

Lemma same_dirs_refl f : same_dirs f f.
Proof. now intros k. Qed.

Lemma same_dirs_trans f1 f2 f3 :
  same_dirs f1 f2 -> same_dirs f2 f3 -> same_dirs f1 f3.
Proof. intros H1 H2 k. now rewrite H2, H1. Qed.

(** What a write means for the table. *)
Lemma wrote_props w w' k :
  wrote w w' k ->
  same_dirs (w_fs w) (w_fs w') /\
  (forall k', k' <> k -> lookup (w_fs w') k' = lookup (w_fs w) k') /\
  lookup (w_fs w') k <> None.
Proof.
  intros (Hd & Hne & data & ->). split; [|split].
  - now apply same_dirs_put_reg.
  - intros k' H. now apply lookup_put_other.
  - now rewrite lookup_put_same.
Qed.

Lemma target_not_source w n k ks :
  target_of w n k -> k <> ks ++ [n] -> forall m, k <> ks ++ [m].
Proof.
  intros (kd & _ & [-> | ->]) Hne m H.
  - apply app_inj_tail in H as [-> ->]. now apply Hne.
  - change [n; n] with ([n] ++ [n]) in *. rewrite app_assoc in *.
    apply app_inj_tail in H as [H ->]. apply Hne. now rewrite H.
Qed.

(** The frame of the whole loop. *)
Lemma sync_loop_frame ks files :
  forall w,
    Forall name_ok files ->
    dir_of w abs_src = Some ks ->
    (forall n, In n files ->
       exists ds ts, lookup (w_fs w) (ks ++ [n]) = Some (Reg ds ts)) ->
    let w' := fst (sync_loop w abs_src abs_dst files) in
    env_eq w w' /\
    same_dirs (w_fs w) (w_fs w') /\
    (forall k, lookup (w_fs w') k <> lookup (w_fs w) k ->
       exists n, In n files /\ target_of w n k) /\
    (forall k, lookup (w_fs w) k <> None -> lookup (w_fs w') k <> None) /\
    (forall m, lookup (w_fs w') (ks ++ [m]) = lookup (w_fs w) (ks ++ [m])) /\
    children (w_fs w') ks = children (w_fs w) ks.
Proof.
  induction files as [|n rest IH]; intros w Hok Hs Hreg; simpl.
  - split; [apply env_eq_refl|]. split; [apply same_dirs_refl|].
    split; [now intros k H|]. split; [now intros k H|].
    split; reflexivity.
  - inversion Hok as [|? ? Hn Hrest]; subst.
    destruct (Hreg n (or_introl eq_refl)) as (ds & ts & Hls).
    pose proof (sync_file_effect w n ks ds ts Hn Hs Hls) as [He Hw].
    destruct (sync_file w abs_src abs_dst n) as [w1 out1]. simpl in He, Hw.
    assert (H1 : same_dirs (w_fs w) (w_fs w1) /\
                 (forall k, lookup (w_fs w1) k <> lookup (w_fs w) k ->
                            target_of w n k) /\
                 (forall k, lookup (w_fs w) k <> None ->
                            lookup (w_fs w1) k <> None) /\
                 (forall m, lookup (w_fs w1) (ks ++ [m]) =
                            lookup (w_fs w) (ks ++ [m])) /\
                 children (w_fs w1) ks = children (w_fs w) ks).
    { destruct Hw as [->|(k & Ht & Hne & Hwr)].
      - split; [apply same_dirs_refl|]. split; [now intros k H|].
        split; [now intros k H|]. split; reflexivity.
      - destruct (wrote_props w w1 k Hwr) as (Hsd & Hoth & Hk).
        pose proof (target_not_source w n k ks Ht Hne) as Hns.
        split; [exact Hsd|]. split; [|split; [|split]].
        + intros k' H. destruct (path_eq_dec k' k) as [->|Hd]; [exact Ht|].
          now rewrite Hoth in H.
        + intros k' H. destruct (path_eq_dec k' k) as [->|Hd]; [exact Hk|].
          now rewrite Hoth.
        + intros m. apply Hoth. intros H. exact (Hns m (eq_sym H)).
        + destruct Hwr as (_ & _ & data & ->). now apply children_put. }
    destruct H1 as (Hsd & Hch & Hkeep & Hsrc & Hls1).
    assert (Hs1 : dir_of w1 abs_src = Some ks)
      by (rewrite (dir_of_stable w w1 abs_src Hsd (proj1 He)); exact Hs).
    assert (Hreg1 : forall m, In m rest ->
              exists ds ts, lookup (w_fs w1) (ks ++ [m]) = Some (Reg ds ts)).
    { intros m Hm. rewrite Hsrc. apply Hreg. now right. }
    specialize (IH w1 Hrest Hs1 Hreg1).
    destruct (sync_loop w1 abs_src abs_dst rest) as [w2 out2].
    simpl in *. destruct IH as (He2 & Hsd2 & Hch2 & Hkeep2 & Hsrc2 & Hls2).
    split; [exact (env_eq_trans _ _ _ He He2)|].
    split; [exact (same_dirs_trans _ _ _ Hsd Hsd2)|].
    split; [|split; [|split; [|congruence]]].
    + intros k H.
      destruct (option_eq_dec_node (lookup (w_fs w2) k) (lookup (w_fs w1) k))
        as [E|E].
      * rewrite E in H. exists n. split; [now left | now apply Hch].
      * destruct (Hch2 k E) as (m & Hm & kd & Hkd & Hk).
        exists m. split; [now right|]. exists kd. split; [|exact Hk].
        now rewrite <- (dir_of_stable w w1 abs_dst Hsd (proj1 He)).
    + intros k H. now apply Hkeep2, Hkeep.
    + intros m. now rewrite Hsrc2, Hsrc.
Qed.

End Roots.

End Engine.

(** ** What a run writes *)

Module Frame.
Import CStr Fs Os FileSync Spec CStrFacts FsFacts Engine Aux.


(** *** Creating directories only adds directories *)

Lemma grows_refl w : grows w w.
Proof. split; [apply env_eq_refl | now left]. Qed.

Lemma grows_trans w1 w2 w3 : grows w1 w2 -> grows w2 w3 -> grows w1 w3.
Proof.
  intros [E1 H1] [E2 H2]. split; [exact (env_eq_trans _ _ _ E1 E2)|].
  intros k. destruct (H2 k) as [->|[N2 D2]]; [apply H1|].
  right. destruct (H1 k) as [E|[N1 D1]]; [|congruence].
  split; [congruence|]. rewrite D2. f_equal. f_equal. apply E1.
Qed.

Lemma creat_at_free w start cs k :
  creat_at w start cs = Some k -> lookup (w_fs w) k = None /\ k <> [].
Proof.
  unfold creat_at.
  destruct (split_last cs) as [[front name]|]; [|discriminate].
  destruct (walk _ _ front) as [d|]; [|discriminate].
  destruct (_ && _); [|discriminate].
  destruct (lookup (w_fs w) (d ++ [name])) eqn:E; [discriminate|].
  intros [= <-]. split; [exact E | now destruct d].
Qed.

Lemma mkdir_grows w p : grows w (fst (mkdir w p)).
Proof.
  unfold mkdir. destruct p as [|c p]; [apply grows_refl|].
  destruct (creat_at w _ _) as [k|] eqn:E; [|apply grows_refl].
  apply creat_at_free in E as [Hk Hne]. simpl.
  split; [now repeat split|].
  intros k'. destruct (path_eq_dec k' k) as [->|Hd].
  - right. split; [exact Hk|]. now apply lookup_put_same.
  - left. now apply lookup_put_other.
Qed.

Lemma mkdir_p_loop_grows rest :
  forall w done, grows w (mkdir_p_loop w done rest).
Proof.
  induction rest as [|c rest IH]; intros w done; simpl; [apply grows_refl|].
  eapply grows_trans; [|apply IH].
  destruct (is_slash c); [apply mkdir_grows | apply grows_refl].
Qed.

Lemma mkdir_p_grows w p : grows w (mkdir_p w p).
Proof.
  unfold mkdir_p.
  destruct (match last_char p with
            | Some c => if is_slash c then drop_last p else p
            | None => p
            end) as [|c0 rest].
  - apply mkdir_grows.
  - eapply grows_trans; [apply mkdir_p_loop_grows | apply mkdir_grows].
Qed.

Lemma resolve_destination_grows w arg :
  grows w (fst (fst (resolve_destination w arg))).
Proof.
  unfold resolve_destination.
  destruct (realpath w arg); simpl; [apply grows_refl | apply mkdir_p_grows].
Qed.

(** *** The run from loop entry on *)

Lemma path_str_nonempty k : path_str k <> "".
Proof. destruct k as [|c k]; discriminate. Qed.

Lemma realpath_nonempty w p s : realpath w p = Some s -> s <> "".
Proof.
  unfold realpath. destruct (namei w p) as [[k n]|]; [|discriminate].
  intros [= <-]. apply path_str_nonempty.
Qed.

(** From loop entry on, the run is the loop over the sorted candidates. *)
Lemma loop_entry_run w argv w1 abs_src abs_dst :
  loop_entry w argv = Some (w1, abs_src, abs_dst) ->
  w1 = fst (fst (resolve_destination w (nth 2 argv ""))) /\
  list_regular_files w1 abs_src = Some (candidates w argv) /\
  r_world (main w argv) =
    fst (sync_loop w1 abs_src abs_dst (qsort (candidates w argv))) /\
  abs_src <> "" /\
  (within_buffers w argv = true -> abs_dst <> "").
Proof.
  unfold loop_entry, main, engine, candidates, within_buffers.
  destruct argv as [|a0 [|a1 [|a2 [|a3 rest]]]]; try discriminate.
  destruct (realpath w a1) as [s|] eqn:Es; [|discriminate].
  pose proof (realpath_nonempty w a1 s Es) as Hs.
  assert (Hd : forall d, (String.length s <? MAX_PATH)%nat &&
                 match realpath w a2 with
                 | Some abs_dst0 => (String.length abs_dst0 <? MAX_PATH)%nat
                 | None => negb (String.eqb a2 "") &&
                           (String.length a2 <? MAX_PATH)%nat
                 end = true ->
               snd (fst (resolve_destination w a2)) = d -> d <> "").
  { intros d Hb <-. unfold resolve_destination.
    destruct (realpath w a2) as [d2|] eqn:Ed; simpl.
    - exact (realpath_nonempty w a2 d2 Ed).
    - apply andb_true_iff in Hb as [_ Hb].
      apply andb_true_iff in Hb as [Hb _].
      apply negb_true_iff, String.eqb_neq in Hb. exact Hb. }
  simpl nth.
  destruct (resolve_destination w a2) as [[w1' d] out1]. cbn [fst snd] in *.
  destruct (getcwd w1' MAX_PATH) as [cwd|] eqn:Ec; [|discriminate].
  destruct (list_regular_files w1' s) as [files|] eqn:El; [|discriminate].
  intros [= <- <- <-]. rewrite El.
  destruct (sync_loop w1' s d (qsort files)) as [w2 out3].
  split; [reflexivity|]. split; [reflexivity|]. split; [reflexivity|].
  split; [exact Hs|]. intros Hb. now apply (Hd d).
Qed.

Lemma fits_name_ok abs_src abs_dst n :
  valid_name n = true -> fits abs_src abs_dst n = true ->
  name_ok abs_src abs_dst n.
Proof.
  unfold fits, name_ok. intros Hv H.
  apply andb_true_iff in H as [H1 H2].
  apply Nat.ltb_lt in H1, H2. now repeat split.
Qed.

(** A candidate is a regular file directly inside the source root. *)
Lemma candidate_regular w abs_src abs_dst ks files n :
  abs_src <> "" ->
  list_regular_files w abs_src = Some files ->
  dir_of w abs_src = Some ks ->
  In n files -> name_ok abs_src abs_dst n ->
  exists ds ts, lookup (w_fs w) (ks ++ [n]) = Some (Reg ds ts).
Proof.
  intros Hne Hl Hks Hin Hn.
  apply Basic.list_regular_files_eq in Hl as (k & t & _ & ->).
  apply Basic.in_kept in Hin as [_ Hk].
  unfold keeps in Hk. apply andb_true_iff in Hk as [_ Hk].
  rewrite (src_file_eq abs_src abs_dst n Hn) in Hk.
  unfold is_regular_file, stat in Hk.
  rewrite (namei_under w abs_src n Hne (proj1 Hn)), Hks in Hk.
  destruct (lookup (w_fs w) (ks ++ [n])) as [[ds ts|ts]|]; try discriminate.
  now exists ds, ts.
Qed.

Lemma qsort_in l n : In n (qsort l) <-> In n l.
Proof.
  split; intros H.
  - exact (Permutation_in _ (Permutation_sym (Order.qsort_perm l)) H).
  - exact (Permutation_in _ (Order.qsort_perm l) H).
Qed.

(** The frame of a run in the model, where a directory keeps its stamp:
    what differs after the loop is a target of a candidate, and what differs
    before it is a new directory. *)
Lemma run_frame (w : world) (argv : list string) (w1 : world)
    (abs_src abs_dst : string) (ks : path) :
  wf_fs (w_fs w) = true ->
  within_buffers w argv = true ->
  paths_fit w argv = true ->
  loop_entry w argv = Some (w1, abs_src, abs_dst) ->
  dir_of w1 abs_src = Some ks ->
  let w2 := r_world (main w argv) in
  (forall k, lookup (w_fs w2) k <> lookup (w_fs w1) k ->
     exists kd n, dir_of w1 abs_dst = Some kd /\
                  In n (candidates w argv) /\
                  (k = kd ++ [n] \/ k = kd ++ [n; n])) /\
  (forall kd m, dir_of w1 abs_dst = Some kd ->
     ~ In m (candidates w argv) ->
     lookup (w_fs w2) (kd ++ [m]) = lookup (w_fs w1) (kd ++ [m])) /\
  (forall k, lookup (w_fs w) k <> None -> lookup (w_fs w2) k <> None) /\
  (forall n, lookup (w_fs w2) (ks ++ [n]) = lookup (w_fs w1) (ks ++ [n])) /\
  (forall k, lookup (w_fs w1) k <> lookup (w_fs w) k ->
     lookup (w_fs w) k = None /\ exists t, lookup (w_fs w1) k = Some (Dir t)).
Proof.
  intros Hwf Hbuf Hfit Hentry Hks w2. subst w2.
  pose proof (loop_entry_run w argv w1 abs_src abs_dst Hentry)
    as (Hw1 & Hfiles & -> & Hsne & Hdne).
  specialize (Hdne Hbuf).
  pose proof (Order.candidates_valid w argv Hwf) as Hvalid.
  unfold paths_fit in Hfit. rewrite Hentry in Hfit.
  rewrite forallb_forall in Hfit. rewrite Forall_forall in Hvalid.
  assert (Hok : forall n, In n (candidates w argv) -> name_ok abs_src abs_dst n).
  { intros n Hn. apply fits_name_ok; [now apply Hvalid | now apply Hfit]. }
  assert (Hgrow : grows w w1)
    by (rewrite Hw1; apply resolve_destination_grows).
  destruct (sync_loop_frame abs_src abs_dst Hsne Hdne ks
              (qsort (candidates w argv)) w1)
    as (He & Hsd & Hch & Hkeep & Hsrc & _).
  { apply Forall_forall. intros n Hn. apply Hok.
    exact (proj1 (qsort_in _ _) Hn). }
  { exact Hks. }
  { intros n Hn. apply (proj1 (qsort_in _ _)) in Hn.
    exact (candidate_regular w1 abs_src abs_dst ks _ n Hsne Hfiles Hks Hn
             (Hok n Hn)). }
  assert (Hch' : forall k,
            lookup (w_fs (fst (sync_loop w1 abs_src abs_dst
                                 (qsort (candidates w argv))))) k <>
            lookup (w_fs w1) k ->
            exists kd n, dir_of w1 abs_dst = Some kd /\
                         In n (candidates w argv) /\
                         (k = kd ++ [n] \/ k = kd ++ [n; n])).
  { intros k H. destruct (Hch k H) as (n & Hn & kd & Hkd & Hk).
    exists kd, n. split; [exact Hkd|].
    split; [exact (proj1 (qsort_in _ _) Hn) | exact Hk]. }
  split; [exact Hch'|]. split; [|split; [|split]].
  - intros kd m Hkd Hm.
    destruct (option_eq_dec_node
                (lookup (w_fs (fst (sync_loop w1 abs_src abs_dst
                                      (qsort (candidates w argv)))))
                        (kd ++ [m]))
                (lookup (w_fs w1) (kd ++ [m]))) as [E|E]; [exact E|].
    exfalso. destruct (Hch' _ E) as (kd' & n & Hkd' & Hn & Hk).
    rewrite Hkd in Hkd'. injection Hkd' as <-.
    destruct Hk as [Hk|Hk].
    + apply app_inj_tail in Hk as [_ ->]. now apply Hm.
    + change [n; n] with ([n] ++ [n]) in Hk. rewrite app_assoc in Hk.
      apply app_inj_tail in Hk as [_ ->]. now apply Hm.
  - intros k H. apply Hkeep. destruct Hgrow as [_ Hg].
    destruct (Hg k) as [->|[N _]]; [exact H | congruence].
  - exact Hsrc.
  - intros k H. destruct Hgrow as [_ Hg].
    destruct (Hg k) as [E|[N D]]; [congruence|]. split; [exact N|].
    eexists. exact D.
Qed.

Lemma same_entry_refl a : same_entry a a.
Proof. now destruct a as [[d t|t]|]. Qed.


End Frame.

(** ** Running the engine twice *)

Module Idem.
Import CStr Fs Os FileSync Spec CStrFacts FsFacts Engine Aux.


Section Roots.

Variables abs_src abs_dst : string.
Hypothesis src_nonempty : abs_src <> "".
Hypothesis dst_nonempty : abs_dst <> "".

Local Abbreviation src_file n := (snprintf_path MAX_PATH abs_src n).
Local Abbreviation dst_file n := (snprintf_path MAX_PATH abs_dst n).
Local Abbreviation name_ok := (Aux.name_ok abs_src abs_dst).
Local Abbreviation verdict_in := (Aux.verdict_in abs_src abs_dst).
Local Abbreviation settled := (Aux.settled abs_src abs_dst).
Local Abbreviation diff_child := (Aux.diff_child abs_src abs_dst).
Local Abbreviation cp_child := (Aux.cp_child abs_src abs_dst).
Local Abbreviation loop_inv := (Aux.loop_inv abs_src).

Lemma verdict_in_ext u u' n :
  w_fs u' = w_fs u -> w_cwd u' = w_cwd u ->
  verdict_in u' n = verdict_in u n.
Proof.
  intros Hf Hc. unfold verdict_in, dir_of, resolve, start_dir.
  now rewrite Hf, Hc.
Qed.

Lemma settled_ext u u' nd :
  w_fs u' = w_fs u -> w_cwd u' = w_cwd u -> settled u nd -> settled u' nd.
Proof.
  intros Hf Hc. unfold settled.
  now rewrite (verdict_in_ext u u' (fst nd) Hf Hc).
Qed.

Lemma installed_diff u :
  installed u = true ->
  existsb (String.eqb "/usr/bin/diff") (w_execs u) = true.
Proof. unfold installed. intros H. now apply andb_true_iff in H. Qed.

Lemma installed_cp u :
  installed u = true ->
  existsb (String.eqb "/bin/cp") (w_execs u) = true.
Proof. unfold installed. intros H. now apply andb_true_iff in H. Qed.

(** The loop body where both entries exist: the comparison runs, and the
    file is copied exactly when it differs and the source is newer. *)
Lemma sync_file_existing u n v b :
  name_ok n -> installed u = true ->
  verdict_in u n = Some (v, b) ->
  sync_file u abs_src abs_dst n =
  let u1 := add_child u (diff_child n v) in
  if (v =? 0)%Z then (u1, [Identical n])
  else if b then
    (fst (copy_file u1 (src_file n) (dst_file n)),
     [NewerInSource n; Copied (src_file n) (dst_file n)])
  else (u1, [NewerInDestination n]).
Proof.
  intros Hn Hi Hv. unfold verdict_in in Hv.
  destruct (dir_of u abs_src) as [ks|] eqn:Hs; [|discriminate].
  destruct (dir_of u abs_dst) as [kd|] eqn:Hd; [|discriminate].
  destruct (lookup (w_fs u) (ks ++ [n])) as [[ds ts|ts]|] eqn:Hls;
    try discriminate.
  destruct (lookup (w_fs u) (kd ++ [n])) as [dn|] eqn:Hld; [|discriminate].
  injection Hv as <- <-.
  unfold sync_file.
  rewrite (file_exists_dst abs_src abs_dst dst_nonempty u n Hn), Hd, Hld.
  cbn [negb].
  rewrite (Decision.files_are_different_found u _ _ (installed_diff u Hi)).
  rewrite (diff_status_sem abs_src abs_dst src_nonempty dst_nonempty
             u n ks kd ds ts dn Hn Hs Hls Hd Hld).
  fold (diff_child n (diff_verdict ds dn (lookup (w_fs u) (kd ++ [n; n])))).
  set (u1 := add_child u _).
  rewrite (source_is_newer_sem abs_src abs_dst src_nonempty dst_nonempty
             u1 n ks kd ds ts dn Hn Hs Hls Hd Hld).
  cbv zeta.
  destruct (_ =? 0)%Z; [reflexivity|].
  destruct (tv_sec (node_mtime dn) <? tv_sec ts)%Z; [|reflexivity].
  now rewrite Decision.copy_file_eta.
Qed.

(** In a settled state the loop body only announces its decision. *)
Lemma sync_file_settled u nd :
  name_ok (fst nd) -> installed u = true -> settled u nd ->
  exists c,
    sync_file u abs_src abs_dst (fst nd) =
    (add_child u c, [decision_line (fst nd) (snd (settle nd))]).
Proof.
  intros Hn Hi Hs. destruct nd as [n d]. unfold settled in Hs. simpl in *.
  destruct d.
  - destruct Hs as [b Hv]. eexists.
    rewrite (sync_file_existing u n 0 b Hn Hi Hv). reflexivity.
  - destruct Hs as [b Hv]. eexists.
    rewrite (sync_file_existing u n 0 b Hn Hi Hv). reflexivity.
  - destruct Hs as [b Hv]. eexists.
    rewrite (sync_file_existing u n 0 b Hn Hi Hv). reflexivity.
  - destruct Hs as (v & Hv & Hne). eexists.
    rewrite (sync_file_existing u n v false Hn Hi Hv).
    apply Z.eqb_neq in Hne. rewrite Hne. reflexivity.
Qed.

(** *** The first run *)

Lemma cp_children u src dst : w_children (fst (cp u src dst)) = w_children u.
Proof.
  unfold cp, cp_onto, write_file.
  repeat match goal with
         | |- context [match ?x with _ => _ end] => destruct x
         end; reflexivity.
Qed.

Lemma copy_file_installed u src dst :
  installed u = true ->
  fst (copy_file u src dst) =
  add_child (fst (cp u src dst))
            (mkChild "/bin/cp" ["cp"; src; dst] true (snd (cp u src dst))).
Proof.
  intros Hi. unfold copy_file, spawn. rewrite (installed_cp u Hi).
  now destruct (cp u src dst).
Qed.

Lemma new_children_app u u' cs :
  w_children u' = w_children u ++ cs -> new_children u u' = cs.
Proof.
  intros H. unfold new_children. rewrite H.
  rewrite skipn_app, Nat.sub_diag, skipn_all. reflexivity.
Qed.

Lemma diff_verdict_same ds t inner : diff_verdict ds (Reg ds t) inner = 0%Z.
Proof. simpl. now rewrite String.eqb_refl. Qed.

(** A copy that succeeds leaves the two files equal. *)
Lemma cp_settles u n ks ds ts :
  name_ok n ->
  dir_of u abs_src = Some ks ->
  lookup (w_fs u) (ks ++ [n]) = Some (Reg ds ts) ->
  snd (cp u (src_file n) (dst_file n)) = 0%Z ->
  exists b, verdict_in (fst (cp u (src_file n) (dst_file n))) n = Some (0%Z, b).
Proof.
  intros Hn Hs Hls.
  rewrite (cp_sem abs_src abs_dst src_nonempty dst_nonempty u n ks ds ts
             Hn Hs Hls).
  destruct (dir_of u abs_dst) as [kd|] eqn:Hd; [|discriminate].
  destruct (cp_target _ _ _ _ _) as [k|] eqn:Ht; [|discriminate].
  intros Hst. apply Transfer.write_file_status in Hst.
  unfold write_file. cbn [fst]. rewrite (substring_all _ _ Hst).
  set (u' := set_fs u (put (w_fs u) k (Reg ds (w_now u)))).
  apply cp_target_props in Ht.
  assert (Hk : dir_at (w_fs u) k = false /\ k <> ks ++ [n]).
  { unfold dir_at.
    destruct Ht as [[-> Hl]|[[-> [Hne (d & t & Hl)]]|[-> [Hne [_ [Hl|(d & t & Hl)]]]]]];
      rewrite Hl; (split; [reflexivity|]); try exact Hne.
    intros E. rewrite E in Hl. congruence. }
  destruct Hk as [Hdir Hks].
  pose proof (same_dirs_put_reg (w_fs u) k ds (w_now u) Hdir) as Hsd.
  unfold verdict_in.
  rewrite (dir_of_stable u u' abs_src Hsd eq_refl), Hs.
  rewrite (dir_of_stable u u' abs_dst Hsd eq_refl), Hd.
  subst u'. cbn [w_fs set_fs].
  rewrite (lookup_put_other _ k _ (ks ++ [n])) by congruence.
  rewrite Hls.
  destruct Ht as [[-> Hl]|[[-> [_ (d & t & Hl)]]|[-> [_ [(t & Hl) _]]]]].
  - rewrite lookup_put_same by (now destruct kd).
    rewrite diff_verdict_same. now eexists.
  - rewrite lookup_put_same by (now destruct kd).
    rewrite diff_verdict_same. now eexists.
  - assert (Hne : kd ++ [n] <> kd ++ [n; n]).
    { intros E. apply (f_equal (@length string)) in E.
      rewrite !length_app in E. simpl in E. lia. }
    rewrite (lookup_put_other _ _ _ (kd ++ [n])) by exact Hne.
    rewrite Hl, lookup_put_same by (now destruct kd).
    cbn [diff_verdict]. rewrite String.eqb_refl. now eexists.
Qed.

(** A copy made by [copy_file] whose child did not fail settles its
    file. *)
Lemma copy_file_settles u u0 n ks ds ts pre d :
  name_ok n -> installed u = true ->
  dir_of u abs_src = Some ks ->
  lookup (w_fs u) (ks ++ [n]) = Some (Reg ds ts) ->
  w_children u = w_children u0 ++ pre ->
  no_failures u0 (fst (copy_file u (src_file n) (dst_file n))) = true ->
  transfers d = true ->
  settled (fst (copy_file u (src_file n) (dst_file n))) (n, d).
Proof.
  intros Hn Hi Hs Hls Hpre Hnf Hd.
  rewrite (copy_file_installed u _ _ Hi) in *.
  assert (Hst : snd (cp u (src_file n) (dst_file n)) = 0%Z).
  { unfold no_failures in Hnf.
    rewrite (new_children_app u0 _ (pre ++ [cp_child n (snd (cp u (src_file n) (dst_file n)))]))
      in Hnf
      by (cbn [w_children add_child]; rewrite cp_children, Hpre;
          now rewrite app_assoc).
    rewrite forallb_app in Hnf. apply andb_true_iff in Hnf as [_ Hnf].
    cbn in Hnf. rewrite andb_true_r in Hnf.
    apply negb_true_iff, negb_false_iff in Hnf.
    now apply Z.eqb_eq in Hnf. }
  destruct (cp_settles u n ks ds ts Hn Hs Hls Hst) as [b Hv].
  assert (Hset : exists b, verdict_in
            (add_child (fst (cp u (src_file n) (dst_file n)))
               (mkChild "/bin/cp" ["cp"; src_file n; dst_file n] true
                        (snd (cp u (src_file n) (dst_file n))))) n =
            Some (0%Z, b)).
  { exists b. exact Hv. }
  unfold settled. cbn [fst snd]. now destruct d.
Qed.

(** One pass of the first run: it announces one decision and, when none
    of its children fails, leaves its file settled. *)
Lemma sync_file_first u n ks ds ts :
  name_ok n -> installed u = true ->
  dir_of u abs_src = Some ks ->
  lookup (w_fs u) (ks ++ [n]) = Some (Reg ds ts) ->
  no_failures u (fst (sync_file u abs_src abs_dst n)) = true ->
  exists d,
    decisions (snd (sync_file u abs_src abs_dst n)) = [(n, d)] /\
    settled (fst (sync_file u abs_src abs_dst n)) (n, d).
Proof.
  intros Hn Hi Hs Hls.
  destruct (verdict_in u n) as [[v b]|] eqn:Hv.
  - rewrite (sync_file_existing u n v b Hn Hi Hv). cbv zeta.
    destruct (v =? 0)%Z eqn:Ev.
    + intros _. exists SkipIdentical. split; [reflexivity|].
      apply Z.eqb_eq in Ev. subst v. exists b. exact Hv.
    + destruct b.
      * intros Hnf. exists CopyUpdate. split; [reflexivity|]. cbn [fst] in *.
        apply (copy_file_settles (add_child u (diff_child n v)) u n ks ds ts
                 [diff_child n v] CopyUpdate Hn Hi Hs Hls eq_refl Hnf eq_refl).
      * intros _. exists SkipDestinationNewer. split; [reflexivity|].
        exists v. split; [exact Hv | now apply Z.eqb_neq].
  - assert (Hex : file_exists u (dst_file n) = false).
    { rewrite (file_exists_dst abs_src abs_dst dst_nonempty u n Hn).
      unfold verdict_in in Hv. rewrite Hs, Hls in Hv.
      destruct (dir_of u abs_dst) as [kd|]; [|reflexivity].
      now destruct (lookup (w_fs u) (kd ++ [n])). }
    unfold sync_file. rewrite Hex. cbn [negb].
    rewrite Decision.copy_file_eta. cbn [fst snd].
    intros Hnf. exists CopyNew. split; [reflexivity|].
    apply (copy_file_settles u u n ks ds ts [] CopyNew Hn Hi Hs Hls
             (eq_sym (app_nil_r _)) Hnf eq_refl).
Qed.

(** *** What a pass keeps *)

Lemma spawn_children u prog args body :
  (forall u0, w_children (fst (body u0)) = w_children u0) ->
  exists c, w_children (fst (spawn u prog args body)) = w_children u ++ [c].
Proof.
  intros H. unfold spawn. destruct (existsb _ _).
  - specialize (H u). destruct (body u) as [u' st]. cbn [fst] in *.
    eexists. cbn [w_children add_child]. now rewrite H.
  - eexists. reflexivity.
Qed.

Lemma copy_file_children u src dst :
  exists c, w_children (fst (copy_file u src dst)) = w_children u ++ [c].
Proof.
  destruct (spawn_children u "/bin/cp" ["cp"; src; dst]
              (fun u0 => cp u0 src dst)) as [c Hc].
  - intros u0. apply cp_children.
  - exists c. unfold copy_file. now destruct (spawn _ _ _ _).
Qed.

Lemma sync_file_children u n :
  exists cs,
    w_children (fst (sync_file u abs_src abs_dst n)) = w_children u ++ cs.
Proof.
  unfold sync_file. destruct (negb _).
  - rewrite Decision.copy_file_eta. cbn [fst].
    destruct (copy_file_children u (src_file n) (dst_file n)) as [c Hc].
    now exists [c].
  - destruct (files_are_different_world u (src_file n) (dst_file n))
      as [c Hc].
    destruct (files_are_different u _ _) as [u1 different].
    cbn [fst] in Hc. subst u1.
    destruct (different =? 0)%Z; [now exists [c]|].
    destruct (source_is_newer _ _ _); [|now exists [c]].
    rewrite Decision.copy_file_eta. cbn [fst].
    destruct (copy_file_children (add_child u c) (src_file n) (dst_file n))
      as [c2 Hc2].
    exists [c; c2]. rewrite Hc2. cbn [w_children add_child].
    now rewrite <- app_assoc.
Qed.

Lemma sync_loop_children files :
  forall u, exists cs,
    w_children (fst (sync_loop u abs_src abs_dst files)) = w_children u ++ cs.
Proof.
  induction files as [|n rest IH]; intros u; simpl.
  - exists []. now rewrite app_nil_r.
  - destruct (sync_file_children u n) as [cs1 H1].
    destruct (sync_file u abs_src abs_dst n) as [u1 o1]. cbn [fst] in H1.
    destruct (IH u1) as [cs2 H2].
    destruct (sync_loop u1 abs_src abs_dst rest) as [u2 o2]. cbn [fst] in *.
    exists (cs1 ++ cs2). now rewrite H2, H1, app_assoc.
Qed.

Lemma no_failures_split u u1 u2 cs1 cs2 :
  w_children u1 = w_children u ++ cs1 ->
  w_children u2 = w_children u1 ++ cs2 ->
  no_failures u u2 = true ->
  no_failures u u1 = true /\ no_failures u1 u2 = true.
Proof.
  intros H1 H2. unfold no_failures.
  rewrite (new_children_app u u1 cs1 H1), (new_children_app u1 u2 cs2 H2).
  rewrite (new_children_app u u2 (cs1 ++ cs2))
    by (now rewrite H2, H1, app_assoc).
  rewrite forallb_app. apply andb_true_iff.
Qed.

Lemma verdict_in_frame u u' n' n ks k :
  same_dirs (w_fs u) (w_fs u') -> w_cwd u' = w_cwd u ->
  dir_of u abs_src = Some ks ->
  (forall k', k' <> k -> lookup (w_fs u') k' = lookup (w_fs u) k') ->
  target_of abs_dst u n' k -> k <> ks ++ [n'] -> n' <> n ->
  verdict_in u' n = verdict_in u n.
Proof.
  intros Hsd Hc Hs Hoth Ht Hne Hnn. unfold verdict_in.
  rewrite (dir_of_stable u u' abs_src Hsd Hc), Hs.
  rewrite (dir_of_stable u u' abs_dst Hsd Hc).
  pose proof (target_not_source abs_dst u n' k ks Ht Hne) as Hns.
  destruct Ht as (kd & Hd & Hk). rewrite Hd.
  assert (L : forall a b : string, kd ++ [a] <> kd ++ [b; b]).
  { intros a b E. apply (f_equal (@length string)) in E.
    rewrite !length_app in E. simpl in E. lia. }
  rewrite (Hoth (ks ++ [n])) by (intros E; exact (Hns n (eq_sym E))).
  rewrite (Hoth (kd ++ [n])).
  2: { destruct Hk as [-> | ->]; [|apply L].
       intros E. apply app_inj_tail in E as [_ E]. congruence. }
  rewrite (Hoth (kd ++ [n; n])).
  2: { destruct Hk as [-> | ->]; [intros E; exact (L _ _ (eq_sym E))|].
       intros E. change [n; n] with ([n] ++ [n]) in E.
       change [n'; n'] with ([n'] ++ [n']) in E.
       rewrite !app_assoc in E. apply app_inj_tail in E as [_ E].
       congruence. }
  reflexivity.
Qed.

Lemma sync_file_keeps u n ks names :
  name_ok n -> In n names -> loop_inv ks names u ->
  loop_inv ks names (fst (sync_file u abs_src abs_dst n)) /\
  forall nd, name_ok (fst nd) -> settled u nd ->
             settled (fst (sync_file u abs_src abs_dst n)) nd.
Proof.
  intros Hn Hin (Hi & Hs & Hreg).
  destruct (Hreg n Hin) as (ds & ts & Hls).
  pose proof (sync_file_effect abs_src abs_dst src_nonempty dst_nonempty
                u n ks ds ts Hn Hs Hls) as [He Hw].
  cbv zeta in He, Hw.
  set (u' := fst (sync_file u abs_src abs_dst n)) in *.
  assert (Hi' : installed u' = true).
  { unfold installed in *. destruct He as (_ & _ & _ & -> & _). exact Hi. }
  destruct Hw as [Hf|(k & Ht & Hne & Hwr)].
  - split.
    + split; [exact Hi'|]. split.
      * rewrite (dir_of_stable u u' abs_src); [exact Hs| |apply He].
        intros k. now rewrite Hf.
      * intros m Hm. rewrite Hf. now apply Hreg.
    + intros nd _. apply settled_ext; [exact Hf | apply He].
  - destruct (wrote_props u u' k Hwr) as (Hsd & Hoth & _).
    pose proof (target_not_source abs_dst u n k ks Ht Hne) as Hns.
    split.
    + split; [exact Hi'|]. split.
      * rewrite (dir_of_stable u u' abs_src Hsd (proj1 He)). exact Hs.
      * intros m Hm. rewrite Hoth by (intros E; exact (Hns m (eq_sym E))).
        now apply Hreg.
    + intros nd Hnd Hset.
      destruct (string_dec n (fst nd)) as [E|E].
      * destruct (sync_file_settled u nd Hnd Hi Hset) as [c Hc].
        subst u'. rewrite E, Hc. exact Hset.
      * unfold settled in *.
        now rewrite (verdict_in_frame u u' n (fst nd) ks k Hsd (proj1 He)
                       Hs Hoth Ht Hne E).
Qed.

Lemma sync_loop_keeps ks names files :
  forall u,
    Forall name_ok files -> incl files names -> loop_inv ks names u ->
    loop_inv ks names (fst (sync_loop u abs_src abs_dst files)) /\
    forall nd, name_ok (fst nd) -> settled u nd ->
               settled (fst (sync_loop u abs_src abs_dst files)) nd.
Proof.
  induction files as [|n rest IH]; intros u Hok Hincl Hinv; simpl.
  - split; [exact Hinv | now intros nd _ H].
  - inversion Hok as [|? ? Hn Hrest]; subst.
    destruct (sync_file_keeps u n ks names Hn (Hincl n (or_introl eq_refl))
                Hinv) as [Hinv1 Hset1].
    destruct (sync_file u abs_src abs_dst n) as [u1 o1]. cbn [fst] in *.
    destruct (IH u1 Hrest (fun m Hm => Hincl m (or_intror Hm)) Hinv1)
      as [Hinv2 Hset2].
    destruct (sync_loop u1 abs_src abs_dst rest) as [u2 o2]. cbn [fst] in *.
    split; [exact Hinv2|]. intros nd Hnd H. now apply Hset2, Hset1.
Qed.

Lemma decisions_app a b : decisions (a ++ b) = decisions a ++ decisions b.
Proof.
  induction a as [|l a IH]; simpl; [reflexivity|].
  destruct (decision_of_line l); simpl; now rewrite IH.
Qed.

(** The first run: without failures, every decision leaves its file
    settled until the end of the loop. *)
Lemma sync_loop_first ks names files :
  forall u,
    Forall name_ok files -> incl files names -> loop_inv ks names u ->
    no_failures u (fst (sync_loop u abs_src abs_dst files)) = true ->
    map fst (decisions (snd (sync_loop u abs_src abs_dst files))) = files /\
    Forall (settled (fst (sync_loop u abs_src abs_dst files)))
           (decisions (snd (sync_loop u abs_src abs_dst files))).
Proof.
  induction files as [|n rest IH]; intros u Hok Hincl Hinv Hnf; simpl.
  - split; [reflexivity | constructor].
  - inversion Hok as [|? ? Hn Hrest]; subst.
    assert (Hin : In n names) by (apply Hincl; now left).
    assert (Hincl' : incl rest names) by (intros m Hm; apply Hincl; now right).
    destruct (sync_file_keeps u n ks names Hn Hin Hinv) as [Hinv1 _].
    destruct (sync_file_children u n) as [cs1 Hc1].
    destruct (sync_loop_children rest (fst (sync_file u abs_src abs_dst n)))
      as [cs2 Hc2].
    destruct Hinv as (Hi & Hs & Hreg).
    destruct (Hreg n Hin) as (ds & ts & Hls).
    pose proof (sync_file_first u n ks ds ts Hn Hi Hs Hls) as Hfirst.
    simpl in Hnf.
    destruct (sync_file u abs_src abs_dst n) as [u1 o1]. cbn [fst snd] in *.
    pose proof (sync_loop_keeps ks names rest u1 Hrest Hincl' Hinv1)
      as [_ Hset].
    specialize (IH u1 Hrest Hincl' Hinv1).
    destruct (sync_loop u1 abs_src abs_dst rest) as [u2 o2]. cbn [fst snd] in *.
    destruct (no_failures_split u u1 u2 cs1 cs2 Hc1 Hc2 Hnf) as [Hnf1 Hnf2].
    destruct (Hfirst Hnf1) as (d & Hd & Hsd).
    destruct (IH Hnf2) as [IH1 IH2].
    rewrite decisions_app, Hd. cbn [app map fst]. split.
    + now rewrite IH1.
    + constructor; [|exact IH2]. now apply Hset.
Qed.

(** The second run: in a world where every file is settled, the loop
    writes nothing and announces the settled decisions. *)
Lemma sync_loop_second decs :
  forall u,
    Forall name_ok (map fst decs) -> installed u = true ->
    Forall (settled u) decs ->
    w_fs (fst (sync_loop u abs_src abs_dst (map fst decs))) = w_fs u /\
    decisions (snd (sync_loop u abs_src abs_dst (map fst decs))) =
    map settle decs.
Proof.
  induction decs as [|nd rest IH]; intros u Hok Hi Hset; simpl.
  - split; reflexivity.
  - inversion Hok as [|? ? Hn Hrest]; subst.
    inversion Hset as [|? ? Hnd Hsr]; subst.
    destruct (sync_file_settled u nd Hn Hi Hnd) as [c Hc]. rewrite Hc.
    assert (Hset1 : Forall (settled (add_child u c)) rest).
    { apply Forall_forall. intros x Hx. rewrite Forall_forall in Hsr.
      exact (Hsr x Hx). }
    specialize (IH (add_child u c) Hrest Hi Hset1).
    destruct (sync_loop (add_child u c) abs_src abs_dst (map fst rest))
      as [u2 o2]. cbn [fst snd] in *.
    destruct IH as [IH1 IH2]. split; [exact IH1|].
    cbn [app decisions]. rewrite IH2.
    destruct nd as [n d]. now destruct d.
Qed.

(** The listing of the source root does not depend on what the loop
    wrote. *)
Lemma listing_stable u u' ks :
  dir_of u abs_src = Some ks ->
  same_dirs (w_fs u) (w_fs u') -> w_cwd u' = w_cwd u ->
  children (w_fs u') ks = children (w_fs u) ks ->
  (forall m, lookup (w_fs u') (ks ++ [m]) = lookup (w_fs u) (ks ++ [m])) ->
  (forall m, In m (children (w_fs u) ks) -> name_ok m) ->
  list_regular_files u' abs_src = list_regular_files u abs_src.
Proof.
  intros Hs Hsd Hc Hch Hl Hok.
  pose proof (dir_of_stable u u' abs_src Hsd Hc) as Hs'. rewrite Hs in Hs'.
  assert (Hopen : forall x, dir_of x abs_src = Some ks ->
            opendir x abs_src = Some ("." :: ".." :: children (w_fs x) ks)).
  { intros x Hx. unfold opendir, namei. unfold dir_of in Hx.
    destruct (resolve x abs_src) as [k|]; [|discriminate].
    unfold dir_at in Hx.
    destruct (lookup (w_fs x) k) as [[d t|t]|]; try discriminate.
    now injection Hx as ->. }
  unfold list_regular_files. rewrite (Hopen u Hs), (Hopen u' Hs'), Hch.
  f_equal. rewrite !Basic.collect_keeps by apply Basic.max_files_pos.
  f_equal. apply filter_ext_in. intros m Hm. unfold keeps.
  destruct Hm as [<-|[<-|Hm]]; [reflexivity | reflexivity |].
  f_equal. specialize (Hok m Hm).
  rewrite (src_file_eq abs_src abs_dst m Hok).
  unfold is_regular_file, stat.
  rewrite !(namei_under _ abs_src m src_nonempty (proj1 Hok)), Hs, Hs', Hl.
  reflexivity.
Qed.

End Roots.


End Idem.

(** ** Creating the destination root *)

Module Resolver.
Import CStr Fs Os FileSync Spec CStrFacts FsFacts Engine Frame Aux.

(** *** One [mkdir], on components *)

Lemma mkdir_mk w p :
  p <> "" ->
  fst (mkdir w p) = mk (start_dir w p) w (strip_trailing_empty (split_slash p)).
Proof.
  intros Hp. unfold mkdir, mk. destruct p as [|c p]; [congruence|].
  now destruct (creat_at w _ _).
Qed.

Lemma mk_grows start w cs : grows w (mk start w cs).
Proof.
  unfold mk. destruct (creat_at w start cs) as [k|] eqn:E; [|apply grows_refl].
  apply creat_at_free in E as [Hk Hne].
  split; [now repeat split|]. intros k'. cbn [w_fs set_fs].
  destruct (path_eq_dec k' k) as [->|Hd].
  - right. split; [exact Hk | now apply lookup_put_same].
  - left. now apply lookup_put_other.
Qed.

Lemma grows_lookup w w' k n :
  grows w w' -> lookup (w_fs w) k = Some n -> lookup (w_fs w') k = Some n.
Proof.
  intros [_ H] Hk. destruct (H k) as [->|[N _]]; [exact Hk | congruence].
Qed.

Lemma grows_dir_at w w' k :
  grows w w' -> dir_at (w_fs w) k = true -> dir_at (w_fs w') k = true.
Proof.
  unfold dir_at. intros Hg H.
  destruct (lookup (w_fs w) k) as [[d t|t]|] eqn:E; try discriminate.
  now rewrite (grows_lookup w w' k _ Hg E).
Qed.

(** A walk that ends in a directory is not disturbed by new directories. *)
Lemma grows_walk w w' cs :
  grows w w' ->
  forall cur k,
    walk (w_fs w) cur cs = Some k -> dir_at (w_fs w) k = true ->
    walk (w_fs w') cur cs = Some k.
Proof.
  intros Hg. induction cs as [|c cs IH]; intros cur k; simpl; [easy|].
  destruct (dir_at (w_fs w) cur) eqn:Ed; [|discriminate].
  rewrite (grows_dir_at w w' cur Hg Ed).
  destruct (_ || _); [apply IH|].
  destruct (String.eqb c ".."); apply IH.
Qed.

(** A walk that went on passed through a directory. *)
Lemma walk_through f a b :
  forall cur k,
    walk f cur (a ++ b) = Some k -> dir_at f k = true ->
    exists k', walk f cur a = Some k' /\ dir_at f k' = true.
Proof.
  intros cur k H Hk. rewrite walk_app in H.
  destruct (walk f cur a) as [k'|]; [|discriminate].
  exists k'. split; [reflexivity|].
  destruct b as [|c b]; simpl in H.
  - now injection H as ->.
  - now destruct (dir_at f k').
Qed.

Section Start.

Variable start : path.

Local Abbreviation present := (Aux.present start).
Local Abbreviation mks := (Aux.mks start).

Lemma present_blocks w cs : present w cs -> creat_at w start cs = None.
Proof.
  intros (front & name & d & -> & Hw & Hd & H). unfold creat_at.
  rewrite split_last_app, Hw, Hd.
  destruct (valid_name name); [|reflexivity]. simpl.
  destruct H as [H|H]; [discriminate|].
  now destruct (lookup (w_fs w) (d ++ [name])).
Qed.

Lemma present_grows w w' cs : grows w w' -> present w cs -> present w' cs.
Proof.
  intros Hg (front & name & d & -> & Hw & Hd & H).
  exists front, name, d. split; [reflexivity|].
  split; [exact (grows_walk w w' front Hg start d Hw Hd)|].
  split; [exact (grows_dir_at w w' d Hg Hd)|].
  destruct H as [H|H]; [now left | right].
  destruct (lookup (w_fs w) (d ++ [name])) as [n|] eqn:E; [|congruence].
  now rewrite (grows_lookup w w' _ n Hg E).
Qed.

Lemma creat_at_inv w cs k :
  creat_at w start cs = Some k ->
  exists front name d,
    cs = front ++ [name] /\
    walk (w_fs w) start front = Some d /\ dir_at (w_fs w) d = true /\
    valid_name name = true /\ lookup (w_fs w) (d ++ [name]) = None /\
    k = d ++ [name].
Proof.
  unfold creat_at.
  destruct (split_last cs) as [[front name]|] eqn:E; [|discriminate].
  apply split_last_some in E.
  destruct (walk (w_fs w) start front) as [d|] eqn:Hw; [|discriminate].
  destruct (dir_at (w_fs w) d) eqn:Hd; [|discriminate].
  destruct (valid_name name) eqn:Hn; [|discriminate]. simpl.
  destruct (lookup (w_fs w) (d ++ [name])) eqn:El; [discriminate|].
  intros [= <-]. now exists front, name, d.
Qed.

(** Once created, a path is present. *)
Lemma mk_present w cs k :
  creat_at w start cs = Some k -> present (mk start w cs) cs.
Proof.
  intros H. pose proof (mk_grows start w cs) as Hg.
  unfold mk in *. rewrite H in *.
  apply creat_at_inv in H as (front & name & d & -> & Hw & Hd & Hn & Hl & ->).
  exists front, name, d. split; [reflexivity|].
  split; [exact (grows_walk _ _ front Hg start d Hw Hd)|].
  split; [exact (grows_dir_at _ _ d Hg Hd)|].
  right. cbn [w_fs set_fs]. rewrite lookup_put_same by (now destruct d).
  discriminate.
Qed.

(** When a longer path can be created, a shorter one that cannot is
    present. *)
Lemma shorter_present w a b k :
  prefix_of a b -> a <> [] ->
  creat_at w start a = None -> creat_at w start b = Some k ->
  present w a.
Proof.
  intros [ext Hb] Ha Hna Hcb.
  apply creat_at_inv in Hcb as (front & name & d & Hbe & Hw & Hd & Hn & Hl & _).
  destruct ext as [|e ext].
  - rewrite app_nil_r in Hb. subst b. subst a.
    unfold creat_at in Hna. rewrite split_last_app, Hw, Hd, Hn in Hna.
    simpl in Hna. now rewrite Hl in Hna.
  - destruct (exists_last (l := e :: ext)) as (ext' & x & Hx); [discriminate|].
    rewrite Hx in Hb. rewrite Hb, app_assoc in Hbe.
    apply app_inj_tail in Hbe as [Hf _].
    destruct (exists_last Ha) as (fa & na & ->).
    rewrite <- Hf, <- app_assoc in Hw.
    destruct (walk_through (w_fs w) fa ([na] ++ ext') start d) as (d1 & Hw1 & Hd1).
    { exact Hw. }
    { exact Hd. }
    exists fa, na, d1. split; [reflexivity|]. split; [exact Hw1|].
    split; [exact Hd1|].
    unfold creat_at in Hna. rewrite split_last_app, Hw1, Hd1 in Hna.
    destruct (valid_name na); [right | now left]. simpl in Hna.
    destruct (lookup (w_fs w) (d1 ++ [na])); [discriminate | discriminate].
Qed.

(** *** A chain of [mkdir] calls *)

Lemma mks_grows l : forall w, grows w (mks w l).
Proof.
  induction l as [|cs l IH]; intros w; simpl; [apply grows_refl|].
  eapply grows_trans; [apply mk_grows | apply IH].
Qed.

Lemma blocked_stays cs l :
  forall w,
    (forall cs', In cs' l -> prefix_of cs cs') ->
    creat_at w start cs = None -> creat_at (mks w l) start cs = None.
Proof.
  induction l as [|b l IH]; intros w Hpre Hno; simpl; [exact Hno|].
  destruct cs as [|c0 cs0]; [reflexivity|].
  destruct (creat_at w start b) as [k|] eqn:Eb.
  - apply present_blocks.
    apply (present_grows w); [|].
    + eapply grows_trans; [apply (mk_grows start w b) | apply mks_grows].
    + apply (shorter_present w (c0 :: cs0) b k); try assumption.
      * apply Hpre. now left.
      * discriminate.
  - unfold mk at 1. rewrite Eb. apply IH; [|exact Hno].
    intros cs' H. apply Hpre. now right.
Qed.

(** After the chain, none of its paths can be created. *)
Lemma chain_blocked l :
  forall w, chain l -> forall cs, In cs l -> creat_at (mks w l) start cs = None.
Proof.
  induction l as [|a l IH]; intros w Hc cs Hin; [contradiction|].
  destruct Hc as [Hpre Hc]. simpl.
  destruct Hin as [<-|Hin]; [|now apply IH].
  destruct (creat_at w start a) as [k|] eqn:Ea.
  - apply present_blocks.
    apply (present_grows (mk start w a)); [apply mks_grows|].
    now apply (mk_present w a k).
  - apply blocked_stays; [exact Hpre|].
    unfold mk. now rewrite Ea.
Qed.

Lemma mks_noop l :
  forall w, (forall cs, In cs l -> creat_at w start cs = None) -> mks w l = w.
Proof.
  induction l as [|a l IH]; intros w H; simpl; [reflexivity|].
  unfold mk at 1. rewrite (H a (or_introl eq_refl)).
  apply IH. intros cs Hc. apply H. now right.
Qed.

(** Running a chain twice is running it once. *)
Lemma mks_idempotent l w : chain l -> mks (mks w l) l = mks w l.
Proof.
  intros Hc. apply mks_noop. intros cs Hin. now apply chain_blocked.
Qed.

End Start.

(** *** From the text of the path to its components *)

Lemma mkdir_p_loop_prefixes rest :
  forall w done, mkdir_p_loop w done rest = mkdir_all w (prefixes done rest).
Proof.
  induction rest as [|c rest IH]; intros w done; simpl; [reflexivity|].
  rewrite IH. now destruct (is_slash c).
Qed.

Lemma append_assoc (a b c : string) : ((a ++ b) ++ c = a ++ (b ++ c))%string.
Proof. induction a as [|x a IH]; simpl; [reflexivity | now rewrite IH]. Qed.

Lemma append_nil_r (a : string) : (a ++ "")%string = a.
Proof. induction a as [|x a IH]; simpl; [reflexivity | now rewrite IH]. Qed.

(** Every argument extends [done]; the ones at a slash are followed by
    it. *)
Lemma prefixes_extend rest :
  forall done p,
    In p (prefixes done rest ++ [(done ++ rest)%string]) ->
    exists q, p = (done ++ q)%string.
Proof.
  induction rest as [|c rest IH]; intros done p; simpl.
  - intros [<-|[]]. now exists "".
  - rewrite <- app_assoc. intros H. apply in_app_or in H as [H|H].
    + destruct (is_slash c); [|contradiction].
      destruct H as [<-|[]]. exists "". now rewrite append_nil_r.
    + replace (done ++ String c rest)%string
        with ((done ++ String c "") ++ rest)%string in H
        by (now rewrite append_assoc).
      apply IH in H as [q ->]. exists (String c q).
      now rewrite append_assoc.
Qed.

Lemma split_slash_app a q :
  split_slash (a ++ String "/" q) = split_slash a ++ split_slash q.
Proof.
  induction a as [|c a IH]; simpl; [reflexivity|].
  destruct (is_slash c); [now rewrite IH|].
  rewrite IH. destruct (split_slash a) eqn:E; [|reflexivity].
  now apply split_slash_nonempty in E.
Qed.

Lemma strip_prefix a : forall b,
  prefix_of (strip_trailing_empty a) (strip_trailing_empty (a ++ b)).
Proof.
  induction a as [|c a IH]; intros b; simpl.
  - now exists (strip_trailing_empty b).
  - destruct (IH b) as [ext Hext]. rewrite Hext.
    destruct (strip_trailing_empty a) as [|r0 r]; simpl.
    + destruct ext as [|e ext].
      * exists []. now rewrite app_nil_r.
      * destruct (String.eqb c ""); [now exists (c :: e :: ext)|].
        now exists (e :: ext).
    + now exists ext.
Qed.

Lemma prefixes_chain rest :
  forall done,
    chain (map comps (prefixes done rest ++ [(done ++ rest)%string])).
Proof.
  induction rest as [|c rest IH]; intros done; simpl.
  - split; [now intros cs' [] | exact I].
  - specialize (IH (done ++ String c "")%string).
    replace (done ++ String c rest)%string
      with ((done ++ String c "") ++ rest)%string
      by (now rewrite append_assoc).
    rewrite <- app_assoc.
    destruct (is_slash c) eqn:Ec; [|exact IH].
    simpl. split; [|exact IH].
    intros cs' Hin. apply in_map_iff in Hin as (p & <- & Hp).
    apply prefixes_extend in Hp as [q ->].
    unfold is_slash in Ec. apply Ascii.eqb_eq in Ec. subst c.
    rewrite append_assoc. simpl. unfold comps.
    rewrite split_slash_app. apply strip_prefix.
Qed.

Lemma mk_cwd start w cs : w_cwd (mk start w cs) = w_cwd w.
Proof. unfold mk. now destruct (creat_at w start cs). Qed.

(** A run of [mkdir] calls on paths with the same first byte is a chain
    on their components. *)
Lemma mkdir_all_mks c0 l :
  forall w,
    (forall p, In p l -> exists q, p = String c0 q) ->
    mkdir_all w l = mks (start_dir w (String c0 "")) w (map comps l).
Proof.
  induction l as [|p l IH]; intros w H; [reflexivity|].
  destruct (H p (or_introl eq_refl)) as [q ->].
  unfold mkdir_all, mks in *. cbn [fold_left map].
  rewrite mkdir_mk by discriminate.
  fold (comps (String c0 q)).
  change (start_dir w (String c0 q)) with (start_dir w (String c0 "")).
  rewrite IH by (intros p' Hp'; apply H; now right).
  f_equal. unfold start_dir. now rewrite mk_cwd.
Qed.

Lemma mks_cwd start l : forall w, w_cwd (mks start w l) = w_cwd w.
Proof.
  induction l as [|a l IH]; intros w; simpl; [reflexivity|].
  now rewrite IH, mk_cwd.
Qed.

(** [mkdir_p] as a chain. *)
Lemma mkdir_p_mks w path :
  exists start l,
    chain l /\
    forall w', w_cwd w' = w_cwd w -> mkdir_p w' path = mks start w' l.
Proof.
  unfold mkdir_p.
  destruct (match last_char path with
            | Some c => if is_slash c then drop_last path else path
            | None => path
            end) as [|c0 rest].
  - exists [], []. split; [exact I|]. reflexivity.
  - exists (start_dir w (String c0 "")),
           (map comps (prefixes (String c0 "") rest ++ [String c0 rest])).
    split; [exact (prefixes_chain rest (String c0 ""))|].
    intros w' Hc. rewrite mkdir_p_loop_prefixes.
    change (fst (mkdir (mkdir_all w' (prefixes (String c0 "") rest))
                       (String c0 rest)))
      with (mkdir_all (mkdir_all w' (prefixes (String c0 "") rest))
                      [String c0 rest]).
    unfold mkdir_all. rewrite <- fold_left_app.
    fold (mkdir_all w' (prefixes (String c0 "") rest ++ [String c0 rest])).
    rewrite (mkdir_all_mks c0).
    + unfold start_dir. now rewrite Hc.
    + intros p Hp.
      apply (prefixes_extend rest (String c0 "")) in Hp as [q ->].
      now exists q.
Qed.

Lemma mkdir_p_idempotent w path :
  mkdir_p (mkdir_p w path) path = mkdir_p w path.
Proof.
  destruct (mkdir_p_mks w path) as (start & l & Hc & H).
  rewrite (H w eq_refl).
  rewrite (H (mks start w l)) by apply mks_cwd.
  now apply mks_idempotent.
Qed.

(** *** [mkdir] on a path that exists *)

Lemma strip_decomp a :
  exists m, a = strip_trailing_empty a ++ repeat "" m.
Proof.
  induction a as [|c a [m IH]]; simpl.
  - now exists 0.
  - destruct (strip_trailing_empty a) as [|r0 r] eqn:E.
    + simpl in IH. destruct (String.eqb c "") eqn:Ec.
      * apply String.eqb_eq in Ec. subst c. exists (S m). simpl. now f_equal.
      * exists m. simpl. now f_equal.
    + exists m. rewrite IH at 1. reflexivity.
Qed.

Lemma mkdir_existing w p :
  file_exists w p = true -> mkdir w p = (w, (-1)%Z).
Proof.
  rewrite Decision.file_exists_namei. unfold namei, resolve, mkdir.
  destruct p as [|c p]; [reflexivity|].
  set (start := start_dir w (String c p)).
  intros H.
  destruct (creat_at w start _) as [k|] eqn:E; [|reflexivity].
  exfalso. revert H.
  apply creat_at_inv in E as (front & name & d & Hc & Hw & Hd & Hn & Hl & _).
  destruct (strip_decomp (split_slash (String c p))) as [m Hm].
  rewrite Hm, Hc, <- app_assoc, walk_app, Hw.
  rewrite walk_app, (walk_name _ _ _ Hn), Hd.
  destruct m as [|m]; simpl.
  - now rewrite Hl.
  - unfold dir_at. now rewrite Hl.
Qed.

End Resolver.

(** ** More on [compare] and [qsort] *)

Module OrderMore.
Import CStr Fs Os FileSync Spec CStrFacts FsFacts Aux More.

Lemma lex_le_trans a b : lex_le a b -> forall c, lex_le b c -> lex_le a c.
Proof.
  induction 1 as [b|x a y b Hxy|x a b Hab IH]; intros c Hbc.
  - apply lex_nil.
  - inversion Hbc; subst.
    + apply lex_lt. lia.
    + now apply lex_lt.
  - inversion Hbc; subst.
    + now apply lex_lt.
    + apply lex_eq. now apply IH.
Qed.

Lemma cmp_le_trans a b c :
  has_nul a = false -> has_nul b = false -> has_nul c = false ->
  cmp_le a b -> cmp_le b c -> cmp_le a c.
Proof.
  unfold cmp_le, compare. intros Ha Hb Hc Hab Hbc.
  apply Order.lex_strcmp.
  apply (lex_le_trans a b); now apply Order.strcmp_lex.
Qed.

Lemma cmp_le_antisym a b :
  has_nul a = false -> has_nul b = false ->
  cmp_le a b -> cmp_le b a -> a = b.
Proof.
  unfold cmp_le, compare. intros Ha Hb Hab Hba.
  apply strcmp_zero_eq; try assumption.
  pose proof (strcmp_swap b a). lia.
Qed.

(** X1: on C strings [compare] is a total order: it answers 0 exactly for
    equal strings, swapping the operands flips the sign of its answer, and
    "at most 0" is transitive. *)
Theorem compare_total_order (a b c : string) :
  has_nul a = false -> has_nul b = false -> has_nul c = false ->
  (compare a b = 0%Z <-> a = b) /\
  compare b a = (- compare a b)%Z /\
  ((compare a b <= 0)%Z -> (compare b c <= 0)%Z -> (compare a c <= 0)%Z).
Proof.
  intros Ha Hb Hc. split; [|split].
  - split; [now apply strcmp_zero_eq|]. intros ->. apply strcmp_refl.
  - apply strcmp_swap.
  - now apply cmp_le_trans.
Qed.

Lemma sorted_strongly l :
  Forall no_nul l -> Sorted cmp_le l -> StronglySorted cmp_le l.
Proof.
  intros Hall Hs. induction Hs as [|x l Hs IH Hhd]; [constructor|].
  inversion Hall as [|? ? Hx Hl]; subst.
  specialize (IH Hl). constructor; [exact IH|].
  destruct Hhd as [|y l Hxy]; [constructor|].
  inversion Hl as [|? ? Hy Hl']; subst.
  constructor; [exact Hxy|].
  apply StronglySorted_inv in IH as [_ IH].
  rewrite Forall_forall in IH, Hl' |- *. intros z Hz.
  apply (cmp_le_trans x y z);
    [exact Hx | exact Hy | exact (Hl' z Hz) | exact Hxy | exact (IH z Hz)].
Qed.

Lemma strongly_sorted_unique l1 :
  forall l2,
    Forall no_nul l1 ->
    StronglySorted cmp_le l1 -> StronglySorted cmp_le l2 ->
    Permutation l1 l2 -> l1 = l2.
Proof.
  induction l1 as [|x l1 IH]; intros l2 Hall H1 H2 Hp.
  - apply Permutation_nil in Hp. now subst.
  - destruct l2 as [|y l2];
      [apply Permutation_sym, Permutation_nil in Hp; discriminate|].
    inversion Hall as [|? ? Hx Hl]; subst.
    apply StronglySorted_inv in H1 as [H1 F1].
    apply StronglySorted_inv in H2 as [H2 F2].
    assert (Hy : no_nul y).
    { assert (In y (x :: l1))
        by (apply (Permutation_in _ (Permutation_sym Hp)); now left).
      rewrite Forall_forall in Hall. now apply Hall. }
    assert (E : x = y).
    { assert (Hxin : In x (y :: l2))
        by (apply (Permutation_in _ Hp); now left).
      assert (Hyin : In y (x :: l1))
        by (apply (Permutation_in _ (Permutation_sym Hp)); now left).
      rewrite Forall_forall in F1, F2.
      destruct Hxin as [->|Hxin]; [reflexivity|].
      destruct Hyin as [->|Hyin]; [reflexivity|].
      apply cmp_le_antisym;
        [exact Hx | exact Hy | exact (F1 y Hyin) | exact (F2 x Hxin)]. }
    subst y. f_equal. apply IH; try assumption.
    now apply Permutation_cons_inv in Hp.
Qed.

(** X2: the array [qsort] leaves does not depend on the order in which the
    names were collected: two collections with the same C strings, each as
    often, are sorted into the same array; and sorting a sorted array changes
    nothing. *)
Theorem qsort_order_independent (l l' : list string) :
  Forall (fun n => has_nul n = false) l ->
  Permutation l l' ->
  qsort l = qsort l' /\ qsort (qsort l) = qsort l.
Proof.
  intros Hall Hp.
  assert (U : forall a b, Forall no_nul a -> Permutation a b ->
                          qsort a = qsort b).
  { intros a b Ha Hab.
    assert (Hqa : Forall no_nul (qsort a)).
    { rewrite Forall_forall in *. intros n Hn. apply Ha.
      exact (Permutation_in _ (Permutation_sym (Order.qsort_perm a)) Hn). }
    apply strongly_sorted_unique; try assumption.
    - apply sorted_strongly; [exact Hqa | apply Order.qsort_sorted].
    - apply sorted_strongly; [|apply Order.qsort_sorted].
      rewrite Forall_forall in *. intros n Hn. apply Ha.
      apply (Permutation_in _ (Permutation_sym Hab)).
      exact (Permutation_in _ (Permutation_sym (Order.qsort_perm b)) Hn).
    - rewrite <- (Order.qsort_perm a), <- (Order.qsort_perm b). exact Hab. }
  split; [now apply U|].
  symmetry. apply U; [exact Hall | apply Order.qsort_perm].
Qed.

End OrderMore.

(** ** More on the comparators and the transfer *)

Module PrimsMore.
Import CStr Fs Os FileSync Spec CStrFacts FsFacts Aux More.

(** X3: the recency comparator is irreflexive and asymmetric on paths
    that [stat] can read: a file is not newer than itself, and of two files
    at most one is newer than the other. *)
Theorem source_is_newer_asymmetric (w : world) (a b : string) :
  file_exists w a = true -> file_exists w b = true ->
  source_is_newer w a a = false /\
  (source_is_newer w a b = true -> source_is_newer w b a = false).
Proof.
  intros _ _. unfold source_is_newer, difftime. split.
  - rewrite Z.sub_diag. reflexivity.
  - rewrite !Z.gtb_ltb, Z.ltb_lt, Z.ltb_ge. lia.
Qed.

(** X4: with [diff] installed, the content comparator applied to two
    regular files answers 0 when their bytes are equal and 1 when they
    differ, and leaves every file as it was. *)
Theorem files_are_different_regular (w : world) (a b : string)
    (da db : string) (ta tb : Z) :
  existsb (String.eqb "/usr/bin/diff") (w_execs w) = true ->
  file_at w a = Some (da, ta) ->
  file_at w b = Some (db, tb) ->
  (snd (files_are_different w a b) = 0%Z <-> da = db) /\
  (snd (files_are_different w a b) = 1%Z <-> da <> db) /\
  w_fs (fst (files_are_different w a b)) = w_fs w.
Proof.
  intros Hi Ha Hb.
  rewrite (Decision.files_are_different_found w a b Hi). cbn [fst snd].
  unfold diff_status. unfold file_at in Ha, Hb.
  destruct (namei w a) as [[ka [xa sa|sa]]|]; try discriminate.
  destruct (namei w b) as [[kb [xb sb|sb]]|]; try discriminate.
  injection Ha as -> ->. injection Hb as -> ->.
  destruct (String.eqb_spec da db) as [E|E].
  - split; [easy|]. split; [|reflexivity]. split; [discriminate | easy].
  - split; [|split; [easy | reflexivity]]. split; [discriminate | easy].
Qed.

(** X5: when [diff] is not installed the child exits with status 1, so
    the comparator answers "different" for every pair of paths, and the loop
    body never announces a file as identical. *)
Theorem no_diff_never_identical (w : world) (abs_src abs_dst name : string) :
  existsb (String.eqb "/usr/bin/diff") (w_execs w) = false ->
  (forall a b, snd (files_are_different w a b) = 1%Z) /\
  ~ In (Identical name) (snd (sync_file w abs_src abs_dst name)).
Proof.
  intros Hi.
  assert (H : forall a b, snd (files_are_different w a b) = 1%Z).
  { intros a b. unfold files_are_different, spawn. now rewrite Hi. }
  split; [exact H|].
  apply Errors.sync_file_not_identical. now rewrite H.
Qed.

(** What [cp] does, whatever its operands: nothing, or one write of the
    source's bytes to an entry that is not the source and holds no
    directory. *)
Lemma cp_general w src dst :
  cp w src dst = (w, 1%Z) \/
  exists ks data ts k,
    namei w src = Some (ks, Reg data ts) /\
    dir_at (w_fs w) k = false /\ k <> [] /\ k <> ks /\
    cp w src dst = write_file w k data.
Proof.
  unfold cp.
  destruct (namei w src) as [[ks [data ts|ts]]|] eqn:Es; try now left.
  destruct (namei w dst) as [[kd [dd td|td]]|] eqn:Ed.
  - unfold cp_onto. destruct (path_eq_dec ks kd) as [->|Hne]; [now left|].
    right. exists ks, data, ts, kd. unfold namei in Ed.
    destruct (resolve w dst) as [k'|]; [|discriminate].
    destruct (lookup (w_fs w) k') as [n|] eqn:El; [|discriminate].
    injection Ed as -> ->.
    split; [reflexivity|]. split; [exact (lookup_reg_not_dir _ _ _ _ El)|].
    split; [exact (lookup_reg_nonroot _ _ _ _ El)|].
    split; [congruence | reflexivity].
  - destruct (lookup (w_fs w) (kd ++ [basename src])) as [[d2 t2|t2]|] eqn:El;
      [|now left|];
      (destruct (valid_name (basename src)); [|now left]);
      unfold cp_onto;
      (destruct (path_eq_dec ks (kd ++ [basename src])) as [E|Hne];
       [now left|]);
      right; exists ks, data, ts, (kd ++ [basename src]);
      (split; [reflexivity|]);
      (split; [unfold dir_at; now rewrite El|]);
      (split; [now destruct kd|]);
      (split; [congruence | reflexivity]).
  - destruct dst as [|c dst]; [now left|].
    destruct (creat_at w _ _) as [k|] eqn:Ek; [|now left].
    apply creat_at_resolve in Ek as (Hr & Hl & Hk); [|discriminate].
    right. exists ks, data, ts, k.
    split; [reflexivity|]. split; [now apply lookup_none_not_dir|].
    split; [exact Hk|]. split; [|reflexivity].
    intros ->. unfold namei in Es.
    destruct (resolve w src) as [k0|]; [|discriminate].
    destruct (lookup (w_fs w) k0) eqn:E; [|discriminate].
    injection Es as -> ->. congruence.
Qed.

(** X6: [copy_file] never changes the file it copies from, never removes
    an entry, never puts a file where a directory is, and prints its
    [Copied] line in every case. *)
Theorem copy_file_frame (w : world) (src dst : string) :
  let w' := fst (copy_file w src dst) in
  file_at w' src = file_at w src /\
  (forall k, lookup (w_fs w) k <> None -> lookup (w_fs w') k <> None) /\
  (forall k, dir_at (w_fs w') k = dir_at (w_fs w) k) /\
  snd (copy_file w src dst) = [Copied src dst].
Proof.
  cbv zeta. split; [|split; [|split]]; try apply Decision.copy_file_out;
    unfold copy_file, spawn;
    (destruct (existsb _ (w_execs w)); [|easy]);
    destruct (cp_general w src dst)
      as [E|(ks & data & ts & k & Es & Hk & Hne & Hks & E)];
    rewrite E; try easy; unfold write_file; cbn [fst].
  - unfold file_at. rewrite namei_add_child_eq.
    rewrite (Transfer.namei_write w k _ _ src Hk Hne).
    unfold namei in Es |- *.
    destruct (resolve w src) as [k0|]; [|discriminate].
    destruct (lookup (w_fs w) k0) as [n|] eqn:El; [|discriminate].
    injection Es as -> ->.
    destruct (path_eq_dec ks k); [congruence | reflexivity].
  - intros k' H. cbn [w_fs add_child set_fs].
    destruct (path_eq_dec k' k) as [->|Hd].
    + now rewrite lookup_put_same.
    + now rewrite lookup_put_other.
  - cbn [w_fs add_child set_fs]. apply same_dirs_put_reg. exact Hk.
Qed.

End PrimsMore.

(** ** More on [mkdir_p] *)

Module MkdirMore.
Import CStr Fs Os FileSync Spec CStrFacts FsFacts Aux More Engine Frame Resolver.

Lemma mkdir_children w p : w_children (fst (mkdir w p)) = w_children w.
Proof.
  unfold mkdir. destruct p as [|c p]; [reflexivity|].
  now destruct (creat_at w _ _).
Qed.

Lemma mkdir_p_loop_children rest :
  forall w done, w_children (mkdir_p_loop w done rest) = w_children w.
Proof.
  induction rest as [|c rest IH]; intros w done; simpl; [reflexivity|].
  rewrite IH. destruct (is_slash c); [apply mkdir_children | reflexivity].
Qed.

Lemma mkdir_p_children w p : w_children (mkdir_p w p) = w_children w.
Proof.
  unfold mkdir_p.
  destruct (match last_char p with
            | Some c => if is_slash c then drop_last p else p
            | None => p
            end) as [|c0 rest].
  - apply mkdir_children.
  - now rewrite mkdir_children, mkdir_p_loop_children.
Qed.

(** X7: [mkdir_p] only adds directories.  For a path that is not empty
    and fits the buffer: no entry is removed, every regular file is as it
    was, every directory is still a directory, every new entry is a
    directory, and neither the working directory nor the list of reaped
    children changes. *)
Theorem mkdir_p_only_adds (w : world) (path : string) :
  path <> "" -> String.length path < MAX_PATH ->
  (forall k,
     same_entry (lookup (w_fs (mkdir_p w path)) k) (lookup (w_fs w) k) \/
     (lookup (w_fs w) k = None /\
      exists t, lookup (w_fs (mkdir_p w path)) k = Some (Dir t))) /\
  w_cwd (mkdir_p w path) = w_cwd w /\
  w_children (mkdir_p w path) = w_children w.
Proof.
  intros _ _. destruct (mkdir_p_grows w path) as [He Hg].
  split; [|split; [apply He | apply mkdir_p_children]].
  intros k. destruct (Hg k) as [E|[N D]].
  - left. rewrite E. apply same_entry_refl.
  - right. split; [exact N | eexists; exact D].
Qed.

(** *** A trailing slash *)

Lemma last_char_snoc p c : last_char (p ++ String c "") = Some c.
Proof.
  induction p as [|x p IH]; simpl; [reflexivity|].
  rewrite IH. now destruct (p ++ String c "")%string eqn:E; [destruct p|].
Qed.

Lemma drop_last_snoc p c : drop_last (p ++ String c "") = p.
Proof.
  induction p as [|x p IH]; simpl; [reflexivity|].
  rewrite IH. now destruct (p ++ String c "")%string eqn:E; [destruct p|].
Qed.

(** X8: one trailing slash makes no difference to [mkdir_p]: for a path
    that does not end in a slash and fits the buffer with a slash added,
    the path with the slash is handled exactly like the path itself. *)
Theorem mkdir_p_trailing_slash (w : world) (p : string) :
  ends_ok p -> String.length (p ++ "/") < MAX_PATH ->
  mkdir_p w (p ++ "/") = mkdir_p w p.
Proof.
  intros (c & Hc & Hs) _. unfold mkdir_p.
  rewrite last_char_snoc, drop_last_snoc, Hc, Hs. reflexivity.
Qed.

(** *** A path that exists *)

Lemma walk_on f a c b :
  forall cur k,
    walk f cur (a ++ c :: b) = Some k ->
    exists k', walk f cur a = Some k' /\ dir_at f k' = true.
Proof.
  intros cur k H. rewrite walk_app in H.
  destruct (walk f cur a) as [k'|]; [|discriminate].
  exists k'. split; [reflexivity|]. simpl in H.
  now destruct (dir_at f k').
Qed.

(** A path that exists up to a slash exists before that slash. *)
Lemma file_exists_before_slash w q q2 :
  q <> "" ->
  file_exists w (q ++ String "/" q2) = true -> file_exists w q = true.
Proof.
  intros Hq. rewrite !Decision.file_exists_namei. unfold namei, resolve.
  destruct q as [|c q]; [congruence|]. simpl append.
  change (start_dir w (String c (q ++ String "/" q2)))
    with (start_dir w (String c q)).
  change (String c (q ++ String "/" q2))
    with (String c q ++ String "/" q2)%string.
  rewrite split_slash_app.
  destruct (split_slash q2) as [|c2 b] eqn:E2;
    [now apply split_slash_nonempty in E2|].
  destruct (walk (w_fs w) _ (split_slash (String c q) ++ c2 :: b))
    as [k|] eqn:Hw; [|discriminate].
  intros _. apply walk_on in Hw as (k' & -> & Hd).
  unfold dir_at in Hd. now destruct (lookup (w_fs w) k').
Qed.

Lemma prefixes_before_slash rest :
  forall done q,
    In q (prefixes done rest) ->
    exists q1 q2, q = (done ++ q1)%string /\
                  (done ++ rest)%string = (q ++ String "/" q2)%string.
Proof.
  induction rest as [|c rest IH]; intros done q; simpl; [contradiction|].
  intros H. apply in_app_or in H as [H|H].
  - destruct (is_slash c) eqn:Ec; [|contradiction].
    destruct H as [<-|[]]. unfold is_slash in Ec.
    apply Ascii.eqb_eq in Ec. subst c.
    exists "", rest. now rewrite append_nil_r.
  - apply IH in H as (q1 & q2 & -> & H).
    exists (String c q1), q2. rewrite !append_assoc in *. simpl in *.
    split; [reflexivity | exact H].
Qed.

Lemma mkdir_all_existing l :
  forall w, (forall q, In q l -> file_exists w q = true) -> mkdir_all w l = w.
Proof.
  induction l as [|q l IH]; intros w H; [reflexivity|].
  unfold mkdir_all in *. cbn [fold_left].
  rewrite (mkdir_existing w q) by (apply H; now left). cbn [fst].
  apply IH. intros q' Hq'. apply H. now right.
Qed.

Lemma last_char_decomp p c :
  last_char p = Some c -> p = (drop_last p ++ String c "")%string.
Proof.
  induction p as [|x p IH]; [discriminate|].
  destruct p as [|y p].
  - simpl. now intros [= ->].
  - intros H.
    change (last_char (String x (String y p)))
      with (last_char (String y p)) in H.
    change (drop_last (String x (String y p)) ++ String c "")%string
      with (String x (drop_last (String y p) ++ String c ""))%string.
    f_equal. exact (IH H).
Qed.

(** X9: on a path that exists (and fits the buffer) [mkdir_p] changes
    nothing: each [mkdir] it calls finds its path present, and the -1 it
    returns is ignored. *)
Theorem mkdir_p_existing (w : world) (p : string) :
  file_exists w p = true -> String.length p < MAX_PATH ->
  mkdir_p w p = w.
Proof.
  intros Hp _. unfold mkdir_p.
  set (tmp := match last_char p with
              | Some c => if is_slash c then drop_last p else p
              | None => p
              end).
  assert (Ht : tmp = "" \/ file_exists w tmp = true).
  { subst tmp. destruct (last_char p) as [c|] eqn:Hc; [|now right].
    destruct (is_slash c) eqn:Es; [|now right].
    unfold is_slash in Es. apply Ascii.eqb_eq in Es. subst c.
    destruct (drop_last p) as [|c0 r] eqn:Ed; [now left|]. right.
    apply last_char_decomp in Hc. rewrite Ed in Hc. rewrite Hc in Hp.
    now apply (file_exists_before_slash w (String c0 r) "") in Hp. }
  destruct tmp as [|c0 rest] eqn:Etmp; [reflexivity|].
  destruct Ht as [Ht|Ht]; [discriminate|].
  rewrite mkdir_p_loop_prefixes, mkdir_all_existing.
  - now rewrite mkdir_existing.
  - intros q Hq.
    apply prefixes_before_slash in Hq as (q1 & q2 & -> & H).
    change (String c0 rest) with (String c0 "" ++ rest)%string in Ht.
    rewrite H in Ht.
    apply file_exists_before_slash in Ht; [exact Ht | discriminate].
Qed.

End MkdirMore.

(** ** What [mkdir_p] builds *)

Module MkdirTree.
Import CStr Fs Os FileSync Spec CStrFacts FsFacts Aux More Engine Frame Resolver.

Lemma strip_last_nonempty l name :
  name <> "" -> strip_trailing_empty (l ++ [name]) = l ++ [name].
Proof.
  intros Hn. induction l as [|c l IH]; simpl.
  - destruct (String.eqb name "") eqn:E; [|reflexivity].
    apply String.eqb_eq in E. congruence.
  - rewrite IH. destruct (l ++ [name]) eqn:E; [now destruct l | reflexivity].
Qed.

Lemma valid_name_nonempty n : valid_name n = true -> n <> "".
Proof. intros H ->. discriminate H. Qed.

(** Inside a name the loop only moves its cursor. *)
Lemma mkdir_p_loop_skip s :
  has_slash s = false ->
  forall w done rest,
    mkdir_p_loop w done (s ++ rest) = mkdir_p_loop w (done ++ s) rest.
Proof.
  induction s as [|c s IH]; simpl; intros H w done rest.
  - now rewrite append_nil_r.
  - apply orb_false_iff in H as [Hc Hs]. rewrite Hc, (IH Hs).
    now rewrite append_assoc.
Qed.

Lemma names_entry_walk start w done k :
  names_entry start w done k ->
  forall w', grows w w' -> dir_at (w_fs w') k = true ->
  walk (w_fs w') start (split_slash done) = Some k.
Proof.
  intros (_ & _ & front & name & d & Hsp & Hv & Hw & Hd & ->) w' Hg Hk.
  rewrite Hsp, walk_app, (grows_walk w w' front Hg _ _ Hw Hd).
  rewrite (walk_name _ _ _ Hv), (grows_dir_at w w' d Hg Hd). reflexivity.
Qed.

(** The [mkdir] at the cursor leaves a directory there, unless a regular
    file has the name. *)
Lemma mkdir_entry start w done k :
  names_entry start w done k ->
  (forall dt t, lookup (w_fs w) k <> Some (Reg dt t)) ->
  dir_at (w_fs (fst (mkdir w done))) k = true.
Proof.
  intros (Hne & Hs & front & name & d & Hsp & Hv & Hw & Hd & ->) Hfree.
  rewrite mkdir_mk by exact Hne.
  rewrite Hs, Hsp, strip_last_nonempty by now apply valid_name_nonempty.
  unfold mk, creat_at. rewrite split_last_app, Hw, Hd, Hv. cbn [andb].
  destruct (lookup (w_fs w) (d ++ [name])) as [[dt t|t]|] eqn:E.
  - now destruct (Hfree dt t).
  - unfold dir_at. now rewrite E.
  - cbn [w_fs set_fs]. unfold dir_at. rewrite lookup_put_same; [reflexivity|].
    now destruct d.
Qed.

Lemma mkdir_p_loop_tree start rest :
  forall w done k,
    names_entry start w done k ->
    Forall (fun n => valid_name n = true) rest ->
    way_free w k rest ->
    let w' := fst (mkdir (mkdir_p_loop w done (tail_text rest))
                         (done ++ tail_text rest)) in
    grows w w' /\
    walk (w_fs w') start (split_slash (done ++ tail_text rest))
      = Some (k ++ rest) /\
    dir_at (w_fs w') (k ++ rest) = true.
Proof.
  induction rest as [|n rest IH]; intros w done k He Hv Hf.
  - cbn [tail_text mkdir_p_loop]. rewrite append_nil_r, app_nil_r.
    assert (Hk : dir_at (w_fs (fst (mkdir w done))) k = true).
    { apply (mkdir_entry start); [exact He|]. intros dt t.
      specialize (Hf [] dt t). rewrite app_nil_r in Hf. apply Hf.
      now exists []. }
    split; [apply mkdir_grows|]. split; [|exact Hk].
    apply (names_entry_walk start w); [exact He | apply mkdir_grows | exact Hk].
  - inversion Hv as [|? ? Hn Hrest]; subst.
    pose proof (valid_name_step n Hn) as (_ & _ & Hsl).
    cbn [tail_text].
    change ("/" ++ n ++ tail_text rest)%string
      with (String "/" (n ++ tail_text rest)).
    cbn [mkdir_p_loop]. change (is_slash "/") with true. cbv iota.
    rewrite (mkdir_p_loop_skip n Hsl).
    set (w1 := fst (mkdir w done)).
    set (done' := ((done ++ "/") ++ n)%string).
    assert (Et : (done ++ String "/" (n ++ tail_text rest))%string
                 = (done' ++ tail_text rest)%string).
    { subst done'. now rewrite !append_assoc. }
    rewrite Et.
    assert (Hg : grows w w1) by apply mkdir_grows.
    assert (Hk : dir_at (w_fs w1) k = true).
    { apply (mkdir_entry start); [exact He|]. intros dt t.
      specialize (Hf [] dt t). rewrite app_nil_r in Hf. apply Hf.
      now exists (n :: rest). }
    assert (He' : names_entry start w1 done' (k ++ [n])).
    { pose proof (names_entry_walk start w done k He w1 Hg Hk) as Hwk.
      destruct He as (Hne & Hs & _).
      split; [|split].
      - subst done'. destruct done; [congruence | discriminate].
      - subst done'. destruct done as [|c0 d0]; [congruence|].
        cbn [append start_dir] in *. destruct Hg as [(-> & _) _]. exact Hs.
      - exists (split_slash done), n, k.
        split; [|now repeat split].
        subst done'. rewrite append_assoc.
        change ("/" ++ n)%string with (String "/" n).
        now rewrite split_slash_app, (split_slash_plain n Hsl). }
    assert (Hf' : way_free w1 (k ++ [n]) rest).
    { intros l dt t [ext ->]. rewrite <- app_assoc. cbn [app].
      destruct Hg as [_ Hg]. destruct (Hg (k ++ n :: l)) as [->|[_ ->]].
      - apply Hf. now exists ext.
      - discriminate. }
    destruct (IH w1 done' (k ++ [n]) He' Hrest Hf') as (G & W & D).
    rewrite <- app_assoc in W, D. cbn [app] in W, D.
    split; [exact (grows_trans _ _ _ Hg G)|]. now split.
Qed.

(** *** Where a path text ends *)

Lemma last_char_app a b : b <> "" -> last_char (a ++ b) = last_char b.
Proof.
  intros Hb. induction a as [|x a IH]; [reflexivity|].
  cbn [append]. destruct (a ++ b)%string as [|y s] eqn:E.
  - destruct a; simpl in E; congruence.
  - rewrite <- IH. reflexivity.
Qed.

Lemma ends_ok_name n : valid_name n = true -> ends_ok n.
Proof.
  intros H. pose proof (valid_name_nonempty n H) as Hne.
  apply valid_name_step in H as (_ & _ & Hs). unfold ends_ok.
  induction n as [|x n IH]; [congruence|].
  simpl in Hs. apply orb_false_iff in Hs as [Hx Hn].
  destruct n as [|y n].
  - exists x. now split.
  - assert (Hy : String y n <> "") by discriminate.
    destruct (IH Hn Hy) as (c & Hc & Hcs).
    exists c. split; [exact Hc | exact Hcs].
Qed.

Lemma ends_ok_app a b : ends_ok b -> ends_ok (a ++ b).
Proof.
  intros (c & Hc & Hs). exists c. split; [|exact Hs].
  rewrite last_char_app; [exact Hc|]. now destruct b.
Qed.

Lemma ends_ok_names n rest :
  Forall (fun n => valid_name n = true) (n :: rest) ->
  ends_ok (n ++ tail_text rest).
Proof.
  revert n. induction rest as [|m rest IH]; intros n Hv;
    inversion Hv as [|? ? Hn Hrest]; subst.
  - cbn [tail_text]. rewrite append_nil_r. now apply ends_ok_name.
  - cbn [tail_text]. apply ends_ok_app, (ends_ok_app "/"), IH, Hrest.
Qed.


End MkdirTree.

(** ** More on the loop and on whole runs *)

Module RunMore.
Import CStr Fs Os FileSync Spec CStrFacts FsFacts Aux More Engine Frame.

(** *** The programs a run starts *)

Lemma spawn_command u prog args body :
  (forall u0, w_children (fst (body u0)) = w_children u0) ->
  exists c, w_children (fst (spawn u prog args body)) = w_children u ++ [c] /\
            command_of c = (prog, args).
Proof.
  intros H. unfold spawn. destruct (existsb _ _).
  - specialize (H u). destruct (body u) as [u' st]. cbn [fst] in *.
    eexists. cbn [w_children add_child]. rewrite H. split; reflexivity.
  - eexists. split; reflexivity.
Qed.

Lemma copy_file_command u src dst :
  exists c, w_children (fst (copy_file u src dst)) = w_children u ++ [c] /\
            command_of c = ("/bin/cp", ["cp"; src; dst]).
Proof.
  destruct (spawn_command u "/bin/cp" ["cp"; src; dst]
              (fun u0 => cp u0 src dst)) as (c & Hc & Hcmd).
  - intros u0. apply Idem.cp_children.
  - exists c. unfold copy_file. destruct (spawn _ _ _ _). now split.
Qed.

Lemma files_are_different_command u src dst :
  exists c,
    w_children (fst (files_are_different u src dst)) = w_children u ++ [c] /\
    command_of c = ("/usr/bin/diff", ["diff"; "-q"; src; dst]).
Proof.
  apply (spawn_command u "/usr/bin/diff" ["diff"; "-q"; src; dst]
           (fun w0 => (w0, diff_status w0 src dst))).
  reflexivity.
Qed.

Lemma sync_file_commands u abs_src abs_dst n :
  exists cs,
    w_children (fst (sync_file u abs_src abs_dst n)) = w_children u ++ cs /\
    map command_of cs =
    flat_map (commands abs_src abs_dst)
             (decisions (snd (sync_file u abs_src abs_dst n))).
Proof.
  unfold sync_file.
  set (src := snprintf_path MAX_PATH abs_src n).
  set (dst := snprintf_path MAX_PATH abs_dst n).
  destruct (negb (file_exists u dst)).
  - rewrite Decision.copy_file_eta. cbn [fst snd].
    destruct (copy_file_command u src dst) as (c & Hc & Hcmd).
    exists [c]. split; [exact Hc|]. cbn [map]. rewrite Hcmd. reflexivity.
  - destruct (files_are_different_command u src dst) as (c & Hc & Hcmd).
    destruct (files_are_different u src dst) as [u1 different].
    cbn [fst] in Hc.
    destruct (different =? 0)%Z.
    { exists [c]. split; [exact Hc|]. cbn [map]. rewrite Hcmd. reflexivity. }
    destruct (source_is_newer u1 src dst).
    + rewrite Decision.copy_file_eta. cbn [fst snd].
      destruct (copy_file_command u1 src dst) as (c2 & Hc2 & Hcmd2).
      exists [c; c2]. split.
      * rewrite Hc2, Hc, <- app_assoc. reflexivity.
      * cbn [map]. rewrite Hcmd, Hcmd2. reflexivity.
    + exists [c]. split; [exact Hc|]. cbn [map]. rewrite Hcmd. reflexivity.
Qed.

Lemma sync_loop_commands abs_src abs_dst files :
  forall u, exists cs,
    w_children (fst (sync_loop u abs_src abs_dst files)) = w_children u ++ cs /\
    map command_of cs =
    flat_map (commands abs_src abs_dst)
             (decisions (snd (sync_loop u abs_src abs_dst files))).
Proof.
  induction files as [|n rest IH]; intros u; simpl.
  - exists []. now rewrite app_nil_r.
  - destruct (sync_file_commands u abs_src abs_dst n) as (cs1 & H1 & M1).
    destruct (sync_file u abs_src abs_dst n) as [u1 o1]. cbn [fst snd] in *.
    destruct (IH u1) as (cs2 & H2 & M2).
    destruct (sync_loop u1 abs_src abs_dst rest) as [u2 o2]. cbn [fst snd] in *.
    exists (cs1 ++ cs2). split.
    + now rewrite H2, H1, app_assoc.
    + now rewrite map_app, Idem.decisions_app, flat_map_app, M1, M2.
Qed.

(** X11: the loop forks exactly the children its log accounts for, in the
    order of the log: for each announced decision one child that is to
    execute [diff -q src dst] when the destination existed, and one that is
    to execute [cp src dst] when the file is transferred, on the two joined
    paths of that name, and no other child. *)
Theorem loop_runs_logged_commands (w : world) (abs_src abs_dst : string)
    (files : list string) :
  map command_of (new_children w (fst (sync_loop w abs_src abs_dst files))) =
  flat_map (commands abs_src abs_dst)
           (decisions (snd (sync_loop w abs_src abs_dst files))).
Proof.
  destruct (sync_loop_commands abs_src abs_dst files w) as (cs & Hc & Hm).
  now rewrite (Idem.new_children_app _ _ _ Hc).
Qed.

(** *** The last line *)

Lemma sync_file_no_complete w abs_src abs_dst n :
  ~ In Complete (snd (sync_file w abs_src abs_dst n)).
Proof.
  destruct (Order.sync_file_out w abs_src abs_dst n) as [d ->].
  destruct d; simpl; intuition discriminate.
Qed.

Lemma sync_loop_no_complete abs_src abs_dst files :
  forall w, ~ In Complete (snd (sync_loop w abs_src abs_dst files)).
Proof.
  induction files as [|n rest IH]; intros w; simpl; [tauto|].
  pose proof (sync_file_no_complete w abs_src abs_dst n) as H1.
  destruct (sync_file w abs_src abs_dst n) as [w1 o1].
  specialize (IH w1).
  destruct (sync_loop w1 abs_src abs_dst rest) as [w2 o2]. cbn [snd] in *.
  intros H. apply in_app_or in H. tauto.
Qed.

(** X12: the completion line and the exit code agree.  A run that
    overruns no buffer prints "Synchronization complete." exactly when it
    exits with 0, and then as its last line and only once. *)
Theorem completion_iff_success (w : world) (argv : list string) :
  within_buffers w argv = true ->
  (In Complete (r_out (main w argv)) <-> r_exit (main w argv) = 0%Z) /\
  (r_exit (main w argv) = 0%Z ->
   exists body, r_out (main w argv) = body ++ [Complete] /\
                ~ In Complete body).
Proof.
  intros _. unfold main.
  destruct argv as [|a0 [|a1 [|a2 [|a3 rest]]]];
    try (cbn [r_out r_exit]; split;
         [split; [intros [H|[]]; discriminate | discriminate]
         | discriminate]).
  destruct (realpath w a1) as [abs_src|];
    [|cbn [r_out r_exit]; split;
      [split; [intros [H|[]]; discriminate | discriminate] | discriminate]].
  assert (Ho : ~ In Complete (snd (resolve_destination w a2))).
  { unfold resolve_destination. destruct (realpath w a2); cbn [snd].
    - tauto.
    - intros [H|[]]. discriminate. }
  destruct (resolve_destination w a2) as [[w1 abs_dst] out1]. cbn [snd] in Ho.
  destruct (getcwd w1 MAX_PATH) as [cwd|];
    [|cbn [r_out r_exit]; split;
      [split; [tauto | discriminate] | discriminate]].
  assert (Ho2 : ~ In Complete
                  (out1 ++ [WorkingDirectory cwd;
                            Synchronizing abs_src abs_dst])).
  { intros H. apply in_app_or in H as [H|[H|[H|[]]]];
      [tauto | discriminate | discriminate]. }
  unfold engine. destruct (list_regular_files w1 abs_src) as [files|];
    [|cbn [r_out r_exit]; split;
      [split; [tauto | discriminate] | discriminate]].
  pose proof (sync_loop_no_complete abs_src abs_dst (qsort files) w1) as Ho3.
  destruct (sync_loop w1 abs_src abs_dst (qsort files)) as [w2 out3].
  cbn [r_out r_exit snd] in *. split.
  - split; [reflexivity|]. intros _.
    apply in_or_app. right. apply in_or_app. right. now left.
  - intros _. eexists. rewrite app_assoc. split; [reflexivity|].
    intros H. apply in_app_or in H. tauto.
Qed.

(** *** A run that fails *)

Lemma resolve_destination_children w arg :
  w_children (fst (fst (resolve_destination w arg))) = w_children w.
Proof.
  unfold resolve_destination.
  destruct (realpath w arg); cbn [fst]; [reflexivity|].
  apply MkdirMore.mkdir_p_children.
Qed.

(** X13: a run that exits with 1 (and overruns no buffer) has examined
    no file: it started no program and announced no decision; it removed no
    entry, left every regular file as it was and every directory a
    directory, and what it added are directories. *)
Theorem failed_run_harmless (w : world) (argv : list string) :
  within_buffers w argv = true ->
  r_exit (main w argv) = 1%Z ->
  (forall k,
     same_entry (lookup (w_fs (r_world (main w argv))) k)
                (lookup (w_fs w) k) \/
     (lookup (w_fs w) k = None /\
      exists t, lookup (w_fs (r_world (main w argv))) k = Some (Dir t))) /\
  new_children w (r_world (main w argv)) = [] /\
  decisions (r_out (main w argv)) = [].
Proof.
  assert (Hnil : forall u, w_children u = w_children w ->
                           new_children w u = []).
  { intros u Hu. apply Idem.new_children_app. now rewrite app_nil_r. }
  assert (Hsame : forall u, grows w u ->
            forall k,
              same_entry (lookup (w_fs u) k) (lookup (w_fs w) k) \/
              (lookup (w_fs w) k = None /\
               exists t, lookup (w_fs u) k = Some (Dir t))).
  { intros u [_ Hg] k. destruct (Hg k) as [E|[N D]].
    - left. rewrite E. apply same_entry_refl.
    - right. split; [exact N | eexists; exact D]. }
  intros _. unfold main.
  destruct argv as [|a0 [|a1 [|a2 [|a3 rest]]]];
    try (intros _; cbn [r_world r_out];
         split; [apply Hsame, grows_refl
                | split; [now apply Hnil | reflexivity]]).
  destruct (realpath w a1) as [abs_src|];
    [|intros _; cbn [r_world r_out];
      split; [apply Hsame, grows_refl
             | split; [now apply Hnil | reflexivity]]].
  pose proof (resolve_destination_grows w a2) as Hg.
  pose proof (resolve_destination_children w a2) as Hc.
  assert (Ho : decisions (snd (resolve_destination w a2)) = []).
  { unfold resolve_destination. now destruct (realpath w a2). }
  destruct (resolve_destination w a2) as [[w1 abs_dst] out1].
  cbn [fst snd] in *.
  destruct (getcwd w1 MAX_PATH) as [cwd|];
    [|intros _; cbn [r_world r_out];
      split; [now apply Hsame | split; [now apply Hnil | exact Ho]]].
  destruct (engine w1 abs_src abs_dst) as [[w2 out3]|].
  - cbn [r_exit]. discriminate.
  - intros _. cbn [r_world r_out].
    split; [now apply Hsame|]. split; [now apply Hnil|].
    rewrite Idem.decisions_app, Ho. reflexivity.
Qed.

(** *** A destination root that is no directory *)

Lemma cp_no_directory w abs_src abs_dst n :
  abs_dst <> "" -> name_ok abs_src abs_dst n ->
  dir_of w abs_dst = None ->
  forall src, cp w src (snprintf_path MAX_PATH abs_dst n) = (w, 1%Z).
Proof.
  intros Hd Hn Hdir src. unfold cp.
  destruct (namei w src) as [[ks [data ts|ts]]|]; try reflexivity.
  rewrite (dst_file_eq abs_src abs_dst n Hn).
  rewrite (namei_under w abs_dst n Hd (proj1 Hn)), Hdir.
  destruct (abs_dst ++ "/" ++ n)%string eqn:E; [reflexivity|].
  rewrite <- E. clear E.
  rewrite (creat_at_join w abs_dst n Hd (proj1 Hn)).
  unfold dir_of in Hdir.
  destruct (resolve w abs_dst) as [kd|]; [|reflexivity].
  destruct (dir_at (w_fs w) kd); [discriminate | reflexivity].
Qed.

Lemma sync_file_no_directory w abs_src abs_dst n :
  abs_dst <> "" -> name_ok abs_src abs_dst n ->
  dir_of w abs_dst = None ->
  exists c,
    sync_file w abs_src abs_dst n =
    (add_child w c, new_file_lines abs_src abs_dst n).
Proof.
  intros Hd Hn Hdir. unfold sync_file.
  rewrite (file_exists_dst abs_src abs_dst Hd w n Hn), Hdir. cbn [negb].
  unfold copy_file, spawn.
  destruct (existsb _ _).
  - rewrite (cp_no_directory w abs_src abs_dst n Hd Hn Hdir).
    eexists. reflexivity.
  - eexists. reflexivity.
Qed.


(** *** Without [cp] *)

Lemma sync_file_no_cp w abs_src abs_dst n :
  existsb (String.eqb "/bin/cp") (w_execs w) = false ->
  w_fs (fst (sync_file w abs_src abs_dst n)) = w_fs w /\
  w_execs (fst (sync_file w abs_src abs_dst n)) = w_execs w.
Proof.
  intros Hcp.
  assert (Hcopy : forall u src dst,
            w_execs u = w_execs w ->
            w_fs (fst (copy_file u src dst)) = w_fs u /\
            w_execs (fst (copy_file u src dst)) = w_execs u).
  { intros u src dst Hu. unfold copy_file, spawn. rewrite Hu, Hcp.
    now split. }
  unfold sync_file. destruct (negb _).
  - rewrite Decision.copy_file_eta. cbn [fst]. now apply Hcopy.
  - destruct (files_are_different_world w
                (snprintf_path MAX_PATH abs_src n)
                (snprintf_path MAX_PATH abs_dst n)) as [c Hc].
    destruct (files_are_different w _ _) as [w1 different].
    cbn [fst] in Hc. subst w1.
    destruct (different =? 0)%Z; [now split|].
    destruct (source_is_newer _ _ _); [|now split].
    rewrite Decision.copy_file_eta. cbn [fst].
    now destruct (Hcopy (add_child w c)
                    (snprintf_path MAX_PATH abs_src n)
                    (snprintf_path MAX_PATH abs_dst n) eq_refl).
Qed.

(** X15: where [/bin/cp] cannot be executed the loop changes no entry of
    the file system, whatever it announces. *)
Theorem loop_without_cp (w : world) (abs_src abs_dst : string)
    (files : list string) :
  existsb (String.eqb "/bin/cp") (w_execs w) = false ->
  w_fs (fst (sync_loop w abs_src abs_dst files)) = w_fs w.
Proof.
  revert w. induction files as [|n rest IH]; intros w Hcp; [reflexivity|].
  cbn [sync_loop].
  destruct (sync_file_no_cp w abs_src abs_dst n Hcp) as [Hf He].
  destruct (sync_file w abs_src abs_dst n) as [w1 o1]. cbn [fst snd] in *.
  rewrite <- He in Hcp. specialize (IH w1 Hcp).
  destruct (sync_loop w1 abs_src abs_dst rest) as [w2 o2]. cbn [fst snd] in *.
  congruence.
Qed.

End RunMore.

(** ** What a run without failures leaves *)

Module ResultMore.
Import CStr Fs Os FileSync Spec CStrFacts FsFacts Aux More Engine Frame.


End ResultMore.

(** ** An empty destination *)

Module FreshMore.
Import CStr Fs Os FileSync Spec CStrFacts FsFacts Aux More Engine Frame.

Lemma sync_file_new w abs_src abs_dst n kd :
  abs_dst <> "" -> name_ok abs_src abs_dst n ->
  dir_of w abs_dst = Some kd ->
  lookup (w_fs w) (kd ++ [n]) = None ->
  decisions (snd (sync_file w abs_src abs_dst n)) = [(n, CopyNew)].
Proof.
  intros Hd Hn Hkd Hl. unfold sync_file.
  rewrite (file_exists_dst abs_src abs_dst Hd w n Hn), Hkd, Hl. cbn [negb].
  now rewrite Decision.copy_file_eta.
Qed.

(** X18: into a destination directory that has none of the names, every
    file goes as a new file.  For roots that are not empty and name
    directories, and for distinct names that are regular files of the
    source root and whose joined paths fit the buffers, the loop decides
    Copy-New for each name, in order, whatever the earlier copies did. *)
Theorem loop_into_fresh_destination (w : world) (abs_src abs_dst : string)
    (files : list string) (ks kd : path) :
  abs_src <> "" -> abs_dst <> "" ->
  Forall (name_ok abs_src abs_dst) files ->
  NoDup files ->
  dir_of w abs_src = Some ks ->
  (forall n, In n files ->
     exists ds ts, lookup (w_fs w) (ks ++ [n]) = Some (Reg ds ts)) ->
  dir_of w abs_dst = Some kd ->
  (forall n, In n files -> lookup (w_fs w) (kd ++ [n]) = None) ->
  decisions (snd (sync_loop w abs_src abs_dst files)) =
  map (fun n => (n, CopyNew)) files.
Proof.
  intros Hsne Hdne Hok. revert w.
  induction Hok as [|n rest Hn Hrest IH];
    intros w Hnd Hs Hreg Hkd Hfree; [reflexivity|].
  inversion Hnd as [|? ? Hnotin Hnd']; subst.
  cbn [sync_loop map].
  pose proof (sync_file_new w abs_src abs_dst n kd Hdne Hn Hkd
                (Hfree n (or_introl eq_refl))) as Hdec.
  destruct (Hreg n (or_introl eq_refl)) as (ds & ts & Hls).
  pose proof (sync_file_effect abs_src abs_dst Hsne Hdne w n ks ds ts
                Hn Hs Hls) as (He & Hw).
  destruct (sync_file w abs_src abs_dst n) as [w1 o1]. cbn [fst snd] in *.
  assert (Hst : same_dirs (w_fs w) (w_fs w1) /\
                forall m, In m rest ->
                  lookup (w_fs w1) (ks ++ [m]) = lookup (w_fs w) (ks ++ [m]) /\
                  lookup (w_fs w1) (kd ++ [m]) = lookup (w_fs w) (kd ++ [m])).
  { destruct Hw as [->|(k & Ht & Hne & Hwr)].
    - split; [apply same_dirs_refl | now split].
    - pose proof (wrote_props w w1 k Hwr) as (Hsd & Hoth & _).
      split; [exact Hsd|]. intros m Hm. split.
      + apply Hoth. intros E.
        exact (target_not_source abs_dst w n k ks Ht Hne m (eq_sym E)).
      + apply Hoth. destruct Ht as (kd' & Hkd' & Hk).
        rewrite Hkd in Hkd'. injection Hkd' as <-.
        destruct Hk as [-> | ->]; intros E.
        * apply app_inv_head in E. injection E as ->. contradiction.
        * apply app_inv_head in E. discriminate. }
  destruct Hst as [Hsd Hsame].
  assert (IH' := IH w1 Hnd').
  rewrite (dir_of_stable w w1 abs_src Hsd (proj1 He)) in IH'.
  rewrite (dir_of_stable w w1 abs_dst Hsd (proj1 He)) in IH'.
  specialize (IH' Hs).
  destruct (sync_loop w1 abs_src abs_dst rest) as [w2 o2]. cbn [fst snd] in *.
  rewrite Idem.decisions_app, Hdec. cbn [app]. f_equal.
  apply IH'.
  - intros m Hm. rewrite (proj1 (Hsame m Hm)). apply Hreg. now right.
  - exact Hkd.
  - intros m Hm. rewrite (proj2 (Hsame m Hm)). apply Hfree. now right.
Qed.

End FreshMore.

(** ** Resolving the destination twice *)

Module Destination.
Import CStr Fs Os FileSync Spec CStrFacts FsFacts Aux More Engine Frame Resolver.
Import MkdirTree.


(** The directory [mkdir_p] leaves at a path of proper names. *)
Lemma mkdir_p_makes (w : world) (absolute : bool) (n1 : string)
    (rest : list string) :
  dir_at (w_fs w) (start_of w absolute) = true ->
  Forall (fun n => valid_name n = true) (n1 :: rest) ->
  way_free w (start_of w absolute) (n1 :: rest) ->
  dir_of (mkdir_p w (path_text absolute n1 rest)) (path_text absolute n1 rest)
    = Some (start_of w absolute ++ n1 :: rest).
Proof.
  intros Hstart Hv Hf.
  set (start := start_of w absolute) in *.
  pose proof (ends_ok_app (if absolute then "/" else "") _
                          (ends_ok_names n1 rest Hv)) as (c & Hc & Hcs).
  inversion Hv as [|? ? Hn Hrest]; subst.
  pose proof (valid_name_step n1 Hn) as (_ & _ & Hsl).
  pose proof (valid_name_nonempty n1 Hn) as Hne.
  assert (Hf1 : way_free w (start ++ [n1]) rest).
  { intros l dt t [ext ->]. rewrite <- app_assoc. apply Hf. now exists ext. }
  assert (Key : exists done,
             path_text absolute n1 rest = (done ++ tail_text rest)%string /\
             names_entry start w done (start ++ [n1]) /\
             mkdir_p w (path_text absolute n1 rest) =
             fst (mkdir (mkdir_p_loop w done (tail_text rest))
                        (done ++ tail_text rest))).
  { unfold mkdir_p, path_text. rewrite Hc, Hcs. destruct absolute.
    - exists (String "/" n1).
      change ("/" ++ n1 ++ tail_text rest)%string
        with (String "/" (n1 ++ tail_text rest)).
      split; [reflexivity|]. split.
      + split; [discriminate|]. split; [reflexivity|].
        exists [""], n1, []. cbn [split_slash]. change (is_slash "/") with true.
        cbv iota. rewrite (split_slash_plain n1 Hsl).
        repeat split; assumption.
      + rewrite (mkdir_p_loop_skip n1 Hsl). reflexivity.
    - exists n1. cbn [append]. split; [reflexivity|]. split.
      + split; [exact Hne|]. split.
        * destruct n1 as [|c0 n1']; [congruence|]. cbn in Hsl |- *.
          apply orb_false_iff in Hsl as [-> _]. reflexivity.
        * exists [], n1, start. rewrite (split_slash_plain n1 Hsl).
          now repeat split.
      + destruct n1 as [|c0 n1']; [congruence|]. cbn [append].
        cbn in Hsl. apply orb_false_iff in Hsl as [_ Hsl'].
        rewrite (mkdir_p_loop_skip n1' Hsl'). reflexivity. }
  destruct Key as (done & Ep & He & Em).
  destruct (mkdir_p_loop_tree start rest w done _ He Hrest Hf1)
    as (G & W & D).
  rewrite Em, Ep. set (w' := fst (mkdir _ _)) in *.
  rewrite <- app_assoc in W, D. cbn [app] in W, D.
  unfold dir_of, resolve.
  destruct He as (Hd & Hs & _).
  destruct (done ++ tail_text rest)%string as [|c0 r0] eqn:E;
    [destruct done; [congruence | discriminate]|].
  assert (Es : start_dir w' (String c0 r0) = start).
  { rewrite <- Hs. destruct done as [|c1 d1]; [congruence|].
    cbn in E. injection E as -> _. cbn [start_dir].
    destruct G as [(-> & _) _]. reflexivity. }
  rewrite Es, W, D. reflexivity.
Qed.

Lemma dir_of_realpath w p k :
  dir_of w p = Some k -> realpath w p = Some (path_str k).
Proof.
  unfold dir_of, realpath, namei, dir_at.
  destruct (resolve w p) as [k'|]; [|discriminate].
  destruct (lookup (w_fs w) k') as [[d t|t]|]; try discriminate.
  now intros [= ->].
Qed.


End Destination.

(** ** The theorems at concrete inputs *)

Module Witnesses.
Import CStr Fs Os FileSync Spec Aux More Examples.


Lemma processing_order_witness :
  Sorted lex_le (processed (r_out (main w_bac argv_bac))).
Proof.
  apply (Order.processing_order w_bac argv_bac); reflexivity.
Defined.

Lemma source_is_newer_seconds_witness :
  (source_is_newer w_edited "/dst/a.txt" "/src/a.txt" = true <->
   (tv_sec (sec 20) < tv_sec (sec 30))%Z) /\
  ((sec 20 + NSEC_PER_SEC <= sec 30)%Z ->
   source_is_newer w_edited "/dst/a.txt" "/src/a.txt" = true) /\
  (source_is_newer w_edited "/dst/a.txt" "/src/a.txt" = true ->
   (sec 20 < sec 30)%Z) /\
  (sec 30 = sec 20 ->
   source_is_newer w_edited "/dst/a.txt" "/src/a.txt" = false).
Proof.
  apply (Basic.source_is_newer_seconds w_edited "/dst/a.txt" "/src/a.txt");
    reflexivity.
Defined.


Lemma exit_code_cases_witness :
  r_exit (main w_bac argv_bac) = 0%Z <-> exit_cause w_bac argv_bac = false.
Proof.
  apply (Errors.exit_code_cases w_bac argv_bac). reflexivity.
Defined.


Lemma failures_do_not_stop_witness :
  processed (r_out (main w_small argv_bac)) = ["a.txt"; "b.txt"].
Proof.
  rewrite (proj1 (Errors.failures_do_not_stop w_small argv_bac eq_refl)).
  reflexivity.
Defined.




End Witnesses.

(** ** The further properties at concrete inputs *)

Module MoreWitnesses.
Import CStr Fs Os FileSync Spec Aux More Examples MoreExamples.

Lemma compare_total_order_witness :
  (compare "a.txt" "b.txt" = 0%Z <-> "a.txt" = "b.txt") /\
  compare "b.txt" "a.txt" = (- compare "a.txt" "b.txt")%Z /\
  ((compare "a.txt" "b.txt" <= 0)%Z -> (compare "b.txt" "c.txt" <= 0)%Z ->
   (compare "a.txt" "c.txt" <= 0)%Z).
Proof.
  apply (OrderMore.compare_total_order "a.txt" "b.txt" "c.txt"); reflexivity.
Defined.

Lemma qsort_order_independent_witness :
  qsort ["b.txt"; "a.txt"; "c.txt"] = qsort ["a.txt"; "b.txt"; "c.txt"] /\
  qsort (qsort ["b.txt"; "a.txt"; "c.txt"]) = qsort ["b.txt"; "a.txt"; "c.txt"].
Proof.
  apply (OrderMore.qsort_order_independent
           ["b.txt"; "a.txt"; "c.txt"] ["a.txt"; "b.txt"; "c.txt"]).
  - repeat constructor.
  - apply perm_swap.
Defined.

Lemma source_is_newer_asymmetric_witness :
  source_is_newer w_edited "/dst/a.txt" "/dst/a.txt" = false /\
  (source_is_newer w_edited "/dst/a.txt" "/src/a.txt" = true ->
   source_is_newer w_edited "/src/a.txt" "/dst/a.txt" = false).
Proof.
  apply (PrimsMore.source_is_newer_asymmetric w_edited
           "/dst/a.txt" "/src/a.txt"); reflexivity.
Defined.

Lemma files_are_different_regular_witness :
  (snd (files_are_different w_edited "/src/a.txt" "/dst/a.txt") = 0%Z <->
   "alpha" = "edited") /\
  (snd (files_are_different w_edited "/src/a.txt" "/dst/a.txt") = 1%Z <->
   "alpha" <> "edited") /\
  w_fs (fst (files_are_different w_edited "/src/a.txt" "/dst/a.txt")) =
  w_fs w_edited.
Proof.
  apply (PrimsMore.files_are_different_regular w_edited
           "/src/a.txt" "/dst/a.txt" "alpha" "edited" (sec 20) (sec 30)); reflexivity.
Defined.

Lemma no_diff_never_identical_witness :
  (forall a b, snd (files_are_different w_bare a b) = 1%Z) /\
  ~ In (Identical "b.txt") (snd (sync_file w_bare "/src" "/dst" "b.txt")).
Proof.
  apply (PrimsMore.no_diff_never_identical w_bare "/src" "/dst" "b.txt").
  reflexivity.
Defined.

Lemma mkdir_p_only_adds_witness :
  (forall k,
     same_entry (lookup (w_fs (mkdir_p w_bac "/dst/new/deep")) k)
                (lookup (w_fs w_bac) k) \/
     (lookup (w_fs w_bac) k = None /\
      exists t, lookup (w_fs (mkdir_p w_bac "/dst/new/deep")) k
                = Some (Dir t))) /\
  w_cwd (mkdir_p w_bac "/dst/new/deep") = w_cwd w_bac /\
  w_children (mkdir_p w_bac "/dst/new/deep") = w_children w_bac.
Proof.
  apply (MkdirMore.mkdir_p_only_adds w_bac "/dst/new/deep").
  - discriminate.
  - apply Nat.ltb_lt. reflexivity.
Defined.

Lemma mkdir_p_trailing_slash_witness :
  mkdir_p w_bac ("/dst/new" ++ "/") = mkdir_p w_bac "/dst/new".
Proof.
  apply (MkdirMore.mkdir_p_trailing_slash w_bac "/dst/new").
  - exists "w"%char. split; reflexivity.
  - apply Nat.ltb_lt. reflexivity.
Defined.

Lemma mkdir_p_existing_witness : mkdir_p w_bac "/dst/" = w_bac.
Proof.
  apply (MkdirMore.mkdir_p_existing w_bac "/dst/").
  - reflexivity.
  - apply Nat.ltb_lt. reflexivity.
Defined.


Lemma completion_iff_success_witness :
  (In Complete (r_out (main w_bac argv_bac)) <->
   r_exit (main w_bac argv_bac) = 0%Z) /\
  (r_exit (main w_bac argv_bac) = 0%Z ->
   exists body, r_out (main w_bac argv_bac) = body ++ [Complete] /\
                ~ In Complete body).
Proof.
  apply (RunMore.completion_iff_success w_bac argv_bac). reflexivity.
Defined.

Lemma failed_run_harmless_witness :
  (forall k,
     same_entry (lookup (w_fs (r_world (main w_bac argv_file_source))) k)
                (lookup (w_fs w_bac) k) \/
     (lookup (w_fs w_bac) k = None /\
      exists t, lookup (w_fs (r_world (main w_bac argv_file_source))) k
                = Some (Dir t))) /\
  new_children w_bac (r_world (main w_bac argv_file_source)) = [] /\
  decisions (r_out (main w_bac argv_file_source)) = [].
Proof.
  apply (RunMore.failed_run_harmless w_bac argv_file_source); reflexivity.
Defined.


Lemma loop_without_cp_witness :
  w_fs (fst (sync_loop w_bare "/src" "/dst" ["a.txt"; "b.txt"])) = w_fs w_bare.
Proof.
  apply (RunMore.loop_without_cp w_bare "/src" "/dst" ["a.txt"; "b.txt"]).
  reflexivity.
Defined.


Lemma loop_into_fresh_destination_witness :
  decisions (snd (sync_loop w_bac "/src" "/dst" ["a.txt"; "b.txt"])) =
  map (fun n => (n, CopyNew)) ["a.txt"; "b.txt"].
Proof.
  apply (FreshMore.loop_into_fresh_destination w_bac "/src" "/dst"
           ["a.txt"; "b.txt"] ["src"] ["dst"]).
  - discriminate.
  - discriminate.
  - repeat constructor; apply Nat.ltb_lt; reflexivity.
  - repeat constructor; simpl; intuition discriminate.
  - reflexivity.
  - intros n [<-|[<-|[]]]; vm_compute; eauto.
  - reflexivity.
  - intros n [<-|[<-|[]]]; reflexivity.
Defined.

End MoreWitnesses.
